(** * Watch Sync: the synchronization orchestration engine

    A shallow embedding of the TypeScript sources of the extension
    (state machine, sync jobs, rsync command builder, strategies,
    inotify aggregator, credential prompt, orchestrator) together with
    the properties the specification states about them.

    Conventions of the embedding.
    - A TypeScript string-literal union is an inductive type.
    - An object with private mutable fields is a record; a method is a
      function from the record to the updated record, together with
      what it returns and what it sends to its collaborators (logger,
      event bus), the latter as a list of [Effect]s.
    - [undefined] in an optional field is [None].
    - A JavaScript [number] that only ever holds a counter or a port is
      a [nat]/[N]; the counters of this program start at 0 and move by
      one, far below the 2^53 bound where a double stops being exact.
    - A thrown [Error] is the [Threw] outcome, carrying its message. *)

From stdpp Require Import base decidable option list strings pretty gmap.

Open Scope string_scope.

(** ** core/types.ts *)

Inductive FileChangeType := create | modify | delete | move.

Inductive SyncDirection := localToRemote | remoteToLocal | bidirectional.

Inductive ConflictPolicy := localWins | remoteWins | newest | manual.

Inductive SyncState :=
  | idle
  | initializing
  | connecting
  | watching
  | syncing
  | error
  | recovering.

#[global] Instance FileChangeType_eq_dec : EqDecision FileChangeType.
Proof. solve_decision. Defined.

#[global] Instance SyncDirection_eq_dec : EqDecision SyncDirection.
Proof. solve_decision. Defined.

#[global] Instance ConflictPolicy_eq_dec : EqDecision ConflictPolicy.
Proof. solve_decision. Defined.

#[global] Instance SyncState_eq_dec : EqDecision SyncState.
Proof. solve_decision. Defined.

(** The literal a state is printed as inside a template string. *)
Definition SyncState_literal (s : SyncState) : string :=
  match s with
  | idle => "idle"
  | initializing => "initializing"
  | connecting => "connecting"
  | watching => "watching"
  | syncing => "syncing"
  | error => "error"
  | recovering => "recovering"
  end.

(** [Date] values are opaque instants handed in by the environment. *)
Definition Date := N.

Record FileChangeEvent := {
  ev_type : FileChangeType;
  ev_path : string;
  ev_timestamp : Date;
  ev_oldPath : option string
}.

#[global] Instance FileChangeEvent_eq_dec : EqDecision FileChangeEvent.
Proof. solve_decision. Defined.

Record SyncResult := {
  success : bool;
  jobId : string;
  res_filesTransferred : nat;
  res_bytesTransferred : nat;
  res_duration : Z;
  errors : list string
}.

Record SpawnArgs := {
  command : string;
  args : list string;
  cwd : option string
}.

#[global] Instance SpawnArgs_eq_dec : EqDecision SpawnArgs.
Proof. solve_decision. Defined.

(** ** domain/entities/Profile.ts and ProfileConfig

    [Profile] (the entity) and [ProfileConfig] (its plain object,
    [toPlainObject]) carry the same nine fields; one record serves
    both. *)

Record Profile := {
  alias : string;
  remoteUser : string;
  remoteHost : string;
  remoteDir : string;
  localDir : string;
  sshPort : N;
  direction : SyncDirection;
  conflictPolicy : ConflictPolicy;
  exclude : list string
}.

#[global] Instance Profile_eq_dec : EqDecision Profile.
Proof. solve_decision. Defined.

(** [Array.prototype.join]. *)
Fixpoint join (sep : string) (xs : list string) : string :=
  match xs with
  | [] => ""
  | [x] => x
  | x :: rest => x ++ sep ++ join sep rest
  end.

(** The result of a call that may throw. *)
Inductive Outcome (A : Type) :=
  | Returned (a : A)
  | Threw (message : string).

Arguments Returned {A} a.
Arguments Threw {A} message.

Module Job.

(** *** domain/entities/SyncJob.ts *)

Inductive SyncJobStatus := pending | running | completed | failed.

Inductive SyncStrategy := full | incremental.

#[global] Instance SyncJobStatus_eq_dec : EqDecision SyncJobStatus.
Proof. solve_decision. Defined.

#[global] Instance SyncStrategy_eq_dec : EqDecision SyncStrategy.
Proof. solve_decision. Defined.

Definition SyncJobStatus_literal (s : SyncJobStatus) : string :=
  match s with
  | pending => "pending"
  | running => "running"
  | completed => "completed"
  | failed => "failed"
  end.

Record SyncJob := {
  job_id : string;
  job_profile : Profile;
  job_files : list string;
  job_strategy : SyncStrategy;
  createdAt : Date;
  _status : SyncJobStatus;
  _startedAt : option Date;
  _completedAt : option Date;
  _error : option string;
  _filesTransferred : nat;
  _bytesTransferred : nat
}.

#[global] Instance SyncJob_eq_dec : EqDecision SyncJob.
Proof. solve_decision. Defined.

(** The constructor; [now] is what [new Date()] returns.
    [params.strategy ?? (params.files && params.files.length > 0
                         ? 'incremental' : 'full')]. *)
Definition new (now : Date) (id : string) (profile : Profile)
    (files : option (list string)) (strategy : option SyncStrategy) : SyncJob :=
  {| job_id := id;
     job_profile := profile;
     job_files := default [] files;
     job_strategy :=
       match strategy with
       | Some s => s
       | None =>
           match files with
           | Some (_ :: _) => incremental
           | _ => full
           end
       end;
     createdAt := now;
     _status := pending;
     _startedAt := None;
     _completedAt := None;
     _error := None;
     _filesTransferred := 0;
     _bytesTransferred := 0 |}.

(** [get duration()]: 0 before the start, otherwise the milliseconds
    from the start to the completion (or to [now]). *)
Definition duration (now : Date) (j : SyncJob) : Z :=
  match _startedAt j with
  | None => 0%Z
  | Some started => (Z.of_N (default now (_completedAt j)) - Z.of_N started)%Z
  end.

(** Each lifecycle method returns whether it threw, and the job as the
    call leaves it. *)
Definition start (now : Date) (j : SyncJob) : Outcome unit * SyncJob :=
  if decide (_status j ≠ pending) then
    (Threw ("Cannot start job in " ++ SyncJobStatus_literal (_status j) ++ " status"), j)
  else
    (Returned (),
     {| job_id := job_id j; job_profile := job_profile j; job_files := job_files j;
        job_strategy := job_strategy j; createdAt := createdAt j;
        _status := running;
        _startedAt := Some now;
        _completedAt := _completedAt j;
        _error := _error j;
        _filesTransferred := _filesTransferred j;
        _bytesTransferred := _bytesTransferred j |}).

Definition complete (now : Date) (filesTransferred bytesTransferred : nat)
    (j : SyncJob) : Outcome unit * SyncJob :=
  if decide (_status j ≠ running) then
    (Threw ("Cannot complete job in " ++ SyncJobStatus_literal (_status j) ++ " status"), j)
  else
    (Returned (),
     {| job_id := job_id j; job_profile := job_profile j; job_files := job_files j;
        job_strategy := job_strategy j; createdAt := createdAt j;
        _status := completed;
        _startedAt := _startedAt j;
        _completedAt := Some now;
        _error := _error j;
        _filesTransferred := filesTransferred;
        _bytesTransferred := bytesTransferred |}).

Definition fail (now : Date) (error : string) (j : SyncJob) : Outcome unit * SyncJob :=
  if decide (_status j ≠ running) then
    (Threw ("Cannot fail job in " ++ SyncJobStatus_literal (_status j) ++ " status"), j)
  else
    (Returned (),
     {| job_id := job_id j; job_profile := job_profile j; job_files := job_files j;
        job_strategy := job_strategy j; createdAt := createdAt j;
        _status := failed;
        _startedAt := _startedAt j;
        _completedAt := Some now;
        _error := Some error;
        _filesTransferred := _filesTransferred j;
        _bytesTransferred := _bytesTransferred j |}).

(** The three lifecycle calls, as data. *)
Inductive Call :=
  | CallStart
  | CallComplete (filesTransferred bytesTransferred : nat)
  | CallFail (error : string).

Definition call (now : Date) (c : Call) (j : SyncJob) : Outcome unit * SyncJob :=
  match c with
  | CallStart => start now j
  | CallComplete f b => complete now f b j
  | CallFail e => fail now e j
  end.

(** The status order the specification draws:
    pending -> running -> completed | failed. *)
Definition status_step (s t : SyncJobStatus) : Prop :=
  (s = pending /\ t = running) \/
  (s = running /\ t = completed) \/
  (s = running /\ t = failed).

End Job.

(** ** What a component sends to its collaborators *)

Inductive LogLevel := DEBUG | INFO | WARN | ERROR.

(** The job handed to the rsync client ([RsyncSyncJob]). *)
Record RsyncSyncJob := {
  rs_id : string;
  rs_profile : Profile;
  rs_files : list string;
  rs_strategy : Job.SyncStrategy
}.

Record WatchConfig := {
  targetPath : string;
  excludePatterns : list string;
  debounceMs : nat
}.

(** Calls on the logger, the event bus ([SyncEventBus.emit...]), the
    rsync client and the file watcher, in the order they are made. *)
Inductive Effect :=
  | Log (level : LogLevel) (category message : string)
  | StateChanged (oldState newState : SyncState) (profile : option Profile)
  | SyncStarted (job : Job.SyncJob)
  | SyncCompleted (job : Job.SyncJob) (result : SyncResult)
  | SyncFailed (job : Job.SyncJob) (error : string)
  | FilesChanged (files : list string)
  | ErrorEvent (message : string) (recoverable : bool)
  | RsyncClientSync (job : RsyncSyncJob)
  | WatcherStart (config : WatchConfig)
  | WatcherStop
  | DidChange (events : list FileChangeEvent).

Module StateMachine.

(** *** application/SyncStateMachine.ts *)

Definition VALID_TRANSITIONS (s : SyncState) : list SyncState :=
  match s with
  | idle => [initializing]
  | initializing => [connecting; error; idle]
  | connecting => [watching; error; idle]
  | watching => [syncing; error; idle]
  | syncing => [watching; error]
  | error => [recovering; idle]
  | recovering => [watching; error; idle]
  end.

Record SyncStateMachine := {
  _state : SyncState;
  _profile : option Profile;
  _lastError : option string;
  _retryCount : nat;
  maxRetries : nat
}.

(** [new SyncStateMachine(eventBus, logger, options)]:
    [options.maxRetries ?? 3]. *)
Definition new (optMaxRetries : option nat) : SyncStateMachine :=
  {| _state := idle;
     _profile := None;
     _lastError := None;
     _retryCount := 0;
     maxRetries := default 3 optMaxRetries |}.

(** The optional second argument of [transition]. *)
Record Context := {
  ctx_profile : option Profile;
  ctx_error : option string
}.

Definition isActive (m : SyncStateMachine) : bool :=
  bool_decide (_state m ≠ idle) && bool_decide (_state m ≠ error).

Definition canRetry (m : SyncStateMachine) : bool :=
  bool_decide (_retryCount m < maxRetries m).

(** [VALID_TRANSITIONS[this._state]?.includes(targetState) ?? false];
    every state has an entry, so the [?? false] arm is dead. *)
Definition canTransitionTo (m : SyncStateMachine) (targetState : SyncState) : bool :=
  bool_decide (targetState ∈ VALID_TRANSITIONS (_state m)).

(** [context?.profile]: an object, truthy whenever present. *)
Definition context_profile (context : option Context) : option Profile :=
  context ≫= ctx_profile.

(** [context?.error]: a string, truthy when present and non-empty. *)
Definition context_error (context : option Context) : option string :=
  match context ≫= ctx_error with
  | Some e => if decide (e = "") then None else Some e
  | None => None
  end.

Definition transition (m : SyncStateMachine) (newState : SyncState)
    (context : option Context) : bool * SyncStateMachine * list Effect :=
  if negb (canTransitionTo m newState) then
    (false, m,
     [Log WARN "StateMachine"
        ("Invalid transition: " ++ SyncState_literal (_state m) ++ " -> "
           ++ SyncState_literal newState)])
  else
    let oldState := _state m in
    let profile1 :=
      match context_profile context with
      | Some p => Some p
      | None => _profile m
      end in
    let error1 :=
      match context_error context with
      | Some e => Some e
      | None => _lastError m
      end in
    let retry1 :=
      if decide (newState = watching) then 0 else _retryCount m in
    let retry2 :=
      if decide (newState = recovering) then S retry1 else retry1 in
    let m' :=
      if decide (newState = idle) then
        {| _state := newState; _profile := None; _lastError := None;
           _retryCount := 0; maxRetries := maxRetries m |}
      else
        {| _state := newState; _profile := profile1; _lastError := error1;
           _retryCount := retry2; maxRetries := maxRetries m |} in
    (true, m',
     [Log INFO "StateMachine"
        ("State: " ++ SyncState_literal oldState ++ " -> "
           ++ SyncState_literal newState);
      StateChanged oldState newState (_profile m')]).

Definition reset (m : SyncStateMachine) : SyncStateMachine * list Effect :=
  let oldState := _state m in
  ({| _state := idle; _profile := None; _lastError := None;
      _retryCount := 0; maxRetries := maxRetries m |},
   if decide (oldState ≠ idle) then [StateChanged oldState idle None] else []).

Definition getAvailableTransitions (m : SyncStateMachine) : list SyncState :=
  VALID_TRANSITIONS (_state m).

(** The three parts of what [transition] yields. *)
Definition accepted (r : bool * SyncStateMachine * list Effect) : bool := r.1.1.

Definition machineAfter (r : bool * SyncStateMachine * list Effect) : SyncStateMachine :=
  r.1.2.

(** The two ways the machine enters a state: a [transition] that is
    accepted, and [reset], which enters [idle]. *)
Inductive enters (m : SyncStateMachine) : SyncState -> SyncStateMachine -> Prop :=
  | enters_by_transition (t : SyncState) (context : option Context) :
      accepted (transition m t context) = true ->
      enters m t (machineAfter (transition m t context))
  | enters_by_reset : enters m idle (reset m).1.

(** The legal-transition table as the specification words it. *)
Definition legal (s t : SyncState) : Prop :=
  match s with
  | idle => t = initializing
  | initializing => t = connecting \/ t = error \/ t = idle
  | connecting => t = watching \/ t = error \/ t = idle
  | watching => t = syncing \/ t = error \/ t = idle
  | syncing => t = watching \/ t = error
  | error => t = recovering \/ t = idle
  | recovering => t = watching \/ t = error \/ t = idle
  end.

End StateMachine.

Import StateMachine.

Module Strategy.

(** *** domain/services/strategies and domain/services/SyncService.ts *)

Import Job.

(** The two classes that implement [ISyncStrategy]. *)
Inductive ISyncStrategy := IncrementalSyncStrategy | FullSyncStrategy.

#[global] Instance ISyncStrategy_eq_dec : EqDecision ISyncStrategy.
Proof. solve_decision. Defined.

Definition name (s : ISyncStrategy) : string :=
  match s with
  | IncrementalSyncStrategy => "incremental"
  | FullSyncStrategy => "full"
  end.

Definition canHandle (s : ISyncStrategy) (job : SyncJob) : bool :=
  match s with
  | IncrementalSyncStrategy =>
      bool_decide (0 < length (job_files job))
      && bool_decide (job_strategy job = incremental)
  | FullSyncStrategy =>
      bool_decide (length (job_files job) = 0)
      || bool_decide (job_strategy job = full)
  end.

(** [execute] up to its call of [rsyncClient.sync]: what is logged and
    the job handed to the client, whose promise [execute] returns. *)
Definition execute (s : ISyncStrategy) (job : SyncJob) : list Effect :=
  let fullRequest :=
    {| rs_id := job_id job; rs_profile := job_profile job;
       rs_files := []; rs_strategy := full |} in
  match s with
  | IncrementalSyncStrategy =>
      if decide (length (job_files job) = 0) then
        [Log WARN "IncrementalSync" "No files specified, falling back to full sync";
         RsyncClientSync fullRequest]
      else
        [Log INFO "IncrementalSync"
           ("Syncing " ++ pretty (length (job_files job)) ++ " files for "
              ++ alias (job_profile job));
         RsyncClientSync
           {| rs_id := job_id job; rs_profile := job_profile job;
              rs_files := job_files job; rs_strategy := incremental |}]
  | FullSyncStrategy =>
      [Log INFO "FullSync" ("Starting full sync for " ++ alias (job_profile job));
       RsyncClientSync fullRequest]
  end.

(** [SyncService.strategies], in order of preference. *)
Definition strategies : list ISyncStrategy :=
  [IncrementalSyncStrategy; FullSyncStrategy].

(** The [for ... of] loop of [selectStrategy]: the first strategy of
    the list that accepts the job, if any. *)
Fixpoint firstCanHandle (l : list ISyncStrategy) (job : SyncJob) : option ISyncStrategy :=
  match l with
  | [] => None
  | strategy :: rest =>
      if canHandle strategy job then Some strategy else firstCanHandle rest job
  end.

(** [selectStrategy]: the loop, then the fallback
    [this.strategies[this.strategies.length - 1]]. *)
Definition selectStrategy (job : SyncJob) : ISyncStrategy :=
  match firstCanHandle strategies job with
  | Some strategy => strategy
  | None => default FullSyncStrategy (last strategies)
  end.

Definition createFullSyncJob (now : Date) (id : string) (profile : Profile) : SyncJob :=
  Job.new now id profile None (Some full).

Definition createIncrementalSyncJob (now : Date) (id : string) (profile : Profile)
    (files : list string) : SyncJob :=
  Job.new now id profile (Some files) (Some incremental).

End Strategy.

Module Builder.

(** *** core/utils/PathUtils.ts and infrastructure/sync/RsyncCommandBuilder.ts *)

(** [String.prototype.endsWith]. *)
Definition endsWith (s suffix : string) : bool :=
  bool_decide (String.length suffix <= String.length s)
  && String.eqb
       (String.substring (String.length s - String.length suffix) (String.length suffix) s)
       suffix.

(** [Array.prototype.push] with its arguments as a list. *)
Definition push (args items : list string) : list string :=
  (args ++ items)%list.

Section WithSeparator.

(** [path.sep] of the platform the extension runs on. *)
Variable sep : string.

Definition ensureTrailingSlash (inputPath : string) : string :=
  if endsWith inputPath sep then inputPath else inputPath ++ sep.

(** The [for ... of profile.exclude] loop pushing onto [args]. *)
Fixpoint pushExcludes (args : list string) (patterns : list string) : list string :=
  match patterns with
  | [] => args
  | pattern :: rest => pushExcludes (push args ["--exclude"; pattern]) rest
  end.

Definition buildBaseArgs (profile : Profile) : list string :=
  let args := ["-a"; "-z"] in
  let args :=
    push args
      ["-e";
       "ssh -p " ++ pretty (sshPort profile)
         ++ " -o StrictHostKeyChecking=accept-new"] in
  pushExcludes args (exclude profile).

Definition buildRemoteDestination (profile : Profile) : string :=
  let remoteDir := ensureTrailingSlash (remoteDir profile) in
  remoteUser profile ++ "@" ++ remoteHost profile ++ ":" ++ remoteDir.

Definition buildFullSync (profile : Profile) : SpawnArgs :=
  let args := buildBaseArgs profile in
  let args := push args ["--delete"] in
  let source := ensureTrailingSlash (localDir profile) in
  let dest := buildRemoteDestination profile in
  let args := push args [source] in
  let args := push args [dest] in
  {| command := "rsync"; args := args; cwd := None |}.

Definition buildIncrementalSync (profile : Profile) (files : list string) : SpawnArgs :=
  if decide (length files = 0) then buildFullSync profile
  else
    let args := buildBaseArgs profile in
    let args := push args ["--files-from=-"] in
    let source := ensureTrailingSlash (localDir profile) in
    let dest := buildRemoteDestination profile in
    let args := push args [source] in
    let args := push args [dest] in
    {| command := "rsync"; args := args; cwd := Some (localDir profile) |}.

Definition buildDryRun (profile : Profile) : SpawnArgs :=
  let args := buildBaseArgs profile in
  let args := push args ["--dry-run"] in
  let args := push args ["--delete"] in
  let args := push args ["-v"] in
  let source := ensureTrailingSlash (localDir profile) in
  let dest := buildRemoteDestination profile in
  let args := push args [source] in
  let args := push args [dest] in
  {| command := "rsync"; args := args; cwd := None |}.

End WithSeparator.

(** The extension drives [inotifywait], so it runs on Linux, where
    Node's [path.sep] is the forward slash. *)
Definition posix_sep : string := "/".

(** The [--exclude] argument pairs of an argument vector: the patterns
    that directly follow an [--exclude]. *)
Fixpoint excludePairs (args : list string) : list string :=
  match args with
  | flag :: ((pattern :: _) as rest) =>
      if decide (flag = "--exclude") then pattern :: excludePairs rest
      else excludePairs rest
  | _ => []
  end.

End Builder.

Module RsyncErrors.

(** *** domain/errors/RsyncError.ts *)

Open Scope Z_scope.

Definition RSYNC_EXIT_CODES (exitCode : Z) : option string :=
  match exitCode with
  | 0 => Some "Success"
  | 1 => Some "Syntax or usage error"
  | 2 => Some "Protocol incompatibility"
  | 3 => Some "Errors selecting input/output files, dirs"
  | 4 => Some "Requested action not supported"
  | 5 => Some "Error starting client-server protocol"
  | 6 => Some "Daemon unable to append to log-file"
  | 10 => Some "Error in socket I/O"
  | 11 => Some "Error in file I/O"
  | 12 => Some "Error in rsync protocol data stream"
  | 13 => Some "Errors with program diagnostics"
  | 14 => Some "Error in IPC code"
  | 20 => Some "Received SIGUSR1 or SIGINT"
  | 21 => Some "Some error returned by waitpid()"
  | 22 => Some "Error allocating core memory buffers"
  | 23 => Some "Partial transfer due to error"
  | 24 => Some "Partial transfer due to vanished source files"
  | 25 => Some "The --max-delete limit stopped deletions"
  | 30 => Some "Timeout in data send/receive"
  | 35 => Some "Timeout waiting for daemon connection"
  | _ => None
  end.

Definition RECOVERABLE_EXIT_CODES : list Z := [12; 23; 24; 30; 35].

Record RsyncError := {
  code : string;
  recoverable : bool;
  exitCode : Z;
  stderr : string;
  message : string
}.

(** [new RsyncError(exitCode, stderr)]. The descriptions of the table
    are all non-empty, so [||] picks the default only for a missing
    entry. *)
Definition new (exitCode : Z) (stderr : string) : RsyncError :=
  let description := default "Unknown error" (RSYNC_EXIT_CODES exitCode) in
  {| code := "RSYNC_ERROR";
     recoverable := bool_decide (exitCode ∈ RECOVERABLE_EXIT_CODES);
     exitCode := exitCode;
     stderr := stderr;
     message :=
       "rsync failed (exit code " ++ pretty exitCode ++ "): " ++ description |}.

End RsyncErrors.

Module Watcher.

(** *** infrastructure/watcher/InotifyWatcher.ts: the aggregator *)

Definition TimerId := nat.

(** A JavaScript [Map<string, FileChangeEvent>]: its entries in
    insertion order, each key once. *)
Definition EventMap := list (string * FileChangeEvent).

(** [Map.prototype.set]: a present key keeps its place and takes the
    new value, a new key goes to the end. *)
Fixpoint map_set (key : string) (value : FileChangeEvent) (m : EventMap) : EventMap :=
  match m with
  | [] => [(key, value)]
  | (k, v) :: rest =>
      if decide (k = key) then (key, value) :: rest
      else (k, v) :: map_set key value rest
  end.

(** [Array.from(map.values())]. *)
Definition map_values (m : EventMap) : list FileChangeEvent := m.*2.

Record InotifyWatcher := {
  process : bool;
  pendingEvents : EventMap;
  debounceTimer : option TimerId;
  w_debounceMs : nat;
  (** the host's side of [setTimeout]/[clearTimeout]: the timeouts
      that are set and have neither fired nor been cleared, and the
      next handle [setTimeout] returns *)
  timeouts : list TimerId;
  nextTimer : TimerId
}.

Definition DEFAULT_DEBOUNCE_MS : nat := 200.

Definition new : InotifyWatcher :=
  {| process := false; pendingEvents := []; debounceTimer := None;
     w_debounceMs := DEFAULT_DEBOUNCE_MS; timeouts := []; nextTimer := 0 |}.

Definition clearTimeout (t : TimerId) (ts : list TimerId) : list TimerId :=
  filter (λ t', t' ≠ t) ts.

Definition queueEvent (event : FileChangeEvent) (w : InotifyWatcher) : InotifyWatcher :=
  let pending := map_set (ev_path event) event (pendingEvents w) in
  let cleared :=
    match debounceTimer w with
    | Some t => clearTimeout t (timeouts w)
    | None => timeouts w
    end in
  let t := nextTimer w in
  {| process := process w;
     pendingEvents := pending;
     debounceTimer := Some t;
     w_debounceMs := w_debounceMs w;
     timeouts := (cleared ++ [t])%list;
     nextTimer := S t |}.

Definition flushEvents (w : InotifyWatcher) : InotifyWatcher * list Effect :=
  if decide (length (pendingEvents w) = 0) then (w, [])
  else
    let events := map_values (pendingEvents w) in
    ({| process := process w;
        pendingEvents := [];
        debounceTimer := debounceTimer w;
        w_debounceMs := w_debounceMs w;
        timeouts := timeouts w;
        nextTimer := nextTimer w |},
     [Log DEBUG "Watcher" ("Flushing " ++ pretty (length events) ++ " events");
      DidChange events]).

(** The host runs the callback of timeout [t], if [t] is still set. *)
Definition timerFires (t : TimerId) (w : InotifyWatcher) : InotifyWatcher * list Effect :=
  if decide (t ∈ timeouts w) then
    flushEvents
      {| process := process w;
         pendingEvents := pendingEvents w;
         debounceTimer := debounceTimer w;
         w_debounceMs := w_debounceMs w;
         timeouts := clearTimeout t (timeouts w);
         nextTimer := nextTimer w |}
  else (w, []).

(** [stop()]: cancel the timer, flush what is pending, end the watch
    process, clear the map. *)
Definition stop (w : InotifyWatcher) : InotifyWatcher * list Effect :=
  let w1 :=
    match debounceTimer w with
    | Some t =>
        {| process := process w;
           pendingEvents := pendingEvents w;
           debounceTimer := None;
           w_debounceMs := w_debounceMs w;
           timeouts := clearTimeout t (timeouts w);
           nextTimer := nextTimer w |}
    | None => w
    end in
  let '(w2, fired) := flushEvents w1 in
  ({| process := false;
      pendingEvents := [];
      debounceTimer := debounceTimer w2;
      w_debounceMs := w_debounceMs w2;
      timeouts := timeouts w2;
      nextTimer := nextTimer w2 |},
   (fired ++ (if process w2 then [Log INFO "Watcher" "Stopping inotifywait"] else []))%list).

(** The accepted events of one quiet window, queued one after the
    other with no timeout firing in between. *)
Definition queueAll (events : list FileChangeEvent) (w : InotifyWatcher) : InotifyWatcher :=
  foldl (λ w event, queueEvent event w) w events.

(** The last event of [events] on [path]. *)
Definition lastFor (path : string) (events : list FileChangeEvent) : option FileChangeEvent :=
  last (filter (λ e, ev_path e = path) events).

(** The map after the events were [set] into it one by one. *)
Definition setAll (events : list FileChangeEvent) (m : EventMap) : EventMap :=
  foldl (λ m event, map_set (ev_path event) event m) m events.

(** What holds of the map of every watcher: a key occurs once, and an
    event is filed under its own path. *)
Definition wellFormed (m : EventMap) : Prop :=
  NoDup m.*1 ∧ Forall (λ entry, ev_path entry.2 = entry.1) m.

#[global] Instance wellFormed_dec (m : EventMap) : Decision (wellFormed m).
Proof. unfold wellFormed. apply _. Defined.

(** The batches fired on [onDidChange], in order. *)
Definition batches (said : list Effect) : list (list FileChangeEvent) :=
  omap (λ e, match e with DidChange events => Some events | _ => None end) said.

(** The events of a batch on one path. *)
Definition onPath (path : string) (events : list FileChangeEvent) : list FileChangeEvent :=
  filter (λ e, ev_path e = path) events.

End Watcher.

Module Credentials.

(** *** infrastructure/credentials/CredentialManager.ts *)

Definition SECRET_KEY_PREFIX : string := "watchSync.password".

(** What the operator does with the two dialogs: the text submitted
    in the input box and the item picked in the quick pick, each
    [None] when the dialog is dismissed ([undefined]). *)
Record Operator := {
  submits : option string;
  picks : option string
}.

(** The calls made on the editor window, the secret storage and the
    logger, in order. *)
Inductive Interaction :=
  | ShowInputBox (prompt placeHolder : string)
  | ShowQuickPick (items : list string) (placeHolder : string)
  | SecretStore (key value : string)
  | Logged (level : LogLevel) (category message : string).

(** [vscode.SecretStorage] *)
Abbreviation SecretStorage := (gmap string string).

Definition getSecretKey (host user : string) : string :=
  SECRET_KEY_PREFIX ++ "." ++ user ++ "@" ++ host.

Definition getPassword (host user : string) (secretStorage : SecretStorage)
    : option string * list Interaction :=
  let key := getSecretKey host user in
  let password := secretStorage !! key in
  (password,
   match password with
   | Some p =>
       if decide (p = "") then []
       else [Logged DEBUG "Credentials"
               ("Retrieved stored password for " ++ user ++ "@" ++ host)]
   | None => []
   end).

Definition setPassword (host user password : string) (secretStorage : SecretStorage)
    : SecretStorage * list Interaction :=
  let key := getSecretKey host user in
  (<[key := password]> secretStorage,
   [SecretStore key password;
    Logged INFO "Credentials" ("Stored password for " ++ user ++ "@" ++ host)]).

Definition promptForPassword (operator : Operator) (host user : string)
    (secretStorage : SecretStorage)
    : option string * SecretStorage * list Interaction :=
  let shown :=
    ShowInputBox ("Enter SSH password for " ++ user ++ "@" ++ host) "SSH password" in
  match submits operator with
  | None =>
      (None, secretStorage,
       [shown; Logged INFO "Credentials" "Password prompt cancelled by user"])
  | Some password =>
      if decide (password = "") then (Some password, secretStorage, [shown])
      else
        let asked :=
          ShowQuickPick ["Yes, save password"; "No, use only this time"]
            "Save password for future sessions?" in
        if decide (picks operator = Some "Yes, save password") then
          let '(stored, said) := setPassword host user password secretStorage in
          (Some password, stored, (shown :: asked :: said))
        else (Some password, secretStorage, [shown; asked])
  end.

Definition getOrPromptPassword (operator : Operator) (host user : string)
    (secretStorage : SecretStorage)
    : option string * SecretStorage * list Interaction :=
  let '(stored, said) := getPassword host user secretStorage in
  match stored with
  | Some p =>
      if decide (p = "") then
        let '(r, st, said') := promptForPassword operator host user secretStorage in
        (r, st, (said ++ said')%list)
      else (Some p, secretStorage, said)
  | None =>
      let '(r, st, said') := promptForPassword operator host user secretStorage in
      (r, st, (said ++ said')%list)
  end.

(** Whether the offer to save the password was put to the operator. *)
Definition offeredToSave (said : list Interaction) : bool :=
  existsb (λ i, match i with ShowQuickPick _ _ => true | _ => false end) said.

(** Whether anything was written to the secret storage. *)
Definition wroteSecret (said : list Interaction) : bool :=
  existsb (λ i, match i with SecretStore _ _ => true | _ => false end) said.

End Credentials.

Module Orchestrator.

(** *** application/SyncOrchestrator.ts

    An [async] method is cut at the [await] where it hands a job to
    the rsync client: the part before it ([..._begin]) and the part
    that runs when the transfer settles ([..._resume]). [start], [stop]
    and [start_resume] below are these methods run in one piece, with
    nothing else happening at their other awaits (watcher, validator,
    tool lookup, connection test), whose answers come from the
    environment; [Interleaving] cuts them at every await. *)

Import Job Strategy.

Definition RECOVERY_DELAY_MS : nat := 5000.

Definition TimerId := nat.

(** Which method awaits a transfer. *)
Inductive Awaiter :=
  | AwaitedByStart (profile : Profile)
  | AwaitedByHandler.

Record SyncOrchestrator := {
  stateMachine : SyncStateMachine;
  (** whether [this.watcherSubscription] is set; it holds the listener
      that [startWatcher] registered last on the watcher's
      [onDidChange] *)
  watcherSubscription : bool;
  recoveryTimeout : option TimerId;
  (** the host's timeouts that are set and have neither fired nor been
      cleared, and the next handle [setTimeout] returns *)
  timeouts : list TimerId;
  nextTimer : TimerId;
  (** the jobs inside [syncService.sync] whose transfer has not
      settled yet, newest first *)
  inFlight : list (SyncJob * Awaiter)
}.

Definition new : SyncOrchestrator :=
  {| stateMachine := StateMachine.new None;
     watcherSubscription := false;
     recoveryTimeout := None;
     timeouts := [];
     nextTimer := 0;
     inFlight := [] |}.

Definition withMachine (m : SyncStateMachine) (o : SyncOrchestrator) : SyncOrchestrator :=
  {| stateMachine := m;
     watcherSubscription := watcherSubscription o;
     recoveryTimeout := recoveryTimeout o;
     timeouts := timeouts o;
     nextTimer := nextTimer o;
     inFlight := inFlight o |}.

Definition withInFlight (jobs : list (SyncJob * Awaiter)) (o : SyncOrchestrator)
    : SyncOrchestrator :=
  {| stateMachine := stateMachine o;
     watcherSubscription := watcherSubscription o;
     recoveryTimeout := recoveryTimeout o;
     timeouts := timeouts o;
     nextTimer := nextTimer o;
     inFlight := jobs |}.

(** [this.stateMachine.transition(newState, context)], its boolean
    result dropped as every call site does. *)
Definition transitionTo (newState : SyncState) (context : option Context)
    (o : SyncOrchestrator) : SyncOrchestrator * list Effect :=
  let '(_, m, said) := transition (stateMachine o) newState context in
  (withMachine m o, said).

Definition clearRecoveryTimeout (o : SyncOrchestrator) : SyncOrchestrator :=
  match recoveryTimeout o with
  | Some t =>
      {| stateMachine := stateMachine o;
         watcherSubscription := watcherSubscription o;
         recoveryTimeout := None;
         timeouts := filter (λ t', t' ≠ t) (timeouts o);
         nextTimer := nextTimer o;
         inFlight := inFlight o |}
  | None => o
  end.

Definition scheduleRecovery (o : SyncOrchestrator) : SyncOrchestrator * list Effect :=
  let o := clearRecoveryTimeout o in
  let said1 :=
    [Log INFO "Orchestrator"
       ("Scheduling recovery (attempt "
          ++ pretty (_retryCount (stateMachine o) + 1) ++ ")")] in
  let '(o, said2) := transitionTo recovering None o in
  let t := nextTimer o in
  ({| stateMachine := stateMachine o;
      watcherSubscription := watcherSubscription o;
      recoveryTimeout := Some t;
      timeouts := (timeouts o ++ [t])%list;
      nextTimer := S t;
      inFlight := inFlight o |},
   (said1 ++ said2)%list).

(** The callback of the recovery timeout. Nothing in its [try] block
    throws, so its [catch] never runs. *)
Definition recoveryCallback (o : SyncOrchestrator) : SyncOrchestrator * list Effect :=
  match _profile (stateMachine o) with
  | Some _ =>
      let '(o, said) := transitionTo watching None o in
      (o, (said ++ [Log INFO "Orchestrator" "Recovery successful"])%list)
  | None => (o, [])
  end.

(** The host runs the callback of timeout [t], if [t] is still set. *)
Definition recoveryTimerFires (t : TimerId) (o : SyncOrchestrator)
    : SyncOrchestrator * list Effect :=
  if decide (t ∈ timeouts o) then
    recoveryCallback
      {| stateMachine := stateMachine o;
         watcherSubscription := watcherSubscription o;
         recoveryTimeout := recoveryTimeout o;
         timeouts := filter (λ t', t' ≠ t) (timeouts o);
         nextTimer := nextTimer o;
         inFlight := inFlight o |}
  else (o, []).

(** [SyncService.sync] up to the await of [strategy.execute]: the job
    is started and handed to the rsync client. [job.start()] stands
    before the [try], so its error rejects the call. *)
Definition sync_begin (now : Date) (job : SyncJob) : Outcome SyncJob * list Effect :=
  let strategy := selectStrategy job in
  let said :=
    [Log INFO "SyncService"
       ("Using " ++ name strategy ++ " strategy for job " ++ job_id job)] in
  match Job.start now job with
  | (Threw message, _) => (Threw message, said)
  | (Returned _, job) => (Returned job, (said ++ execute strategy job)%list)
  end.

(** How the transfer settles: the client's promise resolves with a
    result or rejects with an error. *)
Inductive Settled :=
  | Resolved (result : SyncResult)
  | Rejected (message : string).

(** The [catch] block of [SyncService.sync]. *)
Definition sync_catch (now : Date) (message : string) (job : SyncJob)
    : Outcome SyncResult * SyncJob :=
  match Job.fail now message job with
  | (Threw message', job) => (Threw message', job)
  | (Returned _, job) =>
      (Returned {| success := false;
                   jobId := job_id job;
                   res_filesTransferred := 0;
                   res_bytesTransferred := 0;
                   res_duration := Job.duration now job;
                   errors := [message] |},
       job)
  end.

(** [SyncService.sync] from the point where the transfer settles. *)
Definition sync_resume (now : Date) (settled : Settled) (job : SyncJob)
    : Outcome SyncResult * SyncJob :=
  match settled with
  | Resolved result =>
      let '(outcome, job) :=
        if success result then
          Job.complete now (res_filesTransferred result) (res_bytesTransferred result) job
        else Job.fail now (join "; " (errors result)) job in
      match outcome with
      | Returned _ => (Returned result, job)
      | Threw message => sync_catch now message job
      end
  | Rejected message => sync_catch now message job
  end.

(** The [catch] block of [handleFileChanges]. *)
Definition handleFileChanges_catch (message : string) (o : SyncOrchestrator)
    : SyncOrchestrator * list Effect :=
  let said1 := [Log ERROR "Orchestrator" ("Sync failed: " ++ message)] in
  let '(o, said2) :=
    transitionTo error
      (Some {| ctx_profile := None; ctx_error := Some message |}) o in
  if canRetry (stateMachine o) then
    let '(o, said3) := scheduleRecovery o in
    (o, (said1 ++ said2 ++ said3)%list)
  else
    (o,
     (said1 ++ said2 ++
      [ErrorEvent
         ("Sync failed after " ++ pretty (_retryCount (stateMachine o))
            ++ " retries: " ++ message)
         false])%list).

(** [handleFileChanges(events)] up to [await this.syncService.sync(job)];
    [jobId] is what [SyncJob.generateId()] returns, [now] the clock. *)
Definition handleFileChanges (events : list FileChangeEvent) (jobId : string)
    (now : Date) (o : SyncOrchestrator) : SyncOrchestrator * list Effect :=
  if decide (_state (stateMachine o) ≠ watching) then (o, [])
  else
    let files := map ev_path events in
    let said1 := [FilesChanged files] in
    let '(o, said2) := transitionTo syncing None o in
    match _profile (stateMachine o) with
    | None =>
        let '(o, said3) := handleFileChanges_catch "No active profile" o in
        (o, (said1 ++ said2 ++ said3)%list)
    | Some profile =>
        let job := createIncrementalSyncJob now jobId profile files in
        let said3 := [SyncStarted job] in
        match sync_begin now job with
        | (Returned job, said4) =>
            (withInFlight ((job, AwaitedByHandler) :: inFlight o) o,
             (said1 ++ said2 ++ said3 ++ said4)%list)
        | (Threw message, said4) =>
            let '(o, said5) := handleFileChanges_catch message o in
            (o, (said1 ++ said2 ++ said3 ++ said4 ++ said5)%list)
        end
    end.

(** [handleFileChanges] from the point where its transfer settles. *)
Definition handleFileChanges_resume (now : Date) (settled : Settled) (job : SyncJob)
    (o : SyncOrchestrator) : SyncOrchestrator * list Effect :=
  match sync_resume now settled job with
  | (Returned result, job) =>
      if success result then
        let '(o, said) := transitionTo watching None o in
        (o, (SyncCompleted job result :: said))
      else
        let message := join "; " (errors result) in
        let '(o, said) := handleFileChanges_catch message o in
        (o, (SyncFailed job message :: said))
  | (Threw message, _) => handleFileChanges_catch message o
  end.

Definition stop (o : SyncOrchestrator) : SyncOrchestrator * list Effect :=
  let o := clearRecoveryTimeout o in
  let '(m, said) := reset (stateMachine o) in
  ({| stateMachine := m;
      watcherSubscription := false;
      recoveryTimeout := recoveryTimeout o;
      timeouts := timeouts o;
      nextTimer := nextTimer o;
      inFlight := inFlight o |},
   ([Log INFO "Orchestrator" "Stopping"; WatcherStop] ++ said
      ++ [Log INFO "Orchestrator" "Stopped"])%list).

Record ValidationResult := {
  valid : bool;
  v_errors : list string
}.

Record ConnectionResult := {
  conn_success : bool;
  conn_error : option string
}.

(** What the collaborators answer during [start]. *)
Record StartEnv := {
  validation : ValidationResult;
  rsyncAvailable : bool;
  inotifyAvailable : bool;
  connectionResult : ConnectionResult
}.

(** The [catch] block of [start]; the error is thrown on. *)
Definition start_catch (message : string) (o : SyncOrchestrator)
    : SyncOrchestrator * list Effect :=
  let '(o, said) :=
    transitionTo error
      (Some {| ctx_profile := None; ctx_error := Some message |}) o in
  (o,
   ([Log ERROR "Orchestrator" ("Start failed: " ++ message)] ++ said
      ++ [ErrorEvent message true])%list).

(** The [try] block of [start] up to [await this.syncService.sync]:
    the first error thrown, or the started job. *)
Definition start_try (profile : Profile) (env : StartEnv) (jobId : string)
    (now : Date) (o : SyncOrchestrator)
    : Outcome SyncJob * SyncOrchestrator * list Effect :=
  if negb (valid (validation env)) then
    (Threw (join "; " (v_errors (validation env))), o, [])
  else if negb (rsyncAvailable env) then
    (Threw "rsync is not installed", o, [])
  else if negb (inotifyAvailable env) then
    (Threw "inotifywait is not installed (install inotify-tools)", o, [])
  else
    let '(o, said1) := transitionTo connecting None o in
    if negb (conn_success (connectionResult env)) then
      (Threw ("SSH connection failed: "
                ++ default "undefined" (conn_error (connectionResult env))),
       o, said1)
    else
      let job := createFullSyncJob now jobId profile in
      let '(started, said2) := sync_begin now job in
      (started, o, (said1 ++ [SyncStarted job] ++ said2)%list).

(** [start(profile)] up to the await of the initial full sync. It
    returns [Threw] when [start] rejects before that. *)
Definition start (profile : Profile) (env : StartEnv) (jobId : string) (now : Date)
    (o : SyncOrchestrator) : Outcome unit * SyncOrchestrator * list Effect :=
  let '(o, said0) :=
    if isActive (stateMachine o) || bool_decide (_state (stateMachine o) = error)
    then stop o else (o, []) in
  let said1 :=
    [Log INFO "Orchestrator" ("Starting with profile: " ++ alias profile)] in
  let '(o, said2) :=
    transitionTo initializing
      (Some {| ctx_profile := Some profile; ctx_error := None |}) o in
  match start_try profile env jobId now o with
  | (Returned job, o, said3) =>
      (Returned (),
       withInFlight ((job, AwaitedByStart profile) :: inFlight o) o,
       (said0 ++ said1 ++ said2 ++ said3)%list)
  | (Threw message, o, said3) =>
      let '(o, said4) := start_catch message o in
      (Threw message, o, (said0 ++ said1 ++ said2 ++ said3 ++ said4)%list)
  end.

(** [start] from the point where the initial full sync settles; the
    watcher's own [start] is taken to succeed. *)
Definition start_resume (now : Date) (settled : Settled) (job : SyncJob)
    (profile : Profile) (o : SyncOrchestrator)
    : Outcome unit * SyncOrchestrator * list Effect :=
  match sync_resume now settled job with
  | (Returned result, job) =>
      if success result then
        let '(o, said) := transitionTo watching None o in
        (Returned (),
         {| stateMachine := stateMachine o;
            watcherSubscription := true;
            recoveryTimeout := recoveryTimeout o;
            timeouts := timeouts o;
            nextTimer := nextTimer o;
            inFlight := inFlight o |},
         ([SyncCompleted job result] ++ said
            ++ [WatcherStart {| targetPath := localDir profile;
                                excludePatterns := exclude profile;
                                debounceMs := 200 |};
                Log INFO "Orchestrator" "Watch sync started successfully"])%list)
      else
        let message := "Initial sync failed: " ++ join "; " (errors result) in
        let '(o, said) := start_catch message o in
        (Threw message, o, said)
  | (Threw message, _) =>
      let '(o, said) := start_catch message o in
      (Threw message, o, said)
  end.

(** What can happen to the orchestrator: the watcher delivers a
    batch, the transfer of the [i]-th job in flight settles, a
    recovery timeout comes due, or the operator's commands call
    [stop()] or [start(profile)], each call run in one piece. *)
Inductive Input :=
  | ChangeBatch (events : list FileChangeEvent) (jobId : string) (now : Date)
  | TransferSettles (i : nat) (settled : Settled) (now : Date)
  | RecoveryTimerFires (t : TimerId)
  | StopCalled
  | StartCalled (profile : Profile) (env : StartEnv) (jobId : string) (now : Date).

Definition step (input : Input) (o : SyncOrchestrator) : SyncOrchestrator * list Effect :=
  match input with
  | ChangeBatch events jobId now =>
      if watcherSubscription o then handleFileChanges events jobId now o
      else (o, [])
  | TransferSettles i settled now =>
      match inFlight o !! i with
      | None => (o, [])
      | Some (job, awaiter) =>
          let o := withInFlight (base.delete i (inFlight o)) o in
          match awaiter with
          | AwaitedByHandler => handleFileChanges_resume now settled job o
          | AwaitedByStart profile =>
              let '(_, o, said) := start_resume now settled job profile o in
              (o, said)
          end
      end
  | RecoveryTimerFires t => recoveryTimerFires t o
  | StopCalled => stop o
  | StartCalled profile env jobId now =>
      let '(_, o, said) := start profile env jobId now o in
      (o, said)
  end.

Fixpoint run (inputs : list Input) (o : SyncOrchestrator) : SyncOrchestrator * list Effect :=
  match inputs with
  | [] => (o, [])
  | input :: rest =>
      let '(o, said1) := step input o in
      let '(o, said2) := run rest o in
      (o, (said1 ++ said2)%list)
  end.

(** The jobs in flight: started ([running]) and not yet settled. *)
Definition jobsInFlight (o : SyncOrchestrator) : list SyncJob :=
  (inFlight o).*1.

(** Whether a list of effects creates a sync job or starts a
    transfer. *)
Definition startsWork (said : list Effect) : bool :=
  existsb
    (λ e, match e with
          | SyncStarted _ | RsyncClientSync _ => true
          | _ => false
          end)
    said.

End Orchestrator.

(** ** Sample data *)

Module Samples.

(** The profile of the specification's command-builder example; the
    fields the example leaves open are arguments. *)
Definition deployProfile (alias : string) (sshPort : N) (direction : SyncDirection)
    (conflictPolicy : ConflictPolicy) : Profile :=
  {| alias := alias;
     remoteUser := "deploy";
     remoteHost := "prod.example.com";
     remoteDir := "/var/www/app";
     localDir := "/local/path";
     sshPort := sshPort;
     direction := direction;
     conflictPolicy := conflictPolicy;
     exclude := [".git"; "node_modules"] |}.

Definition profile : Profile := deployProfile "prod" 22 localToRemote localWins.

(** A machine that has failed once while initializing. *)
Definition failedMachine : SyncStateMachine :=
  {| _state := error; _profile := Some profile; _lastError := Some "boom";
     _retryCount := 0; maxRetries := 3 |}.

Definition modified (path : string) (at_ : Date) : FileChangeEvent :=
  {| ev_type := modify; ev_path := path; ev_timestamp := at_; ev_oldPath := None |}.

Definition created (path : string) (at_ : Date) : FileChangeEvent :=
  {| ev_type := create; ev_path := path; ev_timestamp := at_; ev_oldPath := None |}.

(** Three events of one quiet window, two of them on the same path. *)
Definition windowEvents : list FileChangeEvent :=
  [created "/local/path/a.txt" 1%N;
   modified "/local/path/b.txt" 2%N;
   modified "/local/path/a.txt" 3%N].

(** An incremental job for one changed file. *)
Definition oneFileJob : Job.SyncJob :=
  Strategy.createIncrementalSyncJob 0%N "sync_1" profile ["/local/path/a.txt"].

Definition allGood : Orchestrator.StartEnv :=
  {| Orchestrator.validation :=
       {| Orchestrator.valid := true; Orchestrator.v_errors := [] |};
     Orchestrator.rsyncAvailable := true;
     Orchestrator.inotifyAvailable := true;
     Orchestrator.connectionResult :=
       {| Orchestrator.conn_success := true; Orchestrator.conn_error := None |} |}.

Definition transferred (id : string) : SyncResult :=
  {| success := true; jobId := id; res_filesTransferred := 1;
     res_bytesTransferred := 10; res_duration := 5%Z; errors := [] |}.

(** The orchestrator once [start(profile)] has gone through: the
    initial full sync done, the machine in [watching], the watcher
    subscribed. *)
Definition watchingOrchestrator : Orchestrator.SyncOrchestrator :=
  (Orchestrator.run
     [Orchestrator.StartCalled profile allGood "sync_1" 1%N;
      Orchestrator.TransferSettles 0 (Orchestrator.Resolved (transferred "sync_1")) 2%N]
     Orchestrator.new).1.

(** A restart while a transfer runs: a batch starts an incremental
    job, then the operator starts the profile again. *)
Definition restartDuringSync : list Orchestrator.Input :=
  [Orchestrator.StartCalled profile allGood "sync_1" 1%N;
   Orchestrator.TransferSettles 0 (Orchestrator.Resolved (transferred "sync_1")) 2%N;
   Orchestrator.ChangeBatch [modified "/local/path/a.txt" 3%N] "sync_2" 3%N;
   Orchestrator.StartCalled profile allGood "sync_3" 4%N].

Definition failedTransfer (id : string) : SyncResult :=
  {| success := false; jobId := id; res_filesTransferred := 0;
     res_bytesTransferred := 0; res_duration := 5%Z; errors := ["connection reset"] |}.

(** A stop while a transfer runs: the transfer then fails and arms a
    recovery timeout that a later [start] does not cancel; it comes due
    during a later sync and puts the machine back in [watching]. *)
Definition stopDuringSync : list Orchestrator.Input :=
  [Orchestrator.StartCalled profile allGood "sync_1" 1%N;
   Orchestrator.TransferSettles 0 (Orchestrator.Resolved (transferred "sync_1")) 2%N;
   Orchestrator.ChangeBatch [modified "/local/path/a.txt" 3%N] "sync_2" 3%N;
   Orchestrator.StopCalled;
   Orchestrator.TransferSettles 0 (Orchestrator.Resolved (failedTransfer "sync_2")) 4%N;
   Orchestrator.StartCalled profile allGood "sync_3" 5%N;
   Orchestrator.TransferSettles 0 (Orchestrator.Resolved (transferred "sync_3")) 6%N;
   Orchestrator.ChangeBatch [modified "/local/path/a.txt" 7%N] "sync_4" 7%N;
   Orchestrator.RecoveryTimerFires 0;
   Orchestrator.ChangeBatch [modified "/local/path/b.txt" 8%N] "sync_5" 8%N].

End Samples.

(** ** Sequences of calls on the state machine *)

Module MachineRuns.

(** The two calls that change the machine. *)
Inductive Call :=
  | CallTransition (newState : SyncState) (context : option Context)
  | CallReset.

Definition call (c : Call) (m : SyncStateMachine) : SyncStateMachine * list Effect :=
  match c with
  | CallTransition newState context =>
      (machineAfter (transition m newState context), (transition m newState context).2)
  | CallReset => reset m
  end.

Fixpoint callAll (calls : list Call) (m : SyncStateMachine)
    : SyncStateMachine * list Effect :=
  match calls with
  | [] => (m, [])
  | c :: rest =>
      let '(m, said1) := call c m in
      let '(m, said2) := callAll rest m in
      (m, (said1 ++ said2)%list)
  end.

(** The state changes an observer of the event bus sees. *)
Definition stateChanges (said : list Effect) : list (SyncState * SyncState) :=
  omap (λ e, match e with
             | StateChanged oldState newState _ => Some (oldState, newState)
             | _ => None
             end) said.

(** Following the observed changes from a known state: the state they
    lead to, if each change starts where the one before ended. *)
Fixpoint follow (s : SyncState) (changes : list (SyncState * SyncState))
    : option SyncState :=
  match changes with
  | [] => Some s
  | (oldState, newState) :: rest =>
      if decide (oldState = s) then follow newState rest else None
  end.

(** The entries into [recovering] among the observed changes that came
    after the last entry into [watching] or [idle], on top of [count]. *)
Definition recoveriesSince (count : nat) (changes : list (SyncState * SyncState)) : nat :=
  foldl
    (λ n change,
       if decide (change.2 = watching ∨ change.2 = idle) then 0
       else if decide (change.2 = recovering) then S n
       else n)
    count changes.

(** What every machine built by [new] and changed by [transition] and
    [reset] satisfies. *)
Definition settled (m : SyncStateMachine) : Prop :=
  (_state m <> error -> _state m <> recovering -> _retryCount m = 0) /\
  (_state m = idle -> _profile m = None /\ _lastError m = None).

End MachineRuns.

(** ** Sequences of lifecycle calls on a job *)

Module JobRuns.

Import Job.

(** The calls of a sequence, each with the time it is made at; the
    outcomes come back in the same order. *)
Fixpoint callAll (calls : list (Date * Call)) (j : SyncJob)
    : list (Outcome unit) * SyncJob :=
  match calls with
  | [] => ([], j)
  | (now, c) :: rest =>
      let '(outcome, j) := call now c j in
      let '(outcomes, j) := callAll rest j in
      (outcome :: outcomes, j)
  end.

Definition threw (outcome : Outcome unit) : bool :=
  match outcome with
  | Threw _ => true
  | Returned _ => false
  end.

Definition terminal (s : SyncJobStatus) : bool :=
  match s with
  | completed | failed => true
  | pending | running => false
  end.

(** How the lifecycle fields go with the status. *)
Definition consistent (j : SyncJob) : Prop :=
  match _status j with
  | pending =>
      _startedAt j = None /\ _completedAt j = None /\ _error j = None /\
      _filesTransferred j = 0 /\ _bytesTransferred j = 0
  | running =>
      is_Some (_startedAt j) /\ _completedAt j = None /\ _error j = None /\
      _filesTransferred j = 0 /\ _bytesTransferred j = 0
  | completed =>
      is_Some (_startedAt j) /\ is_Some (_completedAt j) /\ _error j = None
  | failed =>
      is_Some (_startedAt j) /\ is_Some (_completedAt j) /\ is_Some (_error j) /\
      _filesTransferred j = 0 /\ _bytesTransferred j = 0
  end.

End JobRuns.

(** ** More of core/utils/PathUtils.ts, and the shape of a command *)

Module Paths.

Import Builder.

(** [inputPath.slice(0, -1)]: all but the last character. *)
Definition dropLast (s : string) : string :=
  String.substring 0 (String.length s - 1) s.

Definition removeTrailingSlash (sep inputPath : string) : string :=
  if endsWith inputPath sep then dropLast inputPath else inputPath.

(** One [--exclude] pair per pattern, in the order of the patterns. *)
Definition excludeArgs (patterns : list string) : list string :=
  patterns ≫= λ pattern, ["--exclude"; pattern].

(** The remote-shell argument that follows [-e]. *)
Definition remoteShell (profile : Profile) : string :=
  "ssh -p " ++ pretty (sshPort profile) ++ " -o StrictHostKeyChecking=accept-new".

(** The options every command starts with. *)
Definition commonOptions (profile : Profile) : list string :=
  (["-a"; "-z"; "-e"; remoteShell profile] ++ excludeArgs (exclude profile))%list.

(** The two arguments every command ends with. *)
Definition endpoints (sep : string) (profile : Profile) : list string :=
  [ensureTrailingSlash sep (localDir profile);
   remoteUser profile ++ "@" ++ remoteHost profile ++ ":"
     ++ ensureTrailingSlash sep (remoteDir profile)].

End Paths.

(** ** infrastructure/sync/RsyncClient.ts: what is run for a job *)

Module Client.

Import Job Builder.

(** The jobs handed to the rsync client among the effects. *)
Definition rsyncRequests (said : list Effect) : list RsyncSyncJob :=
  omap (λ e, match e with RsyncClientSync job => Some job | _ => None end) said.

(** The branch of [RsyncClient.sync] and the command built in
    [executeIncrementalSync] or [executeFullSync]. *)
Definition commandFor (sep : string) (job : RsyncSyncJob) : SpawnArgs :=
  if bool_decide (rs_strategy job = incremental) && bool_decide (0 < length (rs_files job))
  then buildIncrementalSync sep (rs_profile job) (rs_files job)
  else buildFullSync sep (rs_profile job).

#[local] Open Scope Z_scope.

(** [getExitCodeMeaning]: [meanings[code] || null]; every text of the
    table is non-empty. *)
Definition getExitCodeMeaning (code : Z) : option string :=
  match code with
  | 1 => Some "Syntax or usage error"
  | 2 => Some "Protocol incompatibility"
  | 3 => Some "Errors selecting input/output files"
  | 4 => Some "Requested action not supported"
  | 5 => Some "Error starting client-server protocol"
  | 10 => Some "Error in socket I/O"
  | 11 => Some "Error in file I/O"
  | 12 => Some "Error in rsync protocol data stream"
  | 13 => Some "Errors with program diagnostics"
  | 14 => Some "Error in IPC code"
  | 20 => Some "Received SIGUSR1 or SIGINT"
  | 21 => Some "Some error returned by waitpid()"
  | 22 => Some "Error allocating core memory buffers"
  | 23 => Some "Partial transfer due to error"
  | 24 => Some "Partial transfer due to vanished source files"
  | 25 => Some "The --max-delete limit stopped deletions"
  | 30 => Some "Timeout in data send/receive"
  | 35 => Some "Timeout waiting for daemon connection"
  | _ => None
  end.

(** [parseErrors(stderr, exitCode)], given [stderr.trim()]. *)
Definition parseErrors (trimmedStderr : string) (exitCode : Z) : list string :=
  let errors := if decide (trimmedStderr = "") then [] else [trimmedStderr] in
  match getExitCodeMeaning exitCode with
  | Some meaning => (errors ++ [meaning])%list
  | None => errors
  end.

End Client.

(** ** Runs of the watcher *)

Module WatcherRuns.

Import Watcher.

(** *** infrastructure/watcher/InotifyWatcher.ts: [start] and [stop]

    [stop()] awaits the end of the watch process, and [start()] awaits
    [stop()] when a process is set; lines of the process, timeouts and
    further calls arrive during these awaits. Each call is cut at its
    await into the part that runs at once and the part that runs when
    the kill is over. [ProcessUtils.killProcess] never rejects. *)

(** [stop()] up to the check of [this.process]: the countdown is
    cancelled and what is pending is flushed. *)
Definition stop_begin (w : InotifyWatcher) : InotifyWatcher * list Effect :=
  let w1 :=
    match debounceTimer w with
    | Some t =>
        {| process := process w;
           pendingEvents := pendingEvents w;
           debounceTimer := None;
           w_debounceMs := w_debounceMs w;
           timeouts := clearTimeout t (timeouts w);
           nextTimer := nextTimer w |}
    | None => w
    end in
  flushEvents w1.

(** The end of [stop()]: [this.process = null] after the kill, and
    [this.pendingEvents.clear()]. *)
Definition stop_end (w : InotifyWatcher) : InotifyWatcher :=
  {| process := false;
     pendingEvents := [];
     debounceTimer := debounceTimer w;
     w_debounceMs := w_debounceMs w;
     timeouts := timeouts w;
     nextTimer := nextTimer w |}.

(** [start(config)] from the point where no process is in its way:
    [config.debounceMs || DEFAULT_DEBOUNCE_MS], and the process is
    spawned. *)
Definition start_spawn (config : WatchConfig) (w : InotifyWatcher)
    : InotifyWatcher * list Effect :=
  ({| process := true;
      pendingEvents := pendingEvents w;
      debounceTimer := debounceTimer w;
      w_debounceMs :=
        if decide (debounceMs config = 0) then DEFAULT_DEBOUNCE_MS else debounceMs config;
      timeouts := timeouts w;
      nextTimer := nextTimer w |},
   [Log INFO "Watcher" ("Starting inotifywait on " ++ targetPath config);
    Log DEBUG "Watcher" ("Exclude patterns: " ++ join ", " (excludePatterns config))]).

(** A call that awaits [ProcessUtils.killProcess]: a [stop()] of its
    own, or the [stop()] that [start(config)] awaits. *)
Inductive Awaiting :=
  | StopAwaitsKill
  | StartAwaitsKill (config : WatchConfig).

(** The watcher with the calls that are suspended on it, oldest
    first. *)
Record Running := {
  watcher : InotifyWatcher;
  awaiting : list Awaiting
}.

(** What can happen to a watcher: [start(config)] or [stop()] is
    called, the [i]-th awaited kill is over, the process ends by itself
    (its [close] or [error] event), an accepted line of the process is
    queued, a timeout comes due. *)
Inductive Input :=
  | StartCalled (config : WatchConfig)
  | StopCalled
  | KillSettles (i : nat)
  | ProcessEnds
  | Queued (event : FileChangeEvent)
  | TimeoutDue (t : TimerId).

Definition withWatcher (w : InotifyWatcher) (r : Running) : Running :=
  {| watcher := w; awaiting := awaiting r |}.

(** [stop()] up to its await, if it has one. *)
Definition stop_called (call : Awaiting) (r : Running) : Running * list Effect :=
  let '(w, fired) := stop_begin (watcher r) in
  if process w then
    ({| watcher := w; awaiting := (awaiting r ++ [call])%list |},
     (fired ++ [Log INFO "Watcher" "Stopping inotifywait"])%list)
  else
    ({| watcher := stop_end w; awaiting := awaiting r |}, fired).

Definition step (input : Input) (r : Running) : Running * list Effect :=
  match input with
  | StartCalled config =>
      if process (watcher r) then stop_called (StartAwaitsKill config) r
      else
        let '(w, said) := start_spawn config (watcher r) in
        (withWatcher w r, said)
  | StopCalled => stop_called StopAwaitsKill r
  | KillSettles i =>
      match awaiting r !! i with
      | None => (r, [])
      | Some call =>
          let stopped :=
            {| watcher := stop_end (watcher r); awaiting := base.delete i (awaiting r) |} in
          match call with
          | StopAwaitsKill => (stopped, [])
          | StartAwaitsKill config =>
              let '(w, said) := start_spawn config (watcher stopped) in
              (withWatcher w stopped, said)
          end
      end
  | ProcessEnds =>
      (withWatcher
         {| process := false;
            pendingEvents := pendingEvents (watcher r);
            debounceTimer := debounceTimer (watcher r);
            w_debounceMs := w_debounceMs (watcher r);
            timeouts := timeouts (watcher r);
            nextTimer := nextTimer (watcher r) |} r,
       [])
  | Queued event => (withWatcher (queueEvent event (watcher r)) r, [])
  | TimeoutDue t =>
      let '(w, fired) := timerFires t (watcher r) in
      (withWatcher w r, fired)
  end.

Fixpoint runFrom (inputs : list Input) (r : Running) : Running * list Effect :=
  match inputs with
  | [] => (r, [])
  | input :: rest =>
      let '(r, said1) := step input r in
      let '(r, said2) := runFrom rest r in
      (r, (said1 ++ said2)%list)
  end.

(** A run of a watcher on which no call is suspended. *)
Definition run (inputs : list Input) (w : InotifyWatcher) : Running * list Effect :=
  runFrom inputs {| watcher := w; awaiting := [] |}.

(** The runs in which no line is queued while a kill is awaited. *)
Fixpoint quietKills (inputs : list Input) (r : Running) : bool :=
  match inputs with
  | [] => true
  | input :: rest =>
      match input with
      | Queued _ => bool_decide (awaiting r = [])
      | _ => true
      end
      && quietKills rest (step input r).1
  end.

(** The debounce discipline: the map is well formed, at most one
    timeout is pending, which is the one stored in [debounceTimer], and
    one is pending whenever events are pending. *)
Definition debounced (w : InotifyWatcher) : Prop :=
  wellFormed (pendingEvents w) /\
  (timeouts w = [] \/ exists t, timeouts w = [t] /\ debounceTimer w = Some t) /\
  (pendingEvents w <> [] -> timeouts w <> []).

(** What holds in addition when no line arrives during a kill: no
    timeout is pending during a kill, or without events pending. *)
Definition idleWhenEmpty (r : Running) : Prop :=
  (awaiting r <> [] -> timeouts (watcher r) = []) /\
  (pendingEvents (watcher r) = [] -> timeouts (watcher r) = []).

(** The distinct elements of a list, each at its first occurrence. *)
Fixpoint firstOccurrences (paths : list string) : list string :=
  match paths with
  | [] => []
  | path :: rest => path :: filter (λ p, p ≠ path) (firstOccurrences rest)
  end.

(** A batch as the handler may rely on it: not empty, no path twice. *)
Definition properBatch (events : list FileChangeEvent) : Prop :=
  events <> [] /\ NoDup (ev_path <$> events).

End WatcherRuns.

(** ** More of infrastructure/credentials/CredentialManager.ts *)

Module CredentialStore.

Import Credentials.

(** [deletePassword]: the key is removed from the secret storage. *)
Definition deletePassword (host user : string) (secretStorage : gmap string string)
    : gmap string string * list Interaction :=
  let key := getSecretKey host user in
  (base.delete key secretStorage,
   [Logged INFO "Credentials" ("Deleted password for " ++ user ++ "@" ++ host)]).

(** [hasPassword]: [(await this.getPassword(host, user)) !== null]. *)
Definition hasPassword (host user : string) (secretStorage : gmap string string) : bool :=
  bool_decide ((getPassword host user secretStorage).1 ≠ None).

(** Whether a dialog was put to the operator. *)
Definition showedDialog (said : list Interaction) : bool :=
  existsb (λ i, match i with
                | ShowInputBox _ _ | ShowQuickPick _ _ => true
                | _ => false
                end) said.

(** Whether the character [@] occurs in a string. *)
Fixpoint hasAt (s : string) : bool :=
  match s with
  | EmptyString => false
  | String c rest => bool_decide (String c "" = "@") || hasAt rest
  end.

End CredentialStore.

(** ** infrastructure/config/VSCodeConfigProvider.ts: the profile list *)

Module Config.

(** The profiles as the settings hold them, in order. *)
Abbreviation Profiles := (list Profile).

(** [profiles.findIndex(p => p.alias === alias)], [None] for -1. *)
Fixpoint findIndex (wanted : string) (profiles : Profiles) : option nat :=
  match profiles with
  | [] => None
  | p :: rest =>
      if decide (alias p = wanted) then Some 0 else S <$> findIndex wanted rest
  end.

(** [getProfile]: [profiles.find(p => p.alias === alias)]. *)
Fixpoint getProfile (wanted : string) (profiles : Profiles) : option Profile :=
  match profiles with
  | [] => None
  | p :: rest => if decide (alias p = wanted) then Some p else getProfile wanted rest
  end.

(** [addProfile]: the first profile of that alias is replaced in its
    place, a new alias is appended; the list is then written back. *)
Definition addProfile (profile : Profile) (profiles : Profiles) : Profiles * list Effect :=
  match findIndex (alias profile) profiles with
  | Some existingIndex =>
      (<[existingIndex := profile]> profiles,
       [Log INFO "Config" ("Updated profile: " ++ alias profile)])
  | None =>
      ((profiles ++ [profile])%list,
       [Log INFO "Config" ("Added new profile: " ++ alias profile)])
  end.

(** [deleteProfile]: [false] and nothing written when no profile has the
    alias; else the first one is spliced out. *)
Definition deleteProfile (wanted : string) (profiles : Profiles)
    : bool * Profiles * list Effect :=
  match findIndex wanted profiles with
  | None => (false, profiles, [])
  | Some index =>
      (true, base.delete index profiles,
       [Log INFO "Config" ("Deleted profile: " ++ wanted)])
  end.

End Config.

(** ** What a session shows to its observers *)

Module Sessions.

Import Job Orchestrator.

(** The effects of a run without the log lines, a job shown by its id. *)
Inductive Milestone :=
  | Changed (oldState newState : SyncState)
  | Files (files : list string)
  | Started (id : string) (strategy : SyncStrategy) (files : list string)
  | Transfer (request : RsyncSyncJob)
  | Completed (id : string)
  | Failed (id reason : string)
  | Reported (message : string) (recoverable : bool)
  | WatcherStarted (config : WatchConfig)
  | WatcherStopped.

Definition milestone (e : Effect) : option Milestone :=
  match e with
  | Log _ _ _ => None
  | StateChanged oldState newState _ => Some (Changed oldState newState)
  | SyncStarted job => Some (Started (job_id job) (job_strategy job) (job_files job))
  | SyncCompleted job _ => Some (Completed (job_id job))
  | SyncFailed job reason => Some (Failed (job_id job) reason)
  | FilesChanged files => Some (Files files)
  | ErrorEvent message recoverable => Some (Reported message recoverable)
  | RsyncClientSync request => Some (Transfer request)
  | WatcherStart config => Some (WatcherStarted config)
  | WatcherStop => Some WatcherStopped
  | DidChange _ => None
  end.

Definition milestones (said : list Effect) : list Milestone := omap milestone said.

(** Whether the retry budget was reported as used up: an error event
    flagged as not recoverable. *)
Definition reportedExhausted (said : list Effect) : bool :=
  existsb (λ e, match e with ErrorEvent _ false => true | _ => false end) said.

(** Whether every check of [start] passes. *)
Definition allClear (env : StartEnv) : bool :=
  valid (validation env) && rsyncAvailable env && inotifyAvailable env
  && conn_success (connectionResult env).

(** The request by which a full sync of a profile reaches the client. *)
Definition fullRequest (id : string) (profile : Profile) : RsyncSyncJob :=
  {| rs_id := id; rs_profile := profile; rs_files := []; rs_strategy := full |}.

(** The request for the changed paths of a batch. *)
Definition batchRequest (id : string) (profile : Profile) (paths : list string)
    : RsyncSyncJob :=
  match paths with
  | [] => fullRequest id profile
  | _ :: _ =>
      {| rs_id := id; rs_profile := profile; rs_files := paths;
         rs_strategy := incremental |}
  end.

(** The orchestrator changes its machine by [transition] and [reset]
    only. *)
Definition evolves (m m' : SyncStateMachine) : Prop :=
  exists calls, m' = (MachineRuns.callAll calls m).1.

End Sessions.

(** ** domain/entities/FileEvent.ts *)

Module FileEvents.

(** [s.includes(needle)]. *)
Fixpoint includes (s needle : string) : bool :=
  String.prefix needle s ||
  match s with
  | EmptyString => false
  | String _ rest => includes rest needle
  end.

Record FileEvent := {
  fe_type : FileChangeType;
  fe_path : string;
  fe_timestamp : Date;
  fe_oldPath : option string
}.

(** The constructor: [params.timestamp ?? new Date()], with [now] what
    [new Date()] returns. *)
Definition new (now : Date) (type : FileChangeType) (path : string)
    (timestamp : option Date) (oldPath : option string) : FileEvent :=
  {| fe_type := type;
     fe_path := path;
     fe_timestamp := default now timestamp;
     fe_oldPath := oldPath |}.

Definition isMove (e : FileEvent) : bool :=
  bool_decide (fe_type e = move) && bool_decide (fe_oldPath e ≠ None).

Definition isCreate (e : FileEvent) : bool := bool_decide (fe_type e = create).

Definition isModify (e : FileEvent) : bool := bool_decide (fe_type e = modify).

Definition isDelete (e : FileEvent) : bool := bool_decide (fe_type e = delete).

(** [if (this.isMove() && this.oldPath)]: an empty old path is falsy. *)
Definition getAffectedPaths (e : FileEvent) : list string :=
  match fe_oldPath e with
  | Some oldPath =>
      if isMove e && negb (bool_decide (oldPath = ""))
      then [fe_path e; oldPath]
      else [fe_path e]
  | None => [fe_path e]
  end.

Section FromInotify.

(** [String.prototype.toLowerCase] of the runtime. *)
Variable toLowerCase : string -> string.

Definition mapInotifyType (eventType : string) : option FileChangeType :=
  let lower := toLowerCase eventType in
  if includes lower "close_write" || includes lower "modify" then Some modify
  else if includes lower "create" then Some create
  else if includes lower "delete" then Some delete
  else if includes lower "move" then Some move
  else None.

(** [mapInotifyType] never returns a falsy value other than [null]. *)
Definition fromInotifyEvent (now : Date) (eventType path : string) : option FileEvent :=
  match mapInotifyType eventType with
  | None => None
  | Some type => Some (new now type path None None)
  end.

End FromInotify.

End FileEvents.

(** ** The orchestrator, await by await *)

Module Interleaving.

(** *** application/SyncOrchestrator.ts: [start] and [stop] cut at
    every await

    [start()] awaits [stop()], the validator, the two tool lookups, the
    connection test, the initial sync and the watcher's [start];
    [stop()] awaits the watcher's [stop]. While a call is suspended at
    one of them the watcher delivers batches, transfers settle,
    recovery timeouts come due and further calls are made. Here every
    call is cut at each of these awaits; the part that follows an await
    runs when the awaited promise is fulfilled. A continuation that
    only waits for another [async] method of the orchestrator to
    return ([start] for [stop], [checkPrerequisites] or [startWatcher])
    runs in the same turn of the event loop as that return and is run
    with it. The awaited collaborators catch their own errors (the
    [PathUtils] checks of the validator, [ProcessUtils.commandExists],
    [SSHClient.testConnection], [ProcessUtils.killProcess] in the
    watcher's [stop]), so every awaited promise is fulfilled; the
    watcher's [start] is taken to succeed, as in [start_resume]. *)

Import Job Strategy Orchestrator.

(** A call of [start(profile)] or [stop()] suspended at an await. *)
Inductive Suspended :=
  (** [stop()] at [await this.watcher.stop()]; [caller] is the
      [start(profile)] that awaits this [stop()], if any *)
  | StopAwaitsWatcher (caller : option Profile)
  (** [start] at [await this.validator.validate(...)] *)
  | StartAwaitsValidation (profile : Profile)
  (** [start], in [checkPrerequisites], at
      [await ProcessUtils.commandExists('rsync')] *)
  | StartAwaitsRsync (profile : Profile)
  (** and at [await ProcessUtils.commandExists('inotifywait')] *)
  | StartAwaitsInotify (profile : Profile)
  (** [start] at [await this.sshClient.testConnection(sshConfig)] *)
  | StartAwaitsConnection (profile : Profile)
  (** [start], in [startWatcher], at
      [await this.watcher.start(watchConfig)] *)
  | StartAwaitsWatcher (profile : Profile).

(** What an awaited promise is fulfilled with; with the connection
    result come what [SyncJob.generateId()] and the clock return when
    [start] goes on. *)
Inductive Answer :=
  | Fulfilled
  | Validated (validation : ValidationResult)
  | CommandExists (found : bool)
  | ConnectionTested (result : ConnectionResult) (jobId : string) (now : Date).

Record Session := {
  orchestrator : SyncOrchestrator;
  (** the listeners registered by [startWatcher] on the watcher's
      [onDidChange] and not disposed; [watcherSubscription] holds the
      latest one only *)
  listeners : nat;
  (** the suspended calls, oldest first; the calls that await a
      transfer are in [inFlight] *)
  suspended : list Suspended
}.

Definition new : Session :=
  {| orchestrator := Orchestrator.new; listeners := 0; suspended := [] |}.

Definition withOrchestrator (o : SyncOrchestrator) (s : Session) : Session :=
  {| orchestrator := o; listeners := listeners s; suspended := suspended s |}.

Definition suspend (call : Suspended) (s : Session) : Session :=
  {| orchestrator := orchestrator s;
     listeners := listeners s;
     suspended := (suspended s ++ [call])%list |}.

(** [stop()] up to [await this.watcher.stop()]. *)
Definition stop_begin (o : SyncOrchestrator) : SyncOrchestrator * list Effect :=
  let o := clearRecoveryTimeout o in
  ({| stateMachine := stateMachine o;
      watcherSubscription := false;
      recoveryTimeout := recoveryTimeout o;
      timeouts := timeouts o;
      nextTimer := nextTimer o;
      inFlight := inFlight o |},
   [Log INFO "Orchestrator" "Stopping"; WatcherStop]).

(** [stop()] from there on. *)
Definition stop_resume (o : SyncOrchestrator) : SyncOrchestrator * list Effect :=
  let '(m, said) := reset (stateMachine o) in
  (withMachine m o, (said ++ [Log INFO "Orchestrator" "Stopped"])%list).

(** A call of [stop()], by the operator or by [start(profile)]: the
    listener held in [watcherSubscription] is disposed. *)
Definition stop_called (caller : option Profile) (s : Session) : Session * list Effect :=
  let '(o, said) := stop_begin (orchestrator s) in
  ({| orchestrator := o;
      listeners :=
        if watcherSubscription (orchestrator s) then pred (listeners s) else listeners s;
      suspended := (suspended s ++ [StopAwaitsWatcher caller])%list |},
   said).

(** [start(profile)] from its log line up to the await of the
    validator. *)
Definition start_initialize (profile : Profile) (s : Session) : Session * list Effect :=
  let '(o, said) :=
    transitionTo initializing
      (Some {| ctx_profile := Some profile; ctx_error := None |}) (orchestrator s) in
  (suspend (StartAwaitsValidation profile) (withOrchestrator o s),
   (Log INFO "Orchestrator" ("Starting with profile: " ++ alias profile) :: said)).

Definition start_called (profile : Profile) (s : Session) : Session * list Effect :=
  if isActive (stateMachine (orchestrator s))
     || bool_decide (_state (stateMachine (orchestrator s)) = error)
  then stop_called (Some profile) s
  else start_initialize profile s.

(** An error thrown in the [try] block of [start]: its [catch] block
    runs and the call ends. *)
Definition start_fails (message : string) (s : Session) : Session * list Effect :=
  let '(o, said) := start_catch message (orchestrator s) in
  (withOrchestrator o s, said).

(** [start] from the point where the initial full sync settles, up to
    the await of the watcher's [start]. *)
Definition start_settled (now : Date) (settled : Settled) (job : SyncJob)
    (profile : Profile) (s : Session) : Session * list Effect :=
  match sync_resume now settled job with
  | (Returned result, job) =>
      if success result then
        let '(o, said) := transitionTo watching None (orchestrator s) in
        (suspend (StartAwaitsWatcher profile) (withOrchestrator o s),
         ([SyncCompleted job result] ++ said
            ++ [WatcherStart {| targetPath := localDir profile;
                                excludePatterns := exclude profile;
                                debounceMs := 200 |}])%list)
      else start_fails ("Initial sync failed: " ++ join "; " (errors result)) s
  | (Threw message, _) => start_fails message s
  end.

(** The suspended call [call], taken off the list, goes on with
    [answer]; [None] when the answer is not one of the promise the call
    awaits. *)
Definition resume (call : Suspended) (answer : Answer) (s : Session)
    : option (Session * list Effect) :=
  match call, answer with
  | StopAwaitsWatcher caller, Fulfilled =>
      let '(o, said1) := stop_resume (orchestrator s) in
      match caller with
      | None => Some (withOrchestrator o s, said1)
      | Some profile =>
          let '(s, said2) := start_initialize profile (withOrchestrator o s) in
          Some (s, (said1 ++ said2)%list)
      end
  | StartAwaitsValidation profile, Validated validation =>
      if valid validation then Some (suspend (StartAwaitsRsync profile) s, [])
      else Some (start_fails (join "; " (v_errors validation)) s)
  | StartAwaitsRsync profile, CommandExists found =>
      if found then Some (suspend (StartAwaitsInotify profile) s, [])
      else Some (start_fails "rsync is not installed" s)
  | StartAwaitsInotify profile, CommandExists found =>
      if found then
        let '(o, said) := transitionTo connecting None (orchestrator s) in
        Some (suspend (StartAwaitsConnection profile) (withOrchestrator o s), said)
      else
        Some (start_fails "inotifywait is not installed (install inotify-tools)" s)
  | StartAwaitsConnection profile, ConnectionTested result jobId now =>
      if conn_success result then
        let job := createFullSyncJob now jobId profile in
        match sync_begin now job with
        | (Returned started, said) =>
            Some (withOrchestrator
                    (withInFlight
                       ((started, AwaitedByStart profile) :: inFlight (orchestrator s))
                       (orchestrator s)) s,
                  (SyncStarted job :: said))
        | (Threw message, said) =>
            let '(s, said') := start_fails message s in
            Some (s, (SyncStarted job :: said ++ said')%list)
        end
      else
        Some (start_fails
                ("SSH connection failed: " ++ default "undefined" (conn_error result)) s)
  | StartAwaitsWatcher profile, Fulfilled =>
      Some ({| orchestrator :=
                 {| stateMachine := stateMachine (orchestrator s);
                    watcherSubscription := true;
                    recoveryTimeout := recoveryTimeout (orchestrator s);
                    timeouts := timeouts (orchestrator s);
                    nextTimer := nextTimer (orchestrator s);
                    inFlight := inFlight (orchestrator s) |};
               listeners := S (listeners s);
               suspended := suspended s |},
            [Log INFO "Orchestrator" "Watch sync started successfully"])
  | _, _ => None
  end.

(** A batch fired by the watcher: every listener calls
    [handleFileChanges(events)]. Only a call that passes the guard
    draws an id, and it leaves the machine outside [watching], so that
    one id is enough. *)
Fixpoint deliver (listeners : nat) (events : list FileChangeEvent) (jobId : string)
    (now : Date) (o : SyncOrchestrator) : SyncOrchestrator * list Effect :=
  match listeners with
  | 0 => (o, [])
  | S listeners =>
      let '(o, said1) := handleFileChanges events jobId now o in
      let '(o, said2) := deliver listeners events jobId now o in
      (o, (said1 ++ said2)%list)
  end.

(** What can happen in a session: the watcher fires a batch, the
    transfer of the [i]-th job in flight settles, a recovery timeout
    comes due, the operator calls [stop()] or [start(profile)], the
    promise awaited by the [i]-th suspended call is fulfilled. *)
Inductive Input :=
  | BatchArrives (events : list FileChangeEvent) (jobId : string) (now : Date)
  | TransferEnds (i : nat) (settled : Settled) (now : Date)
  | RecoveryDue (t : TimerId)
  | StopIsCalled
  | StartIsCalled (profile : Profile)
  | AwaitEnds (i : nat) (answer : Answer).

Definition react (input : Input) (s : Session) : Session * list Effect :=
  match input with
  | BatchArrives events jobId now =>
      let '(o, said) := deliver (listeners s) events jobId now (orchestrator s) in
      (withOrchestrator o s, said)
  | TransferEnds i settled now =>
      match inFlight (orchestrator s) !! i with
      | None => (s, [])
      | Some (job, awaiter) =>
          let o :=
            withInFlight (base.delete i (inFlight (orchestrator s))) (orchestrator s) in
          match awaiter with
          | AwaitedByHandler =>
              let '(o, said) := handleFileChanges_resume now settled job o in
              (withOrchestrator o s, said)
          | AwaitedByStart profile =>
              start_settled now settled job profile (withOrchestrator o s)
          end
      end
  | RecoveryDue t =>
      let '(o, said) := recoveryTimerFires t (orchestrator s) in
      (withOrchestrator o s, said)
  | StopIsCalled => stop_called None s
  | StartIsCalled profile => start_called profile s
  | AwaitEnds i answer =>
      match suspended s !! i with
      | None => (s, [])
      | Some call =>
          default (s, [])
            (resume call answer
               {| orchestrator := orchestrator s;
                  listeners := listeners s;
                  suspended := base.delete i (suspended s) |})
      end
  end.

Fixpoint reactAll (inputs : list Input) (s : Session) : Session * list Effect :=
  match inputs with
  | [] => (s, [])
  | input :: rest =>
      let '(s, said1) := react input s in
      let '(s, said2) := reactAll rest s in
      (s, (said1 ++ said2)%list)
  end.

(** The operator's commands among the inputs. *)
Definition isCall (input : Input) : bool :=
  match input with
  | StopIsCalled | StartIsCalled _ => true
  | BatchArrives _ _ _ | TransferEnds _ _ _ | RecoveryDue _ | AwaitEnds _ _ => false
  end.

(** No job is in flight and no call of [start] or [stop] is still
    running. *)
Definition atRest (s : Session) : bool :=
  bool_decide (inFlight (orchestrator s) = []) && bool_decide (suspended s = []).

(** The runs in which the operator calls [stop()] and [start(profile)]
    only at rest. *)
Fixpoint callsAtRest (inputs : list Input) (s : Session) : bool :=
  match inputs with
  | [] => true
  | input :: rest =>
      (if isCall input then atRest s else true)
      && callsAtRest rest (react input s).1
  end.

(** The runs in which the operator calls [stop()] and [start(profile)]
    only while no job is in flight, a call that is still running or
    not. *)
Fixpoint callsBetweenJobs (inputs : list Input) (s : Session) : bool :=
  match inputs with
  | [] => true
  | input :: rest =>
      (if isCall input then bool_decide (inFlight (orchestrator s) = []) else true)
      && callsBetweenJobs rest (react input s).1
  end.

(** The inputs of a [stop()] and of a [start(profile)] that run with
    nothing else in between, on a session without a suspended call; an
    answer that the call does not wait for is passed over. *)
Definition stopCall : list Input := [StopIsCalled; AwaitEnds 0 Fulfilled].

Definition startCall (profile : Profile) (env : StartEnv) (jobId : string) (now : Date)
    : list Input :=
  [StartIsCalled profile;
   AwaitEnds 0 Fulfilled;
   AwaitEnds 0 (Validated (validation env));
   AwaitEnds 0 (CommandExists (rsyncAvailable env));
   AwaitEnds 0 (CommandExists (inotifyAvailable env));
   AwaitEnds 0 (ConnectionTested (connectionResult env) jobId now)].

(** What holds of the orchestrator while no call is suspended and
    [start] awaits no transfer: nothing is in flight and no recovery is
    pending, with no listener left on an idle machine; or one job,
    awaited by the change handler, is in flight and the machine is in
    [syncing]; or a recovery is pending and the machine is in
    [recovering]. *)
Definition handling (o : SyncOrchestrator) : Prop :=
  (inFlight o = [] /\ timeouts o = [] /\
   (_state (stateMachine o) = idle -> watcherSubscription o = false)) \/
  (exists job, inFlight o = [(job, AwaitedByHandler)] /\
               _state (stateMachine o) = syncing /\ timeouts o = []) \/
  (inFlight o = [] /\
   exists t, timeouts o = [t] /\ recoveryTimeout o = Some t /\
             _state (stateMachine o) = recovering).

(** The state in which a suspended call of [start] has left the
    machine, when nothing else has run since. *)
Definition leftIn (call : Suspended) (state : SyncState) : Prop :=
  match call with
  | StopAwaitsWatcher _ => True
  | StartAwaitsValidation _ | StartAwaitsRsync _ | StartAwaitsInotify _ =>
      state = initializing
  | StartAwaitsConnection _ => state = connecting
  | StartAwaitsWatcher _ => state = watching
  end.

(** What holds all through a run with the calls made at rest: one
    listener at most, the one held in [watcherSubscription]; and either
    no call is suspended and the orchestrator is [handling], or the
    initial full sync of [start] is the one job in flight, or one call
    is suspended and nothing is in flight, in both of which cases no
    listener is registered and no recovery is pending. *)
Definition serial (s : Session) : Prop :=
  listeners s = (if watcherSubscription (orchestrator s) then 1 else 0) /\
  ((suspended s = [] /\ handling (orchestrator s)) \/
   (suspended s = [] /\
    watcherSubscription (orchestrator s) = false /\
    timeouts (orchestrator s) = [] /\
    _state (stateMachine (orchestrator s)) = connecting /\
    exists job profile, inFlight (orchestrator s) = [(job, AwaitedByStart profile)]) \/
   (watcherSubscription (orchestrator s) = false /\
    timeouts (orchestrator s) = [] /\
    inFlight (orchestrator s) = [] /\
    exists call, suspended s = [call] /\
                 leftIn call (_state (stateMachine (orchestrator s))))).

(** Batches and recovery timeouts, which arrive whenever they do. *)
Definition isNoise (input : Input) : bool :=
  match input with
  | BatchArrives _ _ _ | RecoveryDue _ => true
  | _ => false
  end.

(** With it, the machine's own invariant and the budget of 3 the
    orchestrator builds its machine with. *)
Definition steady (s : Session) : Prop :=
  serial s /\
  MachineRuns.settled (stateMachine (orchestrator s)) /\
  maxRetries (stateMachine (orchestrator s)) = 3.

End Interleaving.

(** ** More sample data *)

Module Cases.

(** The job of [Samples.oneFileJob], started at 1 and completed at 2. *)
Definition completedJob : Job.SyncJob :=
  (Job.complete 2%N 1 10 (Job.start 1%N Samples.oneFileJob).2).2.

(** An operator who types a password and asks to save it, and one who
    dismisses every dialog. *)
Definition savingOperator : Credentials.Operator :=
  {| Credentials.submits := Some "s3cret";
     Credentials.picks := Some "Yes, save password" |}.

Definition absentOperator : Credentials.Operator :=
  {| Credentials.submits := None; Credentials.picks := None |}.

Definition watchConfig : WatchConfig :=
  {| targetPath := "/local/path"; excludePatterns := [".git"]; debounceMs := 200 |}.

(** A line arrives while [stop()] awaits the end of the watch process. *)
Definition lineDuringKill : list WatcherRuns.Input :=
  [WatcherRuns.StartCalled watchConfig;
   WatcherRuns.StopCalled;
   WatcherRuns.Queued (Samples.modified "/local/path/a.txt" 1%N);
   WatcherRuns.KillSettles 0].

(** Two windows and a stop, with no line during the kill. *)
Definition quietStop : list WatcherRuns.Input :=
  [WatcherRuns.StartCalled watchConfig;
   WatcherRuns.Queued (Samples.modified "/local/path/a.txt" 1%N);
   WatcherRuns.TimeoutDue 0;
   WatcherRuns.Queued (Samples.modified "/local/path/b.txt" 2%N);
   WatcherRuns.StopCalled;
   WatcherRuns.KillSettles 0].

(** A session in which the operator's calls wait for one another and
    for the transfers: start, two batches of which the second arrives
    during the sync of the first, a failed sync and its recovery,
    another sync, then stop. *)
Definition patientSession : list Interleaving.Input :=
  [Interleaving.StartIsCalled Samples.profile;
   Interleaving.AwaitEnds 0
     (Interleaving.Validated (Orchestrator.validation Samples.allGood));
   Interleaving.AwaitEnds 0 (Interleaving.CommandExists true);
   Interleaving.AwaitEnds 0 (Interleaving.CommandExists true);
   Interleaving.AwaitEnds 0
     (Interleaving.ConnectionTested (Orchestrator.connectionResult Samples.allGood)
        "sync_1" 1%N);
   Interleaving.TransferEnds 0 (Orchestrator.Resolved (Samples.transferred "sync_1")) 2%N;
   Interleaving.AwaitEnds 0 Interleaving.Fulfilled;
   Interleaving.BatchArrives [Samples.modified "/local/path/a.txt" 3%N] "sync_2" 3%N;
   Interleaving.BatchArrives [Samples.modified "/local/path/b.txt" 4%N] "sync_3" 4%N;
   Interleaving.TransferEnds 0
     (Orchestrator.Resolved (Samples.failedTransfer "sync_2")) 5%N;
   Interleaving.RecoveryDue 0;
   Interleaving.BatchArrives [Samples.modified "/local/path/b.txt" 6%N] "sync_4" 6%N;
   Interleaving.TransferEnds 0 (Orchestrator.Resolved (Samples.transferred "sync_4")) 7%N;
   Interleaving.StopIsCalled;
   Interleaving.AwaitEnds 0 Interleaving.Fulfilled].

(** The part of it up to the first sync: the orchestrator watches. *)
Definition watchingSession : list Interleaving.Input := take 7 patientSession.

(** Two calls of [start(profile)], the second made while the first
    awaits the validator: no job is in flight at either call. *)
Definition overlappingStarts : list Interleaving.Input :=
  [Interleaving.StartIsCalled Samples.profile;
   Interleaving.StartIsCalled Samples.profile;
   Interleaving.AwaitEnds 1 Interleaving.Fulfilled;
   Interleaving.AwaitEnds 0
     (Interleaving.Validated (Orchestrator.validation Samples.allGood));
   Interleaving.AwaitEnds 0
     (Interleaving.Validated (Orchestrator.validation Samples.allGood));
   Interleaving.AwaitEnds 0 (Interleaving.CommandExists true);
   Interleaving.AwaitEnds 0 (Interleaving.CommandExists true);
   Interleaving.AwaitEnds 0 (Interleaving.CommandExists true);
   Interleaving.AwaitEnds 0 (Interleaving.CommandExists true);
   Interleaving.AwaitEnds 0
     (Interleaving.ConnectionTested (Orchestrator.connectionResult Samples.allGood)
        "sync_1" 1%N);
   Interleaving.AwaitEnds 0
     (Interleaving.ConnectionTested (Orchestrator.connectionResult Samples.allGood)
        "sync_2" 2%N)].

(** A [stop()] while a transfer runs, which fails before the watcher has
    stopped. *)
Definition stopDuringSync : list Interleaving.Input :=
  (watchingSession ++
   [Interleaving.BatchArrives [Samples.modified "/local/path/a.txt" 3%N] "sync_2" 3%N;
    Interleaving.StopIsCalled;
    Interleaving.TransferEnds 0
      (Orchestrator.Resolved (Samples.failedTransfer "sync_2")) 4%N;
    Interleaving.AwaitEnds 0 Interleaving.Fulfilled])%list.

End Cases.

(** * Properties *)

(** ** The state machine *)

Lemma canTransitionTo_legal (m : SyncStateMachine) (t : SyncState) :
  canTransitionTo m t = true <-> legal (_state m) t.
Proof.
  unfold canTransitionTo. rewrite bool_decide_eq_true.
  destruct m as [s p e n mx]; simpl.
  destruct s; simpl; rewrite ?elem_of_cons, ?elem_of_nil; tauto.
Qed.

Lemma transition_rejected (m : SyncStateMachine) (t : SyncState) (context : option Context) :
  canTransitionTo m t = false ->
  accepted (transition m t context) = false /\ machineAfter (transition m t context) = m.
Proof.
  intros H. unfold transition. rewrite H. simpl. split; reflexivity.
Qed.

Lemma transition_accepted (m : SyncStateMachine) (t : SyncState) (context : option Context) :
  canTransitionTo m t = true ->
  accepted (transition m t context) = true /\
  _state (machineAfter (transition m t context)) = t.
Proof.
  intros H. unfold transition. rewrite H. simpl. split; [reflexivity|].
  unfold machineAfter; simpl. destruct (decide (t = idle)); simpl; congruence.
Qed.

Lemma accepted_canTransitionTo (m : SyncStateMachine) (t : SyncState) (context : option Context) :
  accepted (transition m t context) = canTransitionTo m t.
Proof.
  destruct (canTransitionTo m t) eqn:H.
  - apply transition_accepted; assumption.
  - apply transition_rejected; assumption.
Qed.

(** [C1] [transition(t)] succeeds exactly on the legal-transition table:
    it returns [true] if and only if [t] is listed for the current state
    (idle: initializing; initializing: connecting, error, idle;
    connecting: watching, error, idle; watching: syncing, error, idle;
    syncing: watching, error; error: recovering, idle; recovering:
    watching, error, idle), and then the state is [t]; for any other [t]
    it returns [false] and leaves the machine (state, profile, lastError,
    retryCount) as it was. In particular, from [idle] a request for
    [watching] fails and the state stays [idle]. *)
Theorem transition_follows_table :
  forall (m : SyncStateMachine) (t : SyncState) (context : option Context),
    (accepted (transition m t context) = true <-> legal (_state m) t) /\
    (if accepted (transition m t context)
     then _state (machineAfter (transition m t context)) = t
     else machineAfter (transition m t context) = m) /\
    (forall profile lastError retryCount maxRetries,
        let resting :=
          {| _state := idle; _profile := profile; _lastError := lastError;
             _retryCount := retryCount; maxRetries := maxRetries |} in
        accepted (transition resting watching context) = false /\
        machineAfter (transition resting watching context) = resting /\
        _state (machineAfter (transition resting watching context)) = idle).
Proof.
  intros m t context. split; [|split].
  - rewrite accepted_canTransitionTo. apply canTransitionTo_legal.
  - destruct (canTransitionTo m t) eqn:H.
    + destruct (transition_accepted m t context H) as [-> ?]. assumption.
    + destruct (transition_rejected m t context H) as [-> ?]. assumption.
  - intros. subst resting. repeat split.
Qed.

(** The start-up chain of the specification: from a new machine,
    initializing, connecting and watching are accepted in turn. *)
Lemma startup_chain_is_accepted (optMax : option nat) :
  let m1 := transition (StateMachine.new optMax) initializing None in
  let m2 := transition (machineAfter m1) connecting None in
  let m3 := transition (machineAfter m2) watching None in
  accepted m1 = true /\ accepted m2 = true /\ accepted m3 = true /\
  _state (machineAfter m3) = watching.
Proof. repeat split. Qed.

(** [C8] After every successful transition into [watching] the retry
    counter is 0; every successful transition into [recovering] raises
    it by exactly 1; and every entry into [idle], by a transition or by
    [reset], clears the active profile and the last error and sets the
    counter to 0. *)
Theorem retry_counter_discipline :
  forall (m m' : SyncStateMachine) (t : SyncState),
    enters m t m' ->
    _state m' = t /\
    (t = watching -> _retryCount m' = 0) /\
    (t = recovering -> _retryCount m' = S (_retryCount m)) /\
    (t = idle -> _profile m' = None /\ _lastError m' = None /\ _retryCount m' = 0).
Proof.
  intros m m' t H. destruct H as [t context Hok|].
  - rewrite accepted_canTransitionTo in Hok.
    destruct (transition_accepted m t context Hok) as [_ Hstate].
    split; [exact Hstate|].
    unfold machineAfter, transition. rewrite Hok. simpl.
    split; [|split]; intros ->; simpl; auto.
  - simpl. split; [reflexivity|]. split; [|split]; first [discriminate | auto].
Qed.

Lemma retry_counter_discipline_witness :
  enters Samples.failedMachine recovering
    (machineAfter (transition Samples.failedMachine recovering None)) /\
  _state (machineAfter (transition Samples.failedMachine recovering None)) = recovering /\
  _retryCount (machineAfter (transition Samples.failedMachine recovering None)) = 1.
Proof.
  assert (He : enters Samples.failedMachine recovering
                 (machineAfter (transition Samples.failedMachine recovering None)))
    by (apply enters_by_transition; reflexivity).
  split; [exact He|].
  destruct (retry_counter_discipline _ _ _ He) as (Hs & _ & Hr & _).
  split; [exact Hs | exact (Hr eq_refl)].
Defined.

(** ** Sync jobs *)

(** The status a lifecycle call requires. *)
Lemma call_throws_iff (now : Date) (c : Job.Call) (j : Job.SyncJob) :
  let required :=
    match c with Job.CallStart => Job.pending | _ => Job.running end in
  match (Job.call now c j).1 with
  | Threw _ => Job._status j <> required /\ (Job.call now c j).2 = j
  | Returned _ =>
      Job._status j = required /\
      Job.status_step (Job._status j) (Job._status (Job.call now c j).2)
  end.
Proof.
  destruct c; simpl; unfold Job.start, Job.complete, Job.fail;
    case_decide as H; simpl.
  all: try (split; [assumption | reflexivity]).
  all: split; [assumption|]; rewrite H; unfold Job.status_step; tauto.
Qed.

(** [C7] A job's status only moves pending -> running -> completed or
    failed: [start()] throws exactly when the job is not [pending],
    [complete()] and [fail()] each throw exactly when it is not
    [running]; a call that throws leaves the job (status and lifecycle
    fields) as it was, and a call that returns moves the status one step
    along that order. *)
Theorem job_lifecycle_is_strict :
  forall (now : Date) (j : Job.SyncJob) (filesTransferred bytesTransferred : nat)
         (error : string),
    match (Job.start now j).1 with
    | Threw _ => Job._status j <> Job.pending /\ (Job.start now j).2 = j
    | Returned _ =>
        Job._status j = Job.pending /\ Job._status (Job.start now j).2 = Job.running
    end /\
    match (Job.complete now filesTransferred bytesTransferred j).1 with
    | Threw _ =>
        Job._status j <> Job.running /\
        (Job.complete now filesTransferred bytesTransferred j).2 = j
    | Returned _ =>
        Job._status j = Job.running /\
        Job._status (Job.complete now filesTransferred bytesTransferred j).2 = Job.completed
    end /\
    match (Job.fail now error j).1 with
    | Threw _ => Job._status j <> Job.running /\ (Job.fail now error j).2 = j
    | Returned _ =>
        Job._status j = Job.running /\ Job._status (Job.fail now error j).2 = Job.failed
    end /\
    (forall c : Job.Call,
        (Job.call now c j).2 = j \/
        Job.status_step (Job._status j) (Job._status (Job.call now c j).2)).
Proof.
  intros now j f b e.
  unfold Job.start, Job.complete, Job.fail.
  repeat split.
  - case_decide as H; simpl; tauto.
  - case_decide as H; simpl; tauto.
  - case_decide as H; simpl; tauto.
  - intros c. pose proof (call_throws_iff now c j) as H. simpl in H.
    destruct (Job.call now c j).1; [right|left]; tauto.
Qed.

(** ** The rsync command builder *)

(** [C4] For the profile localDir "/local/path", remoteUser "deploy",
    remoteHost "prod.example.com", remoteDir "/var/www/app", exclude
    [".git", "node_modules"], the full-sync command contains the flag
    [--delete], one [--exclude] pair for each of the two patterns, the
    source "/local/path/" with its trailing separator, and the
    destination "deploy@prod.example.com:/var/www/app/"; the source and
    the destination are its last two arguments. *)
Theorem full_sync_of_deploy_profile :
  forall (alias : string) (sshPort : N) (direction : SyncDirection)
         (conflictPolicy : ConflictPolicy),
    let profile := Samples.deployProfile alias sshPort direction conflictPolicy in
    let spec := Builder.buildFullSync Builder.posix_sep profile in
    command spec = "rsync" /\
    "--delete" ∈ args spec /\
    Builder.excludePairs (args spec) = [".git"; "node_modules"] /\
    "/local/path/" ∈ args spec /\
    "deploy@prod.example.com:/var/www/app/" ∈ args spec /\
    args spec =
      ["-a"; "-z"; "-e";
       "ssh -p " ++ pretty sshPort ++ " -o StrictHostKeyChecking=accept-new";
       "--exclude"; ".git"; "--exclude"; "node_modules"; "--delete";
       "/local/path/"; "deploy@prod.example.com:/var/www/app/"].
Proof.
  intros alias sshPort direction conflictPolicy profile spec.
  assert (Hargs : args spec =
      ["-a"; "-z"; "-e";
       "ssh -p " ++ pretty sshPort ++ " -o StrictHostKeyChecking=accept-new";
       "--exclude"; ".git"; "--exclude"; "node_modules"; "--delete";
       "/local/path/"; "deploy@prod.example.com:/var/www/app/"])
    by reflexivity.
  split; [reflexivity|].
  rewrite Hargs.
  split; [set_solver|].
  split; [reflexivity|].
  split; [set_solver|].
  split; [set_solver|reflexivity].
Qed.

(** [C5] For every profile, an incremental sync with an empty file list
    builds exactly the command a full sync builds. *)
Theorem incremental_sync_of_no_files_is_full_sync :
  forall (sep : string) (profile : Profile),
    Builder.buildIncrementalSync sep profile [] = Builder.buildFullSync sep profile.
Proof.
  intros sep profile. unfold Builder.buildIncrementalSync.
  case_decide as H; [reflexivity | contradiction H; reflexivity].
Qed.

(** ** Transfer failures *)

(** [C6] The exit codes 23, 24, 30 and 35 are classified recoverable,
    the exit code 1 is classified terminal (not recoverable). *)
Theorem exit_code_classification :
  forall stderr : string,
    RsyncErrors.recoverable (RsyncErrors.new 23 stderr) = true /\
    RsyncErrors.recoverable (RsyncErrors.new 24 stderr) = true /\
    RsyncErrors.recoverable (RsyncErrors.new 30 stderr) = true /\
    RsyncErrors.recoverable (RsyncErrors.new 35 stderr) = true /\
    RsyncErrors.recoverable (RsyncErrors.new 1 stderr) = false.
Proof.
  intros stderr. repeat split.
Qed.

(** ** Strategy selection *)

Lemma canHandle_complementary (job : Job.SyncJob) :
  Strategy.canHandle Strategy.FullSyncStrategy job
  = negb (Strategy.canHandle Strategy.IncrementalSyncStrategy job).
Proof.
  unfold Strategy.canHandle.
  destruct (Job.job_files job) as [|f files]; simpl; [reflexivity|].
  destruct (Job.job_strategy job); reflexivity.
Qed.

(** [C9], as the specification states it, fails: the full-sync strategy
    declines an incremental job that carries files. *)
Lemma full_strategy_declines_job_with_files :
  Strategy.canHandle Strategy.FullSyncStrategy Samples.oneFileJob = false /\
  ~ (forall job : Job.SyncJob, Strategy.canHandle Strategy.FullSyncStrategy job = true).
Proof.
  split; [reflexivity|].
  intros H. specialize (H Samples.oneFileJob). discriminate H.
Qed.

(** [C9], amended: the full-sync strategy declares itself able to handle
    exactly the jobs that carry no files or ask for a full sync, which
    are the jobs the incremental strategy declines; so for every job the
    selector, which tries incremental before full, finds in its loop a
    strategy that declares it can handle the job. *)
Theorem selection_always_finds_a_willing_strategy :
  forall job : Job.SyncJob,
    (Strategy.canHandle Strategy.FullSyncStrategy job = true <->
     Job.job_files job = [] \/ Job.job_strategy job = Job.full) /\
    (Strategy.canHandle Strategy.FullSyncStrategy job = true <->
     Strategy.canHandle Strategy.IncrementalSyncStrategy job = false) /\
    Strategy.firstCanHandle Strategy.strategies job = Some (Strategy.selectStrategy job) /\
    Strategy.canHandle (Strategy.selectStrategy job) job = true /\
    (Strategy.selectStrategy job = Strategy.FullSyncStrategy <->
     Strategy.canHandle Strategy.IncrementalSyncStrategy job = false).
Proof.
  intros job.
  pose proof (canHandle_complementary job) as Hc.
  split; [|split].
  - unfold Strategy.canHandle.
    rewrite orb_true_iff, !bool_decide_eq_true, length_zero_iff_nil. reflexivity.
  - rewrite Hc. destruct (Strategy.canHandle Strategy.IncrementalSyncStrategy job);
      simpl; split; congruence.
  - assert (Hloop : Strategy.firstCanHandle Strategy.strategies job =
                    Some (if Strategy.canHandle Strategy.IncrementalSyncStrategy job
                          then Strategy.IncrementalSyncStrategy
                          else Strategy.FullSyncStrategy)).
    { change (Strategy.firstCanHandle Strategy.strategies job) with
        (if Strategy.canHandle Strategy.IncrementalSyncStrategy job
         then Some Strategy.IncrementalSyncStrategy
         else if Strategy.canHandle Strategy.FullSyncStrategy job
              then Some Strategy.FullSyncStrategy else None).
      rewrite Hc.
      destruct (Strategy.canHandle Strategy.IncrementalSyncStrategy job); reflexivity. }
    unfold Strategy.selectStrategy. rewrite Hloop.
    destruct (Strategy.canHandle Strategy.IncrementalSyncStrategy job) eqn:Hi.
    + repeat split; try assumption; congruence.
    + simpl in Hc. repeat split; assumption.
Qed.

(** ** The credential prompt *)

(** [C10] [promptForPassword] returns null exactly when the operator
    dismisses the prompt; a submitted empty string is returned as it is,
    not as null; and the offer to store the password is put to the
    operator only for a non-empty submission, so an empty submission is
    returned with the secret storage untouched. *)
Theorem prompt_returns_null_only_on_dismissal :
  forall (operator : Credentials.Operator) (host user : string)
         (secretStorage : gmap string string),
    let result := Credentials.promptForPassword operator host user secretStorage in
    (result.1.1 = None <-> Credentials.submits operator = None) /\
    result.1.1 = Credentials.submits operator /\
    (Credentials.offeredToSave result.2 = true <->
     exists password,
       Credentials.submits operator = Some password /\ password <> "") /\
    (forall picked,
        let emptyResult :=
          Credentials.promptForPassword
            {| Credentials.submits := Some ""; Credentials.picks := picked |}
            host user secretStorage in
        emptyResult.1.1 = Some "" /\
        emptyResult.1.2 = secretStorage /\
        Credentials.offeredToSave emptyResult.2 = false /\
        Credentials.wroteSecret emptyResult.2 = false).
Proof.
  intros operator host user secretStorage result. subst result.
  unfold Credentials.promptForPassword.
  destruct operator as [[password|] picked]; simpl.
  - destruct (decide (password = "")) as [->|Hne]; simpl.
    + repeat split; try discriminate.
      intros (p & [= <-] & Hp). contradiction Hp; reflexivity.
    + case_decide; simpl; (split; [split; discriminate|]);
        (split; [reflexivity|]); (split; [|repeat split]);
        (split; [intros _; exists password; split; [reflexivity|assumption] | reflexivity]).
  - repeat split; try discriminate.
    intros (p & Hp & _). discriminate Hp.
Qed.

(** ** The change aggregator *)

Section Aggregator.

Import Watcher.

Implicit Types (m : EventMap) (w : InotifyWatcher) (e : FileChangeEvent).

Lemma map_set_keys key e m x :
  x ∈ (map_set key e m).*1 <-> x ∈ m.*1 \/ x = key.
Proof.
  induction m as [|[k v] rest IH]; simpl.
  - rewrite list_elem_of_singleton, elem_of_nil. tauto.
  - case_decide as Hk; simpl; rewrite !elem_of_cons; [subst; tauto|].
    rewrite IH. tauto.
Qed.

Lemma wellFormed_map_set e m :
  wellFormed m -> wellFormed (map_set (ev_path e) e m).
Proof.
  unfold wellFormed. induction m as [|[k v] rest IH]; intros [Hnd Hall].
  - split; [apply NoDup_singleton | repeat constructor].
  - rewrite fmap_cons in Hnd.
    apply NoDup_cons in Hnd as [Hk Hnd]. apply Forall_cons in Hall as [Hv Hall].
    simpl in Hk. change (map_set (ev_path e) e ((k, v) :: rest)) with
      (if decide (k = ev_path e) then (ev_path e, e) :: rest
       else (k, v) :: map_set (ev_path e) e rest).
    case_decide as Heq.
    + subst k. rewrite fmap_cons.
      split; [apply NoDup_cons; tauto | constructor; [reflexivity | assumption]].
    + destruct (IH (conj Hnd Hall)) as [IHnd IHall].
      split; [|constructor; assumption].
      rewrite fmap_cons. apply NoDup_cons. split; [|assumption].
      rewrite map_set_keys. simpl. intros [?|?]; [contradiction | congruence].
Qed.

Lemma wellFormed_setAll events m :
  wellFormed m -> wellFormed (setAll events m).
Proof.
  revert m. induction events as [|e events IH]; intros m Hm; [assumption|].
  apply IH, wellFormed_map_set, Hm.
Qed.

Lemma map_set_cons key e k v m :
  map_set key e ((k, v) :: m)
  = if decide (k = key) then (key, e) :: m else (k, v) :: map_set key e m.
Proof. reflexivity. Qed.

Lemma onPath_cons path e events :
  onPath path (e :: events)
  = if decide (ev_path e = path) then e :: onPath path events else onPath path events.
Proof. unfold onPath. rewrite filter_cons. reflexivity. Qed.

Lemma map_values_cons k v m : map_values ((k, v) :: m) = v :: map_values m.
Proof. reflexivity. Qed.

Lemma onPath_absent_key path m :
  Forall (λ entry, ev_path entry.2 = entry.1) m ->
  path ∉ m.*1 ->
  onPath path (map_values m) = [].
Proof.
  induction m as [|[k v] rest IH]; intros Hall Hk; [reflexivity|].
  apply Forall_cons in Hall as [Hv Hall]. simpl in Hv.
  rewrite fmap_cons, not_elem_of_cons in Hk. destruct Hk as [Hne Hk]. simpl in Hne.
  rewrite map_values_cons, onPath_cons, decide_False by congruence.
  apply IH; assumption.
Qed.

Lemma onPath_map_set path e m :
  wellFormed m ->
  onPath path (map_values (map_set (ev_path e) e m))
  = if decide (ev_path e = path) then [e] else onPath path (map_values m).
Proof.
  unfold wellFormed. induction m as [|[k v] rest IH]; intros [Hnd Hall].
  - change (map_set (ev_path e) e []) with [(ev_path e, e)].
    rewrite map_values_cons, onPath_cons. reflexivity.
  - rewrite fmap_cons in Hnd.
    apply NoDup_cons in Hnd as [Hk Hnd]. apply Forall_cons in Hall as [Hv Hall].
    simpl in Hv, Hk. specialize (IH (conj Hnd Hall)).
    rewrite map_set_cons.
    destruct (decide (k = ev_path e)) as [->|Hne].
    + rewrite !map_values_cons, !onPath_cons.
      destruct (decide (ev_path e = path)) as [Hp|Hp].
      * subst path. rewrite (onPath_absent_key _ rest Hall Hk). reflexivity.
      * rewrite decide_False by congruence. reflexivity.
    + rewrite !map_values_cons, !onPath_cons, IH.
      destruct (decide (ev_path e = path)) as [Hp|Hp]; [|reflexivity].
      rewrite decide_False by congruence. reflexivity.
Qed.

Lemma onPath_setAll path events m :
  wellFormed m ->
  onPath path (map_values (setAll events m))
  = match lastFor path events with
    | Some e => [e]
    | None => onPath path (map_values m)
    end.
Proof.
  revert m. induction events as [|a events IH]; intros m Hm; [reflexivity|].
  change (setAll (a :: events) m) with (setAll events (map_set (ev_path a) a m)).
  rewrite IH by (apply wellFormed_map_set, Hm).
  rewrite onPath_map_set by assumption.
  unfold lastFor. rewrite (filter_cons (λ e, ev_path e = path) a).
  destruct (decide (ev_path a = path)) as [Hp|Hp]; [|reflexivity].
  rewrite last_cons. destruct (last _); reflexivity.
Qed.

Lemma pendingEvents_queueAll events w :
  pendingEvents (queueAll events w) = setAll events (pendingEvents w).
Proof.
  revert w. induction events as [|e events IH]; intros w; [reflexivity|].
  change (queueAll (e :: events) w) with (queueAll events (queueEvent e w)).
  rewrite IH. reflexivity.
Qed.

Lemma queueAll_snoc events e w :
  queueAll (events ++ [e]) w = queueEvent e (queueAll events w).
Proof. unfold queueAll. rewrite foldl_snoc. reflexivity. Qed.

(** After at least one event the debounce timer is set and pending. *)
Lemma queueAll_arms_timer events w :
  events <> [] ->
  exists t, debounceTimer (queueAll events w) = Some t /\ t ∈ timeouts (queueAll events w).
Proof.
  intros Hne. destruct (exists_last Hne) as (events' & e & ->).
  rewrite queueAll_snoc. exists (nextTimer (queueAll events' w)).
  split; [reflexivity|]. simpl. set_solver.
Qed.

(** The well-formedness of the map is kept by every operation of the
    watcher, and holds of a new watcher. *)
Lemma wellFormed_kept w :
  wellFormed (pendingEvents new) /\
  (wellFormed (pendingEvents w) ->
   (forall e, wellFormed (pendingEvents (queueEvent e w))) /\
   (forall t, wellFormed (pendingEvents (timerFires t w).1)) /\
   wellFormed (pendingEvents (stop w).1)).
Proof.
  assert (Hnil : wellFormed []) by (split; constructor).
  split; [exact Hnil|]. intros Hw. split; [|split].
  - intros e. apply wellFormed_map_set, Hw.
  - intros t. unfold timerFires, flushEvents. simpl.
    repeat case_decide; simpl; assumption.
  - unfold stop, flushEvents.
    destruct (debounceTimer w); simpl; case_decide; simpl; exact Hnil.
Qed.

(** [C3] For any sequence of accepted events arriving within one quiet
    window, that is, queued before the debounce timer fires, the batch
    flushed when the timer fires holds, for every path that got an event,
    exactly one event on that path, and it is the last event received on
    that path. *)
Theorem window_coalesces_to_last_event :
  forall (w : InotifyWatcher) (events : list FileChangeEvent) (path : string)
         (e : FileChangeEvent),
    wellFormed (pendingEvents w) ->
    lastFor path events = Some e ->
    exists (t : TimerId) (batch : list FileChangeEvent),
      debounceTimer (queueAll events w) = Some t /\
      batches (timerFires t (queueAll events w)).2 = [batch] /\
      onPath path batch = [e] /\
      pendingEvents (timerFires t (queueAll events w)).1 = [].
Proof.
  intros w events path e Hw Hlast.
  assert (Hne : events <> []).
  { intros ->. discriminate Hlast. }
  destruct (queueAll_arms_timer events w Hne) as (t & Ht & Hin).
  exists t, (map_values (pendingEvents (queueAll events w))). 
  assert (Hon : onPath path (map_values (pendingEvents (queueAll events w))) = [e]).
  { rewrite pendingEvents_queueAll, onPath_setAll, Hlast by assumption. reflexivity. }
  split; [exact Ht|].
  unfold timerFires. rewrite decide_True by assumption.
  unfold flushEvents. simpl.
  case_decide as Hlen; simpl.
  - apply nil_length_inv in Hlen. rewrite Hlen in Hon. discriminate Hon.
  - repeat split. exact Hon.
Qed.

Lemma window_coalesces_to_last_event_witness :
  wellFormed (pendingEvents new) /\
  lastFor "/local/path/a.txt" Samples.windowEvents
  = Some (Samples.modified "/local/path/a.txt" 3%N) /\
  exists (t : TimerId) (batch : list FileChangeEvent),
    debounceTimer (queueAll Samples.windowEvents new) = Some t /\
    batches (timerFires t (queueAll Samples.windowEvents new)).2 = [batch] /\
    onPath "/local/path/a.txt" batch = [Samples.modified "/local/path/a.txt" 3%N] /\
    pendingEvents (timerFires t (queueAll Samples.windowEvents new)).1 = [].
Proof.
  assert (Hw : wellFormed (pendingEvents new)) by (split; constructor).
  assert (Hl : lastFor "/local/path/a.txt" Samples.windowEvents
               = Some (Samples.modified "/local/path/a.txt" 3%N)) by reflexivity.
  split; [exact Hw|]. split; [exact Hl|].
  exact (window_coalesces_to_last_event new Samples.windowEvents "/local/path/a.txt" _ Hw Hl).
Defined.

End Aggregator.

(** ** The orchestrator *)

Section OneAtATime.

Import Job Strategy Orchestrator.

Implicit Types (o : SyncOrchestrator) (m : SyncStateMachine).

Lemma filter_out_only (t : TimerId) : filter (λ t', t' ≠ t) [t] = [].
Proof. rewrite filter_cons_False, filter_nil by auto. reflexivity. Qed.

(** Without [stop()] first, [start] finds the machine in [idle]. *)
Lemma inactive_and_sound_is_idle m :
  isActive m || bool_decide (_state m = error) = false -> _state m = idle.
Proof.
  unfold isActive. destruct (_state m); simpl; intros H; try discriminate H; reflexivity.
Qed.

(** The handler's guard: outside [watching] it returns at once. *)
Lemma handleFileChanges_guard events jobId now o :
  _state (stateMachine o) <> watching ->
  handleFileChanges events jobId now o = (o, []).
Proof.
  intros Hne. unfold handleFileChanges. rewrite decide_True by assumption. reflexivity.
Qed.

(** [C2], as the specification states it, fails: [stop()] does not cancel
    a job, so when the operator starts the profile again while a transfer
    runs, the initial full sync joins it and two jobs are in flight, both
    [running]. *)
Lemma restart_puts_two_jobs_in_flight :
  _status <$> jobsInFlight (run Samples.restartDuringSync Orchestrator.new).1
  = [running; running] /\
  job_id <$> jobsInFlight (run Samples.restartDuringSync Orchestrator.new).1
  = ["sync_3"; "sync_2"] /\
  ~ (forall inputs : list Input,
        length (jobsInFlight (run inputs Orchestrator.new).1) <= 1).
Proof.
  split; [reflexivity|]. split; [reflexivity|].
  intros H. specialize (H Samples.restartDuringSync).
  vm_compute in H. lia.
Qed.

(** A [stop()] during a transfer breaks the guarantee as well, by way of
    the recovery timeout that the failed transfer arms afterwards. *)
Lemma stop_during_sync_puts_two_jobs_in_flight :
  job_id <$> jobsInFlight (run Samples.stopDuringSync Orchestrator.new).1
  = ["sync_5"; "sync_4"].
Proof. reflexivity. Qed.

End OneAtATime.

(** * Further properties *)

(** ** The state machine over sequences of calls *)

Section MachineRuns.

Import MachineRuns.

Implicit Types (m : SyncStateMachine) (c : Call).

Lemma settled_new optMax : settled (StateMachine.new optMax).
Proof. split; intros; simpl; auto. Qed.

Lemma call_settled c m : settled m -> settled (call c m).1.
Proof.
  intros [Hr Hi]. destruct c as [t context|]; simpl.
  - unfold machineAfter, transition.
    destruct (canTransitionTo m t) eqn:Hok; simpl; [|split; assumption].
    apply canTransitionTo_legal in Hok.
    destruct m as [s p e n mx]; simpl in *.
    destruct s, t; simpl in *; try (exfalso; intuition congruence);
      split; simpl; intros; try congruence; auto;
      apply Hr; congruence.
  - split; simpl; auto.
Qed.

Lemma call_maxRetries c m : maxRetries (call c m).1 = maxRetries m.
Proof.
  destruct c as [t context|]; simpl; [|reflexivity].
  unfold machineAfter, transition.
  destruct (canTransitionTo m t); simpl; [|reflexivity].
  destruct (decide (t = idle)); reflexivity.
Qed.

Lemma callAll_cons c calls m :
  callAll (c :: calls) m
  = ((callAll calls (call c m).1).1, ((call c m).2 ++ (callAll calls (call c m).1).2)%list).
Proof.
  simpl. destruct (call c m) as [m1 said1]. simpl.
  destruct (callAll calls m1) as [m2 said2]. reflexivity.
Qed.

Lemma callAll_settled calls m : settled m -> settled (callAll calls m).1.
Proof.
  revert m. induction calls as [|c calls IH]; intros m Hm; [exact Hm|].
  rewrite callAll_cons. simpl. apply IH, call_settled, Hm.
Qed.

Lemma callAll_maxRetries calls m : maxRetries (callAll calls m).1 = maxRetries m.
Proof.
  revert m. induction calls as [|c calls IH]; intros m; [reflexivity|].
  rewrite callAll_cons. simpl. rewrite IH. apply call_maxRetries.
Qed.

(** [X1] Whatever sequence of [transition] and [reset] calls a new
    machine receives, its retry counter is 0 in every state other than
    [error] and [recovering], it holds no profile and no last error
    while [idle], and its retry budget stays the one it was built
    with. *)
Theorem machine_counter_is_zero_outside_failure :
  forall (optMax : option nat) (calls : list Call),
    (_state (callAll calls (StateMachine.new optMax)).1 <> error ->
     _state (callAll calls (StateMachine.new optMax)).1 <> recovering ->
     _retryCount (callAll calls (StateMachine.new optMax)).1 = 0) /\
    (_state (callAll calls (StateMachine.new optMax)).1 = idle ->
     _profile (callAll calls (StateMachine.new optMax)).1 = None /\
     _lastError (callAll calls (StateMachine.new optMax)).1 = None) /\
    maxRetries (callAll calls (StateMachine.new optMax)).1 = default 3 optMax.
Proof.
  intros optMax calls.
  destruct (callAll_settled calls _ (settled_new optMax)) as [Hr Hi].
  split; [exact Hr|]. split; [exact Hi|].
  rewrite callAll_maxRetries. reflexivity.
Qed.

(** An accepted transition is seen as one change from the old state to
    the new one; a rejected one is not seen at all. *)
Lemma stateChanges_transition m t context :
  stateChanges (transition m t context).2
  = if canTransitionTo m t then [(_state m, t)] else [].
Proof.
  unfold transition. destruct (canTransitionTo m t); reflexivity.
Qed.

Lemma stateChanges_app said1 said2 :
  stateChanges (said1 ++ said2) = (stateChanges said1 ++ stateChanges said2)%list.
Proof. apply omap_app. Qed.

Lemma follow_callAll calls m :
  follow (_state m) (stateChanges (callAll calls m).2) = Some (_state (callAll calls m).1).
Proof.
  revert m. induction calls as [|c calls IH]; intros m; [reflexivity|].
  rewrite callAll_cons. simpl. rewrite stateChanges_app.
  specialize (IH (call c m).1).
  destruct c as [t context|]; simpl in *.
  - rewrite stateChanges_transition.
    destruct (canTransitionTo m t) eqn:Hok.
    + destruct (transition_accepted m t context Hok) as [_ Hs]. rewrite Hs in IH.
      simpl. rewrite decide_True by reflexivity. exact IH.
    + destruct (transition_rejected m t context Hok) as [_ Hs]. rewrite Hs in IH |- *.
      exact IH.
  - destruct (decide (_state m <> idle)) as [Hne|Heq]; simpl.
    + rewrite decide_True by reflexivity. exact IH.
    + apply dec_stable in Heq. rewrite Heq. exact IH.
Qed.

(** Every change a call emits is a move between two different states. *)
Lemma stateChanges_call_move c m :
  Forall (λ change, change.1 <> change.2) (stateChanges (call c m).2).
Proof.
  destruct c as [t context|]; simpl.
  - rewrite stateChanges_transition.
    destruct (canTransitionTo m t) eqn:Hok; [|constructor].
    apply canTransitionTo_legal in Hok.
    repeat constructor. simpl. intros Heq. rewrite <- Heq in Hok.
    destruct (_state m); simpl in Hok; intuition congruence.
  - destruct (decide (_state m <> idle)) as [Hne|Heq]; simpl; repeat constructor.
    exact Hne.
Qed.

Lemma stateChanges_callAll_move calls m :
  Forall (λ change, change.1 <> change.2) (stateChanges (callAll calls m).2).
Proof.
  revert m. induction calls as [|c calls IH]; intros m; [constructor|].
  rewrite callAll_cons. simpl. rewrite stateChanges_app.
  apply Forall_app. split; [apply stateChanges_call_move | apply IH].
Qed.

(** [X2] The state changes put on the event bus tell the whole story:
    for any sequence of [transition] and [reset] calls on a new machine,
    the emitted changes start at [idle], each starts in the state the one
    before ended in, and the last ends in the machine's current state;
    none of them is a change from a state to itself. On any machine an
    accepted transition emits exactly the one change from the old state
    to the new one, a rejected transition emits none, a [reset] of an
    idle machine emits none and a [reset] elsewhere the one change to
    [idle]. *)
Theorem state_changes_chain_to_current_state :
  forall (optMax : option nat) (calls : list Call),
    follow idle (stateChanges (callAll calls (StateMachine.new optMax)).2)
    = Some (_state (callAll calls (StateMachine.new optMax)).1) /\
    Forall (λ change, change.1 <> change.2)
      (stateChanges (callAll calls (StateMachine.new optMax)).2) /\
    (forall (m : SyncStateMachine) (t : SyncState) (context : option Context),
        stateChanges (call (CallTransition t context) m).2
        = if accepted (transition m t context) then [(_state m, t)] else []) /\
    (forall m : SyncStateMachine,
        stateChanges (call CallReset m).2
        = if decide (_state m = idle) then [] else [(_state m, idle)]).
Proof.
  intros optMax calls.
  split; [apply (follow_callAll calls (StateMachine.new optMax))|].
  split; [apply stateChanges_callAll_move|]. split.
  - intros m t context. simpl. rewrite stateChanges_transition.
    unfold accepted, transition. destruct (canTransitionTo m t); reflexivity.
  - intros m. simpl. destruct (decide (_state m = idle)) as [Heq|Hne].
    + rewrite decide_False by (intros H; apply H, Heq). reflexivity.
    + rewrite decide_True by exact Hne. reflexivity.
Qed.

Lemma recoveriesSince_app n changes1 changes2 :
  recoveriesSince n (changes1 ++ changes2)
  = recoveriesSince (recoveriesSince n changes1) changes2.
Proof. apply foldl_app. Qed.

Lemma recoveriesSince_callAll calls m :
  settled m ->
  recoveriesSince (_retryCount m) (stateChanges (callAll calls m).2)
  = _retryCount (callAll calls m).1.
Proof.
  revert m. induction calls as [|c calls IH]; intros m Hm; [reflexivity|].
  rewrite callAll_cons. simpl. rewrite stateChanges_app, recoveriesSince_app.
  rewrite <- (IH _ (call_settled c m Hm)). f_equal.
  destruct c as [t context|]; simpl.
  - rewrite stateChanges_transition. unfold machineAfter, transition.
    destruct (canTransitionTo m t) eqn:Hok; simpl; [|reflexivity].
    unfold recoveriesSince; simpl.
    destruct t; simpl; reflexivity.
  - destruct Hm as [Hr Hi].
    destruct (decide (_state m <> idle)) as [Hne|Heq]; simpl; [reflexivity|].
    apply dec_stable in Heq. apply Hr; congruence.
Qed.

(** [X3] The retry counter is what an observer of the event bus can
    count: after any sequence of calls on a new machine it equals the
    number of changes into [recovering] emitted since the last change
    into [watching] or [idle]. *)
Theorem retry_counter_counts_recoveries :
  forall (optMax : option nat) (calls : list Call),
    _retryCount (callAll calls (StateMachine.new optMax)).1
    = recoveriesSince 0 (stateChanges (callAll calls (StateMachine.new optMax)).2).
Proof.
  intros optMax calls. symmetry.
  apply (recoveriesSince_callAll calls (StateMachine.new optMax)), settled_new.
Qed.

End MachineRuns.

(** ** Sync jobs over sequences of calls *)

Section JobRuns.

Import Job JobRuns.

Implicit Types (j : SyncJob) (c : Call).

Lemma jobCallAll_cons now c calls j :
  callAll ((now, c) :: calls) j
  = ((call now c j).1 :: (callAll calls (call now c j).2).1,
     (callAll calls (call now c j).2).2).
Proof.
  simpl. destruct (call now c j) as [outcome j1]. simpl.
  destruct (callAll calls j1) as [outcomes j2]. reflexivity.
Qed.

Lemma call_consistent now c j : consistent j -> consistent (call now c j).2.
Proof.
  unfold consistent. intros H.
  destruct c; simpl; unfold start, complete, fail;
    case_decide as Hs; simpl; try exact H;
    rewrite Hs in H; destruct H as (? & ? & ? & ?); eauto 10.
Qed.

(** [X4] A job keeps its lifecycle fields in step with its status over
    any sequence of [start], [complete] and [fail] calls: the start time
    is set exactly once the job has left [pending], the completion time
    exactly in [completed] and [failed], an error text only in
    [failed], and transfer counts only in [completed]. *)
Theorem job_fields_follow_status :
  forall (created : Date) (id : string) (profile : Profile)
         (files : option (list string)) (strategy : option SyncStrategy)
         (calls : list (Date * Call)),
    consistent (callAll calls (Job.new created id profile files strategy)).2.
Proof.
  intros created id profile files strategy calls.
  assert (H0 : consistent (Job.new created id profile files strategy))
    by (unfold consistent; simpl; auto).
  revert H0. generalize (Job.new created id profile files strategy) as j.
  induction calls as [|[now c] calls IH]; intros j Hj; [exact Hj|].
  rewrite jobCallAll_cons. simpl. apply IH, call_consistent, Hj.
Qed.

(** [X5] What [duration] reports follows the lifecycle: 0 for a job not
    yet started, the time since the start while the job runs, and for a
    finished job the time from its start to its completion, whenever it
    is asked: the duration of a finished job no longer moves with the
    clock. *)
Theorem duration_follows_lifecycle :
  forall (created : Date) (id : string) (profile : Profile)
         (files : option (list string)) (strategy : option SyncStrategy)
         (calls : list (Date * Call)) (now : Date),
    let j := (callAll calls (Job.new created id profile files strategy)).2 in
    match _status j with
    | pending => duration now j = 0%Z
    | running =>
        exists started,
          _startedAt j = Some started /\
          duration now j = (Z.of_N now - Z.of_N started)%Z
    | completed | failed =>
        exists started finished,
          _startedAt j = Some started /\
          _completedAt j = Some finished /\
          forall asked, duration asked j = (Z.of_N finished - Z.of_N started)%Z
    end.
Proof.
  intros created id profile files strategy calls now j.
  assert (Hj : consistent j).
  { subst j.
    assert (H0 : consistent (Job.new created id profile files strategy))
      by (unfold consistent; simpl; auto).
    revert H0. generalize (Job.new created id profile files strategy) as j0.
    induction calls as [|[t c] calls IH]; intros j0 H0; [exact H0|].
    rewrite jobCallAll_cons. simpl. apply IH, call_consistent, H0. }
  unfold consistent in Hj. unfold duration.
  destruct (_status j).
  - destruct Hj as (-> & _). reflexivity.
  - destruct Hj as ([s ->] & -> & _). exists s. split; reflexivity.
  - destruct Hj as ([s ->] & [f ->] & _). exists s, f. repeat split.
  - destruct Hj as ([s ->] & [f ->] & _). exists s, f. repeat split.
Qed.

Lemma call_terminal now c j :
  terminal (_status j) = true ->
  threw (call now c j).1 = true /\ (call now c j).2 = j.
Proof.
  intros Ht. destruct c; simpl; unfold start, complete, fail;
    case_decide as Hs; simpl; auto; rewrite Hs in Ht; discriminate Ht.
Qed.

(** [X6] [completed] and [failed] are final: on a job in either status
    every further lifecycle call throws, and no sequence of calls
    changes the job in any field. *)
Theorem finished_job_is_frozen :
  forall (j : SyncJob) (calls : list (Date * Call)),
    terminal (_status j) = true ->
    (callAll calls j).2 = j /\
    forallb threw (callAll calls j).1 = true.
Proof.
  intros j calls Ht. induction calls as [|[now c] calls [IHj IHo]]; [split; reflexivity|].
  rewrite jobCallAll_cons. simpl.
  destruct (call_terminal now c j Ht) as [Hthrew Hsame].
  rewrite Hsame, Hthrew, IHj, IHo. split; reflexivity.
Qed.

Lemma finished_job_is_frozen_witness :
  terminal (_status Cases.completedJob) = true /\
  (callAll [(3%N, CallStart); (4%N, CallFail "late")] Cases.completedJob).2
  = Cases.completedJob.
Proof.
  assert (H : terminal (_status Cases.completedJob) = true) by reflexivity.
  split; [exact H|].
  exact (proj1 (finished_job_is_frozen Cases.completedJob
                  [(3%N, CallStart); (4%N, CallFail "late")] H)).
Defined.

End JobRuns.

(** ** Paths and the shape of the rsync commands *)

Section Paths.

Import Builder Paths.

Lemma string_length_app (a b : string) :
  String.length (a ++ b) = String.length a + String.length b.
Proof. induction a as [|c a IH]; simpl; [reflexivity | rewrite IH; reflexivity]. Qed.

Lemma substring_whole (s : string) : String.substring 0 (String.length s) s = s.
Proof. induction s as [|c s IH]; simpl; [reflexivity | rewrite IH; reflexivity]. Qed.

Lemma substring_past_prefix (a b : string) (m : nat) :
  String.substring (String.length a) m (a ++ b) = String.substring 0 m b.
Proof. induction a as [|c a IH]; simpl; [reflexivity | exact IH]. Qed.

Lemma substring_of_prefix (a b : string) :
  String.substring 0 (String.length a) (a ++ b) = a.
Proof.
  induction a as [|c a IH]; simpl.
  - destruct b; reflexivity.
  - rewrite IH. reflexivity.
Qed.

Lemma endsWith_app (p sep : string) : endsWith (p ++ sep) sep = true.
Proof.
  unfold endsWith. rewrite string_length_app.
  rewrite bool_decide_eq_true_2 by lia. simpl.
  replace (String.length p + String.length sep - String.length sep)
    with (String.length p) by lia.
  rewrite substring_past_prefix, substring_whole. apply String.eqb_refl.
Qed.

(** [X7] [ensureTrailingSlash] always returns a path that ends with the
    separator, returns a path that already ends with it unchanged, and
    applied twice gives what it gives applied once. *)
Theorem ensureTrailingSlash_is_idempotent :
  forall (sep inputPath : string),
    endsWith (ensureTrailingSlash sep inputPath) sep = true /\
    (if endsWith inputPath sep
     then ensureTrailingSlash sep inputPath = inputPath
     else ensureTrailingSlash sep inputPath = inputPath ++ sep) /\
    ensureTrailingSlash sep (ensureTrailingSlash sep inputPath)
    = ensureTrailingSlash sep inputPath.
Proof.
  intros sep p.
  assert (Hends : endsWith (ensureTrailingSlash sep p) sep = true).
  { unfold ensureTrailingSlash. destruct (endsWith p sep) eqn:He; [exact He|].
    apply endsWith_app. }
  split; [exact Hends|]. split.
  - unfold ensureTrailingSlash. destruct (endsWith p sep); reflexivity.
  - unfold ensureTrailingSlash at 1. rewrite Hends. reflexivity.
Qed.

(** [X8] With a separator of one character, [removeTrailingSlash]
    undoes [ensureTrailingSlash] on a path that did not end with the
    separator. *)
Theorem removeTrailingSlash_undoes_ensure :
  forall (sep inputPath : string),
    String.length sep = 1 ->
    endsWith inputPath sep = false ->
    removeTrailingSlash sep (ensureTrailingSlash sep inputPath) = inputPath.
Proof.
  intros sep p Hlen Hno.
  unfold ensureTrailingSlash. rewrite Hno.
  unfold removeTrailingSlash. rewrite endsWith_app.
  unfold dropLast. rewrite string_length_app, Hlen.
  replace (String.length p + 1 - 1) with (String.length p) by lia.
  apply substring_of_prefix.
Qed.

Lemma removeTrailingSlash_undoes_ensure_witness :
  String.length posix_sep = 1 /\
  endsWith "/var/www/app" posix_sep = false /\
  removeTrailingSlash posix_sep (ensureTrailingSlash posix_sep "/var/www/app")
  = "/var/www/app".
Proof.
  split; [reflexivity|]. split; [reflexivity|].
  apply removeTrailingSlash_undoes_ensure; reflexivity.
Defined.

Lemma pushExcludes_spec (patterns args : list string) :
  pushExcludes args patterns = (args ++ excludeArgs patterns)%list.
Proof.
  revert args. induction patterns as [|pattern patterns IH]; intros args; simpl.
  - rewrite app_nil_r. reflexivity.
  - rewrite IH. unfold push, excludeArgs. simpl. rewrite <- app_assoc. reflexivity.
Qed.

(** [X9] The three commands have one shape: the common options [-a],
    [-z], [-e] with the ssh command for the profile's port, and one
    [--exclude] pair per pattern of the profile in the profile's order;
    then the flags of the mode; then source and destination as the last
    two arguments. A full sync carries [--delete]; an incremental sync
    of a non-empty file list carries [--files-from=-] instead and runs
    in the local directory; a dry run carries [--dry-run], [--delete]
    and [-v]. *)
Theorem commands_share_options_and_endpoints :
  forall (sep : string) (profile : Profile) (file : string) (files : list string),
    commonOptions profile
    = ("-a" :: "-z" :: "-e" :: remoteShell profile
         :: (exclude profile ≫= λ pattern, ["--exclude"; pattern]))%list /\
    remoteShell profile
    = "ssh -p " ++ pretty (sshPort profile) ++ " -o StrictHostKeyChecking=accept-new" /\
    buildFullSync sep profile
    = {| command := "rsync";
         args := (commonOptions profile ++ ["--delete"] ++ endpoints sep profile)%list;
         cwd := None |} /\
    buildIncrementalSync sep profile (file :: files)
    = {| command := "rsync";
         args := (commonOptions profile ++ ["--files-from=-"] ++ endpoints sep profile)%list;
         cwd := Some (localDir profile) |} /\
    buildDryRun sep profile
    = {| command := "rsync";
         args := (commonOptions profile ++ ["--dry-run"; "--delete"; "-v"]
                    ++ endpoints sep profile)%list;
         cwd := None |}.
Proof.
  intros sep profile file files.
  split; [reflexivity|]. split; [reflexivity|].
  unfold buildFullSync, buildIncrementalSync, buildDryRun, buildBaseArgs,
    buildRemoteDestination, commonOptions, remoteShell, endpoints, push.
  rewrite pushExcludes_spec. simpl.
  repeat split; f_equal; repeat (rewrite <- app_assoc; simpl); reflexivity.
Qed.

End Paths.

(** ** The sync service and the rsync client *)

Section SyncService.

Import Job Strategy Orchestrator Client.

Implicit Types (job : SyncJob).

Lemma rsyncRequests_execute (s : ISyncStrategy) job :
  rsyncRequests (execute s job)
  = [match s with
     | IncrementalSyncStrategy =>
         if decide (length (job_files job) = 0)
         then {| rs_id := job_id job; rs_profile := job_profile job;
                 rs_files := []; rs_strategy := full |}
         else {| rs_id := job_id job; rs_profile := job_profile job;
                 rs_files := job_files job; rs_strategy := incremental |}
     | FullSyncStrategy =>
         {| rs_id := job_id job; rs_profile := job_profile job;
            rs_files := []; rs_strategy := full |}
     end].
Proof. destruct s; simpl; [case_decide|]; reflexivity. Qed.

(** [X10] What is run for a job: the sync service hands the rsync
    client exactly one request, and the client builds from it the
    incremental command over the job's own file list when the job asks
    for an incremental sync and carries files, and the full-sync command
    in every other case (a full job's file list is not passed on). *)
Theorem job_runs_incremental_only_with_files :
  forall (sep : string) (job : SyncJob),
    exists request : RsyncSyncJob,
      rsyncRequests (execute (selectStrategy job) job) = [request] /\
      rs_id request = job_id job /\
      rs_profile request = job_profile job /\
      commandFor sep request
      = if bool_decide (job_strategy job = incremental)
           && bool_decide (0 < length (job_files job))
        then Builder.buildIncrementalSync sep (job_profile job) (job_files job)
        else Builder.buildFullSync sep (job_profile job).
Proof.
  intros sep job. rewrite rsyncRequests_execute.
  eexists. split; [reflexivity|].
  unfold selectStrategy, strategies, firstCanHandle, canHandle, commandFor.
  destruct (job_strategy job), (job_files job) as [|f fs]; simpl;
    repeat split; reflexivity.
Qed.

(** [X11] [SyncService.sync] on a pending job never rejects: the job is
    started and handed to the client, and however the transfer settles
    the job ends [completed] or [failed] and a result is returned, which
    reports success exactly when the job ends [completed]; a transfer
    that rejects with a message yields a failed result carrying that
    message alone. *)
Theorem sync_of_pending_job_ends_in_final_status :
  forall (now later : Date) (job : SyncJob) (settled : Settled),
    _status job = pending ->
    exists (started : SyncJob) (result : SyncResult),
      (sync_begin now job).1 = Returned started /\
      _status started = running /\
      length (rsyncRequests (sync_begin now job).2) = 1 /\
      (sync_resume later settled started).1 = Returned result /\
      JobRuns.terminal (_status (sync_resume later settled started).2) = true /\
      (success result = true <->
       _status (sync_resume later settled started).2 = completed) /\
      (forall message,
          settled = Rejected message ->
          success result = false /\ errors result = [message]).
Proof.
  intros now later job settled Hp.
  assert (Hreq : forall j, length (rsyncRequests (execute (selectStrategy job) j)) = 1).
  { intros j. rewrite rsyncRequests_execute. reflexivity. }
  unfold sync_begin, Job.start. case_decide as Hn; [congruence|]. simpl.
  unfold sync_resume, sync_catch, complete, fail.
  destruct settled as [result|message]; [destruct (success result) eqn:Hs|];
    simpl; eexists _, _;
    (split; [reflexivity|]); (split; [reflexivity|]);
    (split; [apply Hreq|]); (split; [reflexivity|]); (split; [reflexivity|]).
  - split; [tauto|]. intros ? [=].
  - rewrite Hs. split; [split; discriminate|]. intros ? [=].
  - simpl. split; [split; discriminate|]. intros ? [= ->]. split; reflexivity.
Qed.

Lemma sync_of_pending_job_ends_in_final_status_witness :
  _status Samples.oneFileJob = pending /\
  exists (started : SyncJob) (result : SyncResult),
    (sync_begin 1%N Samples.oneFileJob).1 = Returned started /\
    _status started = running /\
    length (rsyncRequests (sync_begin 1%N Samples.oneFileJob).2) = 1 /\
    (sync_resume 2%N (Rejected "broken pipe") started).1 = Returned result /\
    JobRuns.terminal (_status (sync_resume 2%N (Rejected "broken pipe") started).2) = true /\
    (success result = true <->
     _status (sync_resume 2%N (Rejected "broken pipe") started).2 = completed) /\
    (forall message,
        Rejected "broken pipe" = Rejected message ->
        success result = false /\ errors result = [message]).
Proof.
  assert (H : _status Samples.oneFileJob = pending) by reflexivity.
  split; [exact H|].
  exact (sync_of_pending_job_ends_in_final_status 1%N 2%N Samples.oneFileJob
           (Rejected "broken pipe") H).
Defined.

(** [X12] A job is not run twice: [SyncService.sync] on a job that has
    left [pending] rejects with the error of [start()] before anything
    is handed to the rsync client. *)
Theorem sync_of_started_job_rejects :
  forall (now : Date) (job : SyncJob),
    _status job <> pending ->
    (sync_begin now job).1
    = Threw ("Cannot start job in " ++ SyncJobStatus_literal (_status job) ++ " status") /\
    rsyncRequests (sync_begin now job).2 = [].
Proof.
  intros now job Hp. unfold sync_begin, Job.start.
  case_decide as Hn; [split; reflexivity | congruence].
Qed.

Lemma sync_of_started_job_rejects_witness :
  _status Cases.completedJob <> pending /\
  (sync_begin 3%N Cases.completedJob).1
  = Threw ("Cannot start job in "
           ++ SyncJobStatus_literal (_status Cases.completedJob) ++ " status") /\
  rsyncRequests (sync_begin 3%N Cases.completedJob).2 = [].
Proof.
  assert (H : _status Cases.completedJob <> pending) by (simpl; discriminate).
  split; [exact H|].
  exact (sync_of_started_job_rejects 3%N Cases.completedJob H).
Defined.

(** [X13] Every exit code classified recoverable is a described one:
    the error class and the client give it the same text, so a
    recoverable failure is never reported as "Unknown error" and the
    client's error list for it is never empty and ends with that text. *)
Theorem recoverable_codes_are_described :
  forall (exitCode : Z) (stderr trimmedStderr : string),
    RsyncErrors.recoverable (RsyncErrors.new exitCode stderr) = true ->
    exists meaning : string,
      RsyncErrors.RSYNC_EXIT_CODES exitCode = Some meaning /\
      getExitCodeMeaning exitCode = Some meaning /\
      meaning <> "Unknown error" /\
      last (parseErrors trimmedStderr exitCode) = Some meaning.
Proof.
  intros exitCode stderr trimmed Hrec. simpl in Hrec.
  apply bool_decide_eq_true in Hrec. unfold RsyncErrors.RECOVERABLE_EXIT_CODES in Hrec.
  rewrite !elem_of_cons, elem_of_nil in Hrec.
  unfold parseErrors.
  destruct Hrec as [->|[->|[->|[->|[->|[]]]]]]; simpl;
    eexists; (split; [reflexivity|]); (split; [reflexivity|]);
    (split; [discriminate|]); case_decide; reflexivity.
Qed.

Lemma recoverable_codes_are_described_witness :
  RsyncErrors.recoverable (RsyncErrors.new 23%Z "rsync: some files vanished") = true /\
  exists meaning : string,
    RsyncErrors.RSYNC_EXIT_CODES 23%Z = Some meaning /\
    getExitCodeMeaning 23%Z = Some meaning /\
    meaning <> "Unknown error" /\
    last (parseErrors "rsync: some files vanished" 23%Z) = Some meaning.
Proof.
  assert (H : RsyncErrors.recoverable
                (RsyncErrors.new 23%Z "rsync: some files vanished") = true)
    by reflexivity.
  split; [exact H|].
  exact (recoverable_codes_are_described 23%Z "rsync: some files vanished"
           "rsync: some files vanished" H).
Defined.

End SyncService.

(** ** The aggregator over runs *)

Section WatcherRuns.

Import Watcher WatcherRuns.

Implicit Types (m : EventMap) (w : InotifyWatcher) (e : FileChangeEvent).

Implicit Types (r : Running).

Lemma watcher_run_cons input inputs r :
  runFrom (input :: inputs) r
  = ((runFrom inputs (step input r).1).1,
     ((step input r).2 ++ (runFrom inputs (step input r).1).2)%list).
Proof.
  simpl. destruct (step input r) as [r1 said1]. simpl.
  destruct (runFrom inputs r1) as [r2 said2]. reflexivity.
Qed.

Lemma batches_app said1 said2 :
  batches (said1 ++ said2) = (batches said1 ++ batches said2)%list.
Proof. apply omap_app. Qed.

Lemma map_set_not_nil key e m : map_set key e m <> [].
Proof. destruct m as [|[k v] rest]; simpl; [|case_decide]; discriminate. Qed.

Lemma wellFormed_nil : wellFormed [].
Proof. split; constructor. Qed.

Lemma wellFormed_paths m : wellFormed m -> ev_path <$> map_values m = m.*1.
Proof.
  intros [_ Hall]. unfold map_values. induction m as [|[k v] rest IH]; [reflexivity|].
  apply Forall_cons in Hall as [Hv Hall]. rewrite !fmap_cons. simpl in Hv |- *.
  rewrite Hv. f_equal. apply IH, Hall.
Qed.

Lemma flush_of_debounced w :
  wellFormed (pendingEvents w) ->
  Forall properBatch (batches (flushEvents w).2) /\
  pendingEvents (flushEvents w).1 = [] /\
  timeouts (flushEvents w).1 = timeouts w /\
  debounceTimer (flushEvents w).1 = debounceTimer w /\
  batches (flushEvents w).2
  = if decide (pendingEvents w = []) then [] else [map_values (pendingEvents w)].
Proof.
  intros Hw. unfold flushEvents.
  destruct (decide (pendingEvents w = [])) as [Hp|Hp].
  - rewrite decide_True by (rewrite Hp; reflexivity). simpl.
    repeat split; try assumption. constructor.
  - rewrite decide_False by (intros H; apply Hp, nil_length_inv, H).
    cbn [fst snd pendingEvents timeouts debounceTimer batches omap list_omap].
    repeat split. constructor; [|constructor]. split; [|].
    + intros H. apply Hp. unfold map_values in H. apply fmap_nil_inv in H. exact H.
    + rewrite (wellFormed_paths _ Hw). apply Hw.
Qed.

Lemma clearTimeout_only (t : TimerId) : clearTimeout t [t] = [].
Proof. unfold clearTimeout. rewrite filter_cons_False, filter_nil by auto. reflexivity. Qed.

Lemma queueEvent_debounced e w : debounced w -> debounced (queueEvent e w).
Proof.
  intros (Hw & Hone & _). split; [apply wellFormed_map_set, Hw|].
  assert (Hts : timeouts (queueEvent e w) = [nextTimer w]).
  { unfold queueEvent; simpl. destruct Hone as [Hts|(t & Hts & Ht)].
    - rewrite Hts. destruct (debounceTimer w); reflexivity.
    - rewrite Ht, Hts, clearTimeout_only. reflexivity. }
  split; [right; exists (nextTimer w); split; [exact Hts | reflexivity]|].
  intros _. rewrite Hts. discriminate.
Qed.

Lemma timerFires_debounced t w :
  debounced w ->
  debounced (timerFires t w).1 /\ Forall properBatch (batches (timerFires t w).2) /\
  (t ∈ timeouts w ->
   pendingEvents (timerFires t w).1 = [] /\ timeouts (timerFires t w).1 = []).
Proof.
  intros (Hw & Hone & Hsome). unfold timerFires.
  case_decide as Hin;
    [|split; [exact (conj Hw (conj Hone Hsome)) | split; [constructor | tauto]]].
  destruct Hone as [Hts|(t' & Hts & Ht)];
    [rewrite Hts in Hin; apply elem_of_nil in Hin; contradiction|].
  rewrite Hts in Hin. apply list_elem_of_singleton in Hin as ->.
  rewrite Hts, clearTimeout_only.
  match goal with |- context [flushEvents ?w'] =>
    destruct (flush_of_debounced w' Hw) as (Hb & Hp & Hts' & _ & _) end.
  cbn [timeouts] in Hts'.
  split; [|split; [exact Hb | intros _; split; [exact Hp | exact Hts']]].
  split; [rewrite Hp; apply wellFormed_nil|]. split; [left; exact Hts'|].
  intros Hne. contradiction.
Qed.

(** The part of [stop()] that runs at once leaves no event and no
    timeout pending. *)
Lemma stop_begin_debounced w :
  debounced w ->
  batches (stop_begin w).2
  = (if decide (pendingEvents w = []) then [] else [map_values (pendingEvents w)]) /\
  Forall properBatch (batches (stop_begin w).2) /\
  pendingEvents (stop_begin w).1 = [] /\
  timeouts (stop_begin w).1 = [] /\
  process (stop_begin w).1 = process w.
Proof.
  intros (Hw & Hone & _). unfold stop_begin.
  set (w1 := match debounceTimer w with Some _ => _ | None => w end).
  assert (Hw1 : pendingEvents w1 = pendingEvents w /\ timeouts w1 = [] /\
                process w1 = process w).
  { subst w1. destruct Hone as [Hts|(t & Hts & Ht)].
    - destruct (debounceTimer w); simpl; [|auto]. rewrite Hts. auto.
    - rewrite Ht. simpl. rewrite Hts, clearTimeout_only. auto. }
  destruct Hw1 as (Hp1 & Hts1 & Hpr1).
  assert (Hwf1 : wellFormed (pendingEvents w1)) by (rewrite Hp1; exact Hw).
  destruct (flush_of_debounced w1 Hwf1) as (Hb & Hp & Hts' & _ & Heq).
  rewrite Hp1 in Heq.
  split; [exact Heq|]. split; [exact Hb|]. split; [exact Hp|]. split; [congruence|].
  rewrite <- Hpr1. unfold flushEvents.
  destruct (decide (length (pendingEvents w1) = 0)); reflexivity.
Qed.

Lemma stop_end_debounced w :
  debounced w -> debounced (stop_end w).
Proof.
  intros (_ & Hone & _). split; [apply wellFormed_nil|]. split; [exact Hone|].
  intros H. contradiction.
Qed.

Lemma stop_called_debounced call r :
  debounced (watcher r) ->
  debounced (watcher (stop_called call r).1) /\
  Forall properBatch (batches (stop_called call r).2).
Proof.
  intros Hd. unfold stop_called.
  destruct (stop_begin_debounced _ Hd) as (_ & Hb & Hp & Hts & _).
  destruct (stop_begin (watcher r)) as [w fired]. simpl in *.
  assert (Hw : debounced w).
  { split; [rewrite Hp; apply wellFormed_nil|]. split; [left; exact Hts|].
    intros H. contradiction. }
  destruct (process w); simpl.
  - split; [exact Hw|]. rewrite batches_app. simpl. rewrite app_nil_r. exact Hb.
  - split; [apply stop_end_debounced, Hw | exact Hb].
Qed.

Lemma step_debounced input r :
  debounced (watcher r) ->
  debounced (watcher (step input r).1) /\ Forall properBatch (batches (step input r).2).
Proof.
  intros Hd. destruct input as [config| |i| |e|t]; simpl.
  - destruct (process (watcher r)); [apply stop_called_debounced, Hd|].
    split; [exact Hd | constructor].
  - apply stop_called_debounced, Hd.
  - destruct (awaiting r !! i) as [[|config]|]; simpl.
    + split; [apply stop_end_debounced, Hd | constructor].
    + split; [apply stop_end_debounced, Hd | constructor].
    + split; [exact Hd | constructor].
  - split; [exact Hd | constructor].
  - split; [apply queueEvent_debounced, Hd | constructor].
  - destruct (timerFires_debounced t _ Hd) as (Hd' & Hb & _).
    destruct (timerFires t (watcher r)) as [w fired]. simpl in *. auto.
Qed.

Lemma debounced_new : debounced Watcher.new.
Proof.
  split; [apply wellFormed_nil|]. split; [left; reflexivity|].
  intros H. contradiction.
Qed.

Lemma run_debounced inputs r :
  debounced (watcher r) ->
  debounced (watcher (runFrom inputs r).1) /\
  Forall properBatch (batches (runFrom inputs r).2).
Proof.
  revert r. induction inputs as [|input inputs IH]; intros r Hd;
    [split; [exact Hd|constructor]|].
  rewrite watcher_run_cons. simpl.
  destruct (step_debounced input r Hd) as [Hd1 Hb1].
  destruct (IH _ Hd1) as [Hd2 Hb2].
  split; [exact Hd2|]. rewrite batches_app. apply Forall_app. auto.
Qed.

(** With no line during a kill, a timeout is pending only while events
    are. *)
Lemma step_idleWhenEmpty input r :
  match input with Queued _ => bool_decide (awaiting r = []) | _ => true end = true ->
  debounced (watcher r) ->
  idleWhenEmpty r ->
  idleWhenEmpty (step input r).1.
Proof.
  intros Hq Hd [Hk He]. destruct input as [config| |i| |e|t]; simpl.
  - destruct (process (watcher r)) eqn:Hpr.
    + unfold stop_called.
      destruct (stop_begin_debounced _ Hd) as (_ & _ & Hp & Hts & Hpr').
      destruct (stop_begin (watcher r)) as [w fired]. simpl in *.
      rewrite Hpr' , Hpr. simpl. split; auto.
    + split; simpl; assumption.
  - unfold stop_called.
    destruct (stop_begin_debounced _ Hd) as (_ & _ & Hp & Hts & _).
    destruct (stop_begin (watcher r)) as [w fired]. simpl in *.
    destruct (process w); simpl; split; auto.
  - destruct (awaiting r !! i) as [call|] eqn:Hi; [|split; assumption].
    assert (Hts : timeouts (watcher r) = []).
    { apply Hk. intros Hnil. rewrite Hnil in Hi. discriminate Hi. }
    destruct call; simpl; split; auto.
  - split; simpl; assumption.
  - apply bool_decide_eq_true in Hq. split; simpl.
    + intros Hne. contradiction.
    + intros Hnil. exfalso. exact (map_set_not_nil _ _ _ Hnil).
  - destruct (timerFires_debounced t _ Hd) as (_ & _ & Hfired).
    unfold timerFires in *. case_decide as Hin.
    + destruct (Hfired Hin) as [Hp Hts].
      destruct (flushEvents _) as [w fired]. simpl in *. split; auto.
    + split; simpl; assumption.
Qed.

Lemma run_idleWhenEmpty inputs r :
  quietKills inputs r = true ->
  debounced (watcher r) ->
  idleWhenEmpty r ->
  idleWhenEmpty (runFrom inputs r).1.
Proof.
  revert r. induction inputs as [|input inputs IH]; intros r Hq Hd Hi; [exact Hi|].
  rewrite watcher_run_cons. simpl.
  simpl in Hq. apply andb_true_iff in Hq as [Hq1 Hq2].
  apply IH; [exact Hq2 | apply step_debounced, Hd | apply step_idleWhenEmpty; assumption].
Qed.

(** [X14] The aggregator runs a single countdown. After any sequence of
    [start] and [stop] calls, kills coming to their end, queued events
    and timeouts coming due on a new watcher, at most one timeout is
    pending, which is the one held in [debounceTimer], and one is
    pending whenever events are pending. When no line arrives while a
    kill is awaited, the countdown is pending exactly while events
    are. *)
Theorem one_timer_while_events_pend :
  forall inputs : list Input,
    let w := watcher (run inputs Watcher.new).1 in
    (timeouts w = [] \/ exists t, timeouts w = [t] /\ debounceTimer w = Some t) /\
    (pendingEvents w <> [] -> timeouts w <> []) /\
    (quietKills inputs {| watcher := Watcher.new; awaiting := [] |} = true ->
     (pendingEvents w = [] <-> timeouts w = [])).
Proof.
  intros inputs w. unfold run in w.
  destruct (run_debounced inputs {| watcher := Watcher.new; awaiting := [] |}
              debounced_new) as [(_ & Hone & Hsome) _].
  split; [exact Hone|]. split; [exact Hsome|].
  intros Hq.
  destruct (run_idleWhenEmpty inputs {| watcher := Watcher.new; awaiting := [] |}
              Hq debounced_new) as [_ He].
  { split; intros; reflexivity. }
  split; [exact He|]. intros Hts.
  destruct (decide (pendingEvents w = [])) as [Hp|Hp]; [exact Hp|].
  exfalso. exact (Hsome Hp Hts).
Qed.

Lemma one_timer_while_events_pend_witness :
  quietKills Cases.quietStop {| watcher := Watcher.new; awaiting := [] |} = true /\
  (pendingEvents (watcher (run Cases.quietStop Watcher.new).1) = [] <->
   timeouts (watcher (run Cases.quietStop Watcher.new).1) = []).
Proof.
  assert (H : quietKills Cases.quietStop {| watcher := Watcher.new; awaiting := [] |}
              = true) by reflexivity.
  split; [exact H|].
  exact (proj2 (proj2 (one_timer_while_events_pend Cases.quietStop)) H).
Defined.

(** The converse fails without that condition: a line that arrives
    while [stop()] awaits the kill is queued and arms a countdown;
    [stop()] then clears the map and leaves the countdown pending, so
    the event is never delivered. *)
Lemma line_during_kill_is_dropped :
  pendingEvents (watcher (run Cases.lineDuringKill Watcher.new).1) = [] /\
  timeouts (watcher (run Cases.lineDuringKill Watcher.new).1) = [0] /\
  batches (run (Cases.lineDuringKill ++ [TimeoutDue 0]) Watcher.new).2 = [].
Proof. repeat split. Qed.

(** [X15] Every batch the aggregator fires, on a timeout or on stop, is
    non-empty and holds no path twice. *)
Theorem fired_batches_are_proper :
  forall inputs : list Input,
    Forall (λ batch, batch <> [] /\ NoDup (ev_path <$> batch))
      (batches (run inputs Watcher.new).2).
Proof.
  intros inputs.
  destruct (run_debounced inputs {| watcher := Watcher.new; awaiting := [] |}
              debounced_new) as [_ H].
  exact H.
Qed.

(** [Watcher.stop] is [stop()] run in one piece, as it is when no
    process is set. *)
Lemma watcher_stop_in_one_piece w :
  Watcher.stop w
  = (stop_end (stop_begin w).1,
     ((stop_begin w).2
        ++ (if process w then [Log INFO "Watcher" "Stopping inotifywait"] else []))%list).
Proof.
  unfold Watcher.stop, stop_begin, stop_end, flushEvents.
  destruct (debounceTimer w); simpl; case_decide; reflexivity.
Qed.

(** [X16] What [stop()] does with the events, on a watcher reached by
    any run. At once, before it awaits the end of the process, it
    cancels the countdown and fires the pending events as one batch
    (none if nothing is pending), which leaves the map empty and no
    timeout pending. When the kill is over it clears the map: the
    events that arrived in between are dropped, and no timeout that
    comes due afterwards fires anything. With no arrival in between no
    timeout is left pending; otherwise the countdown armed by the
    arrivals stays pending. *)
Theorem stop_flushes_and_disarms :
  forall (inputs : list Input) (arrivals : list FileChangeEvent) (t : TimerId),
    let w := watcher (run inputs Watcher.new).1 in
    let stopped := stop_end (queueAll arrivals (stop_begin w).1) in
    batches (stop_begin w).2
    = (if decide (pendingEvents w = []) then [] else [map_values (pendingEvents w)]) /\
    pendingEvents (stop_begin w).1 = [] /\
    timeouts (stop_begin w).1 = [] /\
    pendingEvents stopped = [] /\
    process stopped = false /\
    batches (timerFires t stopped).2 = [] /\
    (arrivals = [] <-> timeouts stopped = []).
Proof.
  intros inputs arrivals t w stopped. unfold run in w.
  destruct (run_debounced inputs {| watcher := Watcher.new; awaiting := [] |}
              debounced_new) as [Hd _]. fold w in Hd.
  destruct (stop_begin_debounced w Hd) as (Hb & _ & Hp & Hts & _).
  split; [exact Hb|]. split; [exact Hp|]. split; [exact Hts|].
  split; [reflexivity|]. split; [reflexivity|]. split.
  - unfold timerFires. destruct (decide (t ∈ timeouts stopped)); reflexivity.
  - subst stopped. simpl. split.
    + intros ->. exact Hts.
    + intros Hnil. destruct (decide (arrivals = [])) as [He|Hne]; [exact He|].
      destruct (queueAll_arms_timer arrivals (stop_begin w).1 Hne) as (t' & _ & Hin).
      rewrite Hnil in Hin. apply elem_of_nil in Hin. contradiction.
Qed.

Lemma filter_notin_app (ks : list string) (p : string) (l : list string) :
  filter (λ x, x ∉ (ks ++ [p])%list) l = filter (λ x, x ∉ ks) (filter (λ x, x ≠ p) l).
Proof.
  induction l as [|x l IH]; [reflexivity|].
  rewrite (filter_cons (λ x, x ≠ p)).
  destruct (decide (x ≠ p)) as [Hne|Heq].
  - rewrite !filter_cons, IH.
    destruct (decide (x ∉ ks)) as [Hk|Hk].
    + rewrite decide_True; [reflexivity|]. rewrite elem_of_app, list_elem_of_singleton. tauto.
    + rewrite decide_False; [reflexivity|]. rewrite elem_of_app. tauto.
  - apply dec_stable in Heq. subst x.
    rewrite filter_cons_False; [exact IH|].
    rewrite elem_of_app, list_elem_of_singleton. tauto.
Qed.

Lemma filter_notin_drop (ks : list string) (p : string) (l : list string) :
  p ∈ ks ->
  filter (λ x, x ∉ ks) (filter (λ x, x ≠ p) l) = filter (λ x, x ∉ ks) l.
Proof.
  intros Hp. induction l as [|x l IH]; [reflexivity|].
  rewrite (filter_cons (λ x, x ≠ p)).
  destruct (decide (x ≠ p)) as [Hne|Heq].
  - rewrite !filter_cons, IH. reflexivity.
  - apply dec_stable in Heq. subst x. rewrite IH.
    rewrite filter_cons_False; [reflexivity|]. tauto.
Qed.

Lemma map_set_keys_list key e m :
  (map_set key e m).*1 = if decide (key ∈ m.*1) then m.*1 else (m.*1 ++ [key])%list.
Proof.
  induction m as [|[k v] rest IH]; [reflexivity|].
  rewrite map_set_cons, !fmap_cons. simpl.
  destruct (decide (k = key)) as [->|Hne].
  - rewrite fmap_cons, decide_True by apply list_elem_of_here. reflexivity.
  - rewrite fmap_cons, IH. simpl.
    destruct (decide (key ∈ rest.*1)) as [Hin|Hin].
    + rewrite decide_True by (apply list_elem_of_further, Hin). reflexivity.
    + rewrite decide_False; [reflexivity|].
      rewrite elem_of_cons. intros [?|?]; [congruence|contradiction].
Qed.

Lemma setAll_keys events m :
  (setAll events m).*1
  = (m.*1 ++ filter (λ p, p ∉ m.*1) (firstOccurrences (ev_path <$> events)))%list.
Proof.
  revert m. induction events as [|e events IH]; intros m.
  - simpl. rewrite app_nil_r. reflexivity.
  - change (setAll (e :: events) m) with (setAll events (map_set (ev_path e) e m)).
    rewrite IH, map_set_keys_list, fmap_cons. simpl firstOccurrences.
    destruct (decide (ev_path e ∈ m.*1)) as [Hin|Hin].
    + rewrite filter_cons_False by tauto.
      rewrite filter_notin_drop by assumption. reflexivity.
    + rewrite filter_cons_True by assumption.
      rewrite filter_notin_app, <- app_assoc. reflexivity.
Qed.

(** [X17] A batch lists the paths in the order of their first arrival:
    starting from an empty map, the paths of the batch fired after a
    window are the distinct paths of the queued events, each in the
    place of its first event (while the event kept for it is its last
    one). *)
Theorem batch_keeps_first_arrival_order :
  forall (w : InotifyWatcher) (events : list FileChangeEvent),
    pendingEvents w = [] ->
    events <> [] ->
    exists (t : TimerId) (batch : list FileChangeEvent),
      debounceTimer (queueAll events w) = Some t /\
      batches (timerFires t (queueAll events w)).2 = [batch] /\
      ev_path <$> batch = firstOccurrences (ev_path <$> events).
Proof.
  intros w events Hp Hne.
  destruct (queueAll_arms_timer events w Hne) as (t & Ht & Hin).
  assert (Hwf : wellFormed (pendingEvents (queueAll events w))).
  { rewrite pendingEvents_queueAll, Hp. apply wellFormed_setAll, wellFormed_nil. }
  exists t, (map_values (pendingEvents (queueAll events w))).
  split; [exact Ht|].
  assert (Hpaths : ev_path <$> map_values (pendingEvents (queueAll events w))
                   = firstOccurrences (ev_path <$> events)).
  { rewrite (wellFormed_paths _ Hwf), pendingEvents_queueAll, Hp, setAll_keys. simpl.
    generalize (firstOccurrences (ev_path <$> events)) as l.
    induction l as [|x l IH]; [reflexivity|].
    rewrite filter_cons_True by apply not_elem_of_nil. rewrite IH. reflexivity. }
  split; [|exact Hpaths].
  unfold timerFires. rewrite decide_True by assumption.
  match goal with |- context [flushEvents ?w'] =>
    destruct (flush_of_debounced w' Hwf) as (_ & _ & _ & _ & Hb) end.
  rewrite Hb. simpl. rewrite decide_False; [reflexivity|].
  intros Hnil. rewrite Hnil in Hpaths. simpl in Hpaths.
  destruct events; [contradiction | discriminate Hpaths].
Qed.

Lemma batch_keeps_first_arrival_order_witness :
  pendingEvents Watcher.new = [] /\
  Samples.windowEvents <> [] /\
  exists (t : TimerId) (batch : list FileChangeEvent),
    debounceTimer (queueAll Samples.windowEvents Watcher.new) = Some t /\
    batches (timerFires t (queueAll Samples.windowEvents Watcher.new)).2 = [batch] /\
    ev_path <$> batch = firstOccurrences (ev_path <$> Samples.windowEvents).
Proof.
  assert (H1 : pendingEvents Watcher.new = []) by reflexivity.
  assert (H2 : Samples.windowEvents <> []) by (simpl; discriminate).
  split; [exact H1|]. split; [exact H2|].
  exact (batch_keeps_first_arrival_order Watcher.new Samples.windowEvents H1 H2).
Defined.

End WatcherRuns.

(** ** The credential store *)

Section CredentialStore.

Import Credentials CredentialStore.

Implicit Types (secretStorage : gmap string string).

(** [X18] The store round-trips: after [setPassword] for a host and
    user, [getPassword] for them returns that password and
    [hasPassword] is true; after [deletePassword], [getPassword]
    returns null and [hasPassword] is false; and both leave the entry of
    every other key as it was. *)
Theorem password_store_round_trip :
  forall (host user password : string) (secretStorage : gmap string string),
    (getPassword host user (setPassword host user password secretStorage).1).1
    = Some password /\
    hasPassword host user (setPassword host user password secretStorage).1 = true /\
    (getPassword host user (deletePassword host user secretStorage).1).1 = None /\
    hasPassword host user (deletePassword host user secretStorage).1 = false /\
    (forall host' user',
        getSecretKey host' user' <> getSecretKey host user ->
        (getPassword host' user' (setPassword host user password secretStorage).1).1
        = (getPassword host' user' secretStorage).1 /\
        (getPassword host' user' (deletePassword host user secretStorage).1).1
        = (getPassword host' user' secretStorage).1).
Proof.
  intros host user password secretStorage.
  unfold hasPassword, getPassword, setPassword, deletePassword. simpl.
  rewrite lookup_insert_eq, lookup_delete_eq.
  repeat split.
  - rewrite lookup_insert_ne by congruence. reflexivity.
  - rewrite lookup_delete_ne by congruence. reflexivity.
Qed.

Lemma append_nil_l (s : string) : "" ++ s = s.
Proof. reflexivity. Qed.

Lemma append_cons (c : Ascii.ascii) (a b : string) : String c a ++ b = String c (a ++ b).
Proof. reflexivity. Qed.

Lemma user_at_host_inj (user user' host host' : string) :
  hasAt user = false ->
  hasAt user' = false ->
  user ++ "@" ++ host = user' ++ "@" ++ host' ->
  user = user' /\ host = host'.
Proof.
  revert user'. induction user as [|c user IH]; intros [|c' user'] Hu Hu' Heq;
    repeat (rewrite append_nil_l in Heq || rewrite append_cons in Heq);
    simpl in Hu, Hu'.
  - injection Heq as ->. auto.
  - injection Heq as <- _. rewrite bool_decide_eq_true_2 in Hu' by reflexivity. discriminate.
  - injection Heq as -> _. rewrite bool_decide_eq_true_2 in Hu by reflexivity. discriminate.
  - injection Heq as -> Heq.
    apply orb_false_iff in Hu as [_ Hu]. apply orb_false_iff in Hu' as [_ Hu'].
    destruct (IH user' Hu Hu' Heq) as [-> ->]. auto.
Qed.

(** [X19] Passwords of different accounts do not mix as long as user
    names hold no [@]: then two host and user pairs with the same
    storage key are the same pair, so storing a password for one account
    never changes what is read for another. *)
Theorem accounts_do_not_share_keys :
  forall (host user host' user' password : string) (secretStorage : gmap string string),
    hasAt user = false ->
    hasAt user' = false ->
    (host, user) <> (host', user') ->
    getSecretKey host user <> getSecretKey host' user' /\
    (getPassword host' user' (setPassword host user password secretStorage).1).1
    = (getPassword host' user' secretStorage).1.
Proof.
  intros host user host' user' password secretStorage Hu Hu' Hne.
  assert (Hkey : getSecretKey host user <> getSecretKey host' user').
  { unfold getSecretKey. intros Heq. apply Hne.
    apply (inj (String.app SECRET_KEY_PREFIX)) in Heq.
    apply (inj (String.app ".")) in Heq.
    destruct (user_at_host_inj _ _ _ _ Hu Hu' Heq) as [-> ->]. reflexivity. }
  split; [exact Hkey|].
  unfold getPassword, setPassword. simpl.
  rewrite lookup_insert_ne by exact Hkey. reflexivity.
Qed.

Lemma accounts_do_not_share_keys_witness :
  hasAt "deploy" = false /\
  hasAt "root" = false /\
  ("prod.example.com", "deploy") <> ("prod.example.com", "root") /\
  getSecretKey "prod.example.com" "deploy" <> getSecretKey "prod.example.com" "root" /\
  (getPassword "prod.example.com" "root"
     (setPassword "prod.example.com" "deploy" "s3cret" ∅).1).1
  = (getPassword "prod.example.com" "root" ∅).1.
Proof.
  assert (H1 : hasAt "deploy" = false) by reflexivity.
  assert (H2 : hasAt "root" = false) by reflexivity.
  assert (H3 : ("prod.example.com", "deploy") <> ("prod.example.com", "root"))
    by discriminate.
  split; [exact H1|]. split; [exact H2|]. split; [exact H3|].
  exact (accounts_do_not_share_keys "prod.example.com" "deploy"
           "prod.example.com" "root" "s3cret" ∅ H1 H2 H3).
Defined.

(** With an [@] in a user name two accounts can meet on one key. *)
Lemma accounts_with_at_share_a_key :
  getSecretKey "example.org" "alice@dev" = getSecretKey "dev@example.org" "alice".
Proof. reflexivity. Qed.

(** [X20] [getOrPromptPassword] asks the operator only when it has to:
    with a non-empty password stored for the account it returns that
    password, shows no dialog and leaves the storage as it is; with
    nothing stored, or an empty string stored, it goes on to
    [promptForPassword]. *)
Theorem stored_password_is_used_without_prompt :
  forall (operator : Operator) (host user : string) (secretStorage : gmap string string),
    match secretStorage !! getSecretKey host user with
    | Some stored =>
        if decide (stored = "")
        then (getOrPromptPassword operator host user secretStorage).1
             = (promptForPassword operator host user secretStorage).1
        else (getOrPromptPassword operator host user secretStorage).1
             = (Some stored, secretStorage) /\
             showedDialog (getOrPromptPassword operator host user secretStorage).2 = false
    | None =>
        (getOrPromptPassword operator host user secretStorage).1
        = (promptForPassword operator host user secretStorage).1 /\
        (getOrPromptPassword operator host user secretStorage).2
        = (promptForPassword operator host user secretStorage).2
    end.
Proof.
  intros operator host user secretStorage.
  unfold getOrPromptPassword, getPassword.
  destruct (secretStorage !! getSecretKey host user) as [stored|]; simpl.
  - destruct (decide (stored = "")) as [->|Hne]; simpl.
    + destruct (promptForPassword _ _ _ _) as [[r st] said]. reflexivity.
    + split; reflexivity.
  - destruct (promptForPassword _ _ _ _) as [[r st] said]. split; reflexivity.
Qed.

(** [X21] A password is saved exactly on the operator's explicit yes:
    when a non-empty password is submitted and "Yes, save password" is
    picked, the next [getOrPromptPassword] for the account returns it
    without any dialog, whoever the operator is; with any other pick, or
    the pick dismissed, the secret storage is left untouched. *)
Theorem password_is_saved_only_on_yes :
  forall (operator next : Operator) (host user password : string)
         (secretStorage : gmap string string),
    submits operator = Some password ->
    password <> "" ->
    let after := (promptForPassword operator host user secretStorage).1.2 in
    if decide (picks operator = Some "Yes, save password")
    then (getOrPromptPassword next host user after).1 = (Some password, after) /\
         showedDialog (getOrPromptPassword next host user after).2 = false
    else after = secretStorage /\
         wroteSecret (promptForPassword operator host user secretStorage).2 = false.
Proof.
  intros operator next host user password secretStorage Hsub Hne after. subst after.
  unfold promptForPassword. rewrite Hsub.
  destruct (decide (password = "")) as [?|_]; [contradiction|].
  destruct (decide (picks operator = Some "Yes, save password")) as [Hyes|Hno]; simpl.
  - unfold getOrPromptPassword, getPassword. simpl. rewrite lookup_insert_eq. simpl.
    destruct (decide (password = "")) as [?|_]; [contradiction|]. split; reflexivity.
  - split; reflexivity.
Qed.

Lemma password_is_saved_only_on_yes_witness :
  submits Cases.savingOperator = Some "s3cret" /\
  "s3cret" <> "" /\
  let after :=
    (promptForPassword Cases.savingOperator "prod.example.com" "deploy" ∅).1.2 in
  if decide (picks Cases.savingOperator = Some "Yes, save password")
  then (getOrPromptPassword Cases.absentOperator "prod.example.com" "deploy" after).1
       = (Some "s3cret", after) /\
       showedDialog
         (getOrPromptPassword Cases.absentOperator "prod.example.com" "deploy" after).2
       = false
  else after = ∅ /\
       wroteSecret
         (promptForPassword Cases.savingOperator "prod.example.com" "deploy" ∅).2
       = false.
Proof.
  assert (H1 : submits Cases.savingOperator = Some "s3cret") by reflexivity.
  assert (H2 : "s3cret" <> "") by discriminate.
  split; [exact H1|]. split; [exact H2|].
  exact (password_is_saved_only_on_yes Cases.savingOperator Cases.absentOperator
           "prod.example.com" "deploy" "s3cret" ∅ H1 H2).
Defined.

End CredentialStore.

(** ** The profile list *)

Section Config.

Import Config.

Implicit Types (profiles : list Profile) (p : Profile).

Lemma addProfile_nil p : (addProfile p []).1 = [p].
Proof. reflexivity. Qed.

Lemma addProfile_cons p q profiles :
  (addProfile p (q :: profiles)).1
  = if decide (alias q = alias p) then p :: profiles
    else q :: (addProfile p profiles).1.
Proof.
  unfold addProfile. simpl. destruct (decide (alias q = alias p)); [reflexivity|].
  destruct (findIndex (alias p) profiles); reflexivity.
Qed.

Lemma getProfile_cons wanted q profiles :
  getProfile wanted (q :: profiles)
  = if decide (alias q = wanted) then Some q else getProfile wanted profiles.
Proof. reflexivity. Qed.

Lemma getProfile_add_same p profiles :
  getProfile (alias p) (addProfile p profiles).1 = Some p.
Proof.
  induction profiles as [|q rest IH].
  - rewrite addProfile_nil, getProfile_cons, decide_True by reflexivity. reflexivity.
  - rewrite addProfile_cons. destruct (decide (alias q = alias p)) as [Heq|Hne].
    + rewrite getProfile_cons, decide_True by reflexivity. reflexivity.
    + rewrite getProfile_cons, decide_False by assumption. exact IH.
Qed.

Lemma getProfile_add_other p profiles wanted :
  wanted <> alias p ->
  getProfile wanted (addProfile p profiles).1 = getProfile wanted profiles.
Proof.
  intros Hw. induction profiles as [|q rest IH].
  - rewrite addProfile_nil, getProfile_cons, decide_False by congruence. reflexivity.
  - rewrite addProfile_cons. destruct (decide (alias q = alias p)) as [Heq|Hne].
    + rewrite !getProfile_cons, !decide_False by congruence. reflexivity.
    + rewrite !getProfile_cons, IH. reflexivity.
Qed.

Lemma aliases_add p profiles :
  alias <$> (addProfile p profiles).1
  = if decide (alias p ∈ alias <$> profiles) then alias <$> profiles
    else ((alias <$> profiles) ++ [alias p])%list.
Proof.
  induction profiles as [|q rest IH]; [reflexivity|].
  rewrite addProfile_cons, (fmap_cons alias q rest).
  destruct (decide (alias q = alias p)) as [Heq|Hne].
  - rewrite decide_True by (rewrite Heq; apply list_elem_of_here).
    rewrite fmap_cons. congruence.
  - rewrite fmap_cons, IH.
    destruct (decide (alias p ∈ alias <$> rest)) as [Hin|Hin].
    + rewrite decide_True by (apply list_elem_of_further, Hin). reflexivity.
    + rewrite decide_False; [reflexivity|].
      rewrite elem_of_cons. intros [?|?]; [congruence|contradiction].
Qed.

(** [X22] [addProfile] is an upsert on the alias: afterwards
    [getProfile] of that alias returns the profile just added, the
    lookup of every other alias is as before, and the list of aliases is
    the old one, with the new alias appended only if it was not there;
    so aliases that were distinct stay distinct. *)
Theorem addProfile_then_getProfile :
  forall (p : Profile) (profiles : list Profile),
    getProfile (alias p) (addProfile p profiles).1 = Some p /\
    (forall wanted, wanted <> alias p ->
        getProfile wanted (addProfile p profiles).1 = getProfile wanted profiles) /\
    alias <$> (addProfile p profiles).1
    = (if decide (alias p ∈ alias <$> profiles) then alias <$> profiles
       else ((alias <$> profiles) ++ [alias p])%list) /\
    (NoDup (alias <$> profiles) -> NoDup (alias <$> (addProfile p profiles).1)).
Proof.
  intros p profiles. split; [apply getProfile_add_same|].
  split; [intros; apply getProfile_add_other; assumption|].
  split; [apply aliases_add|].
  intros Hnd. rewrite aliases_add. case_decide as Hin; [exact Hnd|].
  apply NoDup_app. split; [exact Hnd|]. split; [|apply NoDup_singleton].
  intros x Hx Hx'. apply list_elem_of_singleton in Hx'. congruence.
Qed.

Lemma getProfile_None wanted profiles :
  getProfile wanted profiles = None <-> wanted ∉ alias <$> profiles.
Proof.
  induction profiles as [|q rest IH].
  - split; [intros _; apply not_elem_of_nil | reflexivity].
  - rewrite getProfile_cons, fmap_cons, not_elem_of_cons.
    destruct (decide (alias q = wanted)) as [Heq|Hne].
    + split; [discriminate | intros [? _]; congruence].
    + rewrite IH. split; [intros ?; split; [congruence|assumption] | tauto].
Qed.

Lemma deleteProfile_nil wanted : (deleteProfile wanted []).1 = (false, []).
Proof. reflexivity. Qed.

Lemma deleteProfile_cons wanted q profiles :
  (deleteProfile wanted (q :: profiles)).1
  = if decide (alias q = wanted) then (true, profiles)
    else ((deleteProfile wanted profiles).1.1, q :: (deleteProfile wanted profiles).1.2).
Proof.
  unfold deleteProfile. simpl. destruct (decide (alias q = wanted)); [reflexivity|].
  destruct (findIndex wanted profiles); reflexivity.
Qed.

Lemma deleteProfile_facts wanted profiles :
  ((deleteProfile wanted profiles).1.1 = false <-> getProfile wanted profiles = None) /\
  (if (deleteProfile wanted profiles).1.1
   then S (length (deleteProfile wanted profiles).1.2) = length profiles
   else (deleteProfile wanted profiles).1.2 = profiles) /\
  (forall other, other <> wanted ->
      getProfile other (deleteProfile wanted profiles).1.2 = getProfile other profiles) /\
  (NoDup (alias <$> profiles) ->
   getProfile wanted (deleteProfile wanted profiles).1.2 = None).
Proof.
  induction profiles as [|q rest (IH1 & IH2 & IH3 & IH4)].
  - rewrite deleteProfile_nil. simpl. repeat split; reflexivity.
  - rewrite deleteProfile_cons, getProfile_cons.
    destruct (decide (alias q = wanted)) as [Heq|Hne]; cbn [fst snd].
    + split; [split; discriminate|]. split; [reflexivity|]. split.
      * intros other Ho. rewrite getProfile_cons, decide_False by congruence. reflexivity.
      * intros Hnd. rewrite fmap_cons in Hnd. apply NoDup_cons in Hnd as [Hq _].
        apply getProfile_None. rewrite <- Heq. exact Hq.
    + split; [exact IH1|]. split.
      * destruct ((deleteProfile wanted rest).1.1); simpl; congruence.
      * split.
        -- intros other Ho. rewrite !getProfile_cons, IH3 by assumption. reflexivity.
        -- intros Hnd. rewrite fmap_cons in Hnd. apply NoDup_cons in Hnd as [_ Hnd].
           rewrite getProfile_cons, decide_False by assumption. apply IH4, Hnd.
Qed.

(** What is spliced out is the first profile of the alias. *)
Lemma deleteProfile_splice wanted profiles :
  (deleteProfile wanted profiles).1.1 = true ->
  exists before removed after,
    profiles = (before ++ removed :: after)%list /\
    alias removed = wanted /\
    Forall (λ q, alias q <> wanted) before /\
    (deleteProfile wanted profiles).1.2 = (before ++ after)%list.
Proof.
  induction profiles as [|q rest IH].
  - rewrite deleteProfile_nil. discriminate.
  - rewrite deleteProfile_cons.
    destruct (decide (alias q = wanted)) as [Heq|Hne]; cbn [fst snd].
    + intros _. exists [], q, rest. repeat split; [exact Heq | constructor].
    + intros Hok. destruct (IH Hok) as (before & removed & after & -> & Ha & Hb & ->).
      exists (q :: before), removed, after.
      repeat split; [exact Ha | constructor; assumption].
Qed.

(** [X23] [deleteProfile] answers [false], and changes nothing, exactly
    when no profile has the alias; otherwise it removes one profile, the
    first of that alias -- the profiles before it, none of that alias,
    and the profiles after it stay as they are and in their order -- and
    the lookup of every other alias is as before. When the aliases are
    distinct the alias is gone afterwards. *)
Theorem deleteProfile_removes_first_match :
  forall (wanted : string) (profiles : list Profile),
    ((deleteProfile wanted profiles).1.1 = false <->
     getProfile wanted profiles = None) /\
    (if (deleteProfile wanted profiles).1.1
     then exists before removed after,
            profiles = (before ++ removed :: after)%list /\
            alias removed = wanted /\
            Forall (λ q, alias q <> wanted) before /\
            (deleteProfile wanted profiles).1.2 = (before ++ after)%list
     else (deleteProfile wanted profiles).1.2 = profiles) /\
    (forall other, other <> wanted ->
        getProfile other (deleteProfile wanted profiles).1.2 = getProfile other profiles) /\
    (NoDup (alias <$> profiles) ->
     getProfile wanted (deleteProfile wanted profiles).1.2 = None).
Proof.
  intros wanted profiles.
  destruct (deleteProfile_facts wanted profiles) as (H1 & H2 & H3 & H4).
  split; [exact H1|]. split; [|split; assumption].
  destruct ((deleteProfile wanted profiles).1.1) eqn:Hok; [|exact H2].
  apply deleteProfile_splice, Hok.
Qed.

End Config.

(** ** Sessions of the orchestrator *)

Section Sessions.

Import Job Strategy Orchestrator Client Sessions.

Implicit Types (o : SyncOrchestrator) (m : SyncStateMachine).

Lemma stop_resets o :
  _state (stateMachine (stop o).1) = idle /\
  _profile (stateMachine (stop o).1) = None /\
  _lastError (stateMachine (stop o).1) = None /\
  _retryCount (stateMachine (stop o).1) = 0 /\
  maxRetries (stateMachine (stop o).1) = maxRetries (stateMachine o) /\
  watcherSubscription (stop o).1 = false /\
  recoveryTimeout (stop o).1 = None /\
  inFlight (stop o).1 = inFlight o /\
  rsyncRequests (stop o).2 = [].
Proof.
  unfold stop, clearRecoveryTimeout, reset.
  destruct o as [[s p e n mx] sub [t|] ts nt fl]; simpl;
    repeat split; destruct (decide (s ≠ idle)); reflexivity.
Qed.

(** Where [start] stands once it has stopped what was running. *)
Lemma start_begins_idle o :
  exists o1 said0,
    (if isActive (stateMachine o) || bool_decide (_state (stateMachine o) = error)
     then stop o else (o, [])) = (o1, said0) /\
    _state (stateMachine o1) = idle /\
    inFlight o1 = inFlight o /\
    rsyncRequests said0 = [].
Proof.
  destruct (isActive _ || _) eqn:Hact.
  - destruct (stop_resets o) as (? & _ & _ & _ & _ & _ & _ & ? & ?).
    exists (stop o).1, (stop o).2. destruct (stop o); auto.
  - exists o, []. apply inactive_and_sound_is_idle in Hact. auto.
Qed.

Lemma rsyncRequests_app said1 said2 :
  rsyncRequests (said1 ++ said2) = (rsyncRequests said1 ++ rsyncRequests said2)%list.
Proof. apply omap_app. Qed.

(** [start(profile)] run in one piece, from whatever state: when
    validation, the two tool checks and the connection test all pass, it
    leaves one new job in flight, with the machine in [connecting] and
    holding the profile; when any of them fails it rejects with a
    message, reports it as a recoverable error and ends in [error]. *)
Lemma start_run_in_one_piece :
  forall (profile : Profile) (env : StartEnv) (jobId : string) (now : Date)
         (o : SyncOrchestrator),
    let r := start profile env jobId now o in
    if allClear env
    then r.1.1 = Returned () /\
         _state (stateMachine r.1.2) = connecting /\
         _profile (stateMachine r.1.2) = Some profile /\
         inFlight r.1.2
         = ((Job.start now (createFullSyncJob now jobId profile)).2,
            AwaitedByStart profile) :: inFlight o /\
         rsyncRequests r.2 = [fullRequest jobId profile]
    else (exists message,
             r.1.1 = Threw message /\ ErrorEvent message true ∈ r.2) /\
         _state (stateMachine r.1.2) = error /\
         inFlight r.1.2 = inFlight o /\
         rsyncRequests r.2 = [].
Proof.
  intros profile env jobId now o r. subst r. unfold start.
  destruct (start_begins_idle o) as (o1 & said0 & -> & Hs & Hfl & Hreq).
  rewrite <- Hfl. clear Hfl.
  destruct o1 as [[s p e n mx] sub rt ts nt fl]; simpl in Hs; subst s.
  unfold allClear, transitionTo, transition, start_try, start_catch; simpl.
  destruct env as [[valid errs] rsync inotify [conn connError]]; simpl.
  destruct valid, rsync, inotify, conn; simpl;
    unfold transitionTo, transition, context_error; simpl;
    repeat case_decide; simpl;
    rewrite ?rsyncRequests_app, ?Hreq; simpl;
    repeat split; try reflexivity;
    eexists; (split; [reflexivity|]);
    rewrite !elem_of_app, !elem_of_cons;
    repeat match goal with |- _ \/ _ => first [left; reflexivity | right] end.
Qed.

(** [X26] Start-up end to end: on a new orchestrator, [start(profile)]
    with every check passing, followed by the success of the initial
    transfer, goes idle, initializing, connecting, watching; it starts
    one full job, hands it to the client once, reports it completed
    once, and only then starts the watcher on the profile's local
    directory with the profile's exclude patterns and a 200 ms window.
    It ends in [watching] with counter 0, subscribed, nothing in
    flight. *)
Theorem startup_runs_one_full_sync_then_watches :
  forall (profile : Profile) (env : StartEnv) (jobId : string) (now later : Date)
         (result : SyncResult),
    allClear env = true ->
    success result = true ->
    let r := run [StartCalled profile env jobId now;
                  TransferSettles 0 (Resolved result) later] Orchestrator.new in
    milestones r.2
    = [Changed idle initializing;
       Changed initializing connecting;
       Started jobId full [];
       Transfer (fullRequest jobId profile);
       Completed jobId;
       Changed connecting watching;
       WatcherStarted {| targetPath := localDir profile;
                         excludePatterns := exclude profile;
                         debounceMs := 200 |}] /\
    _state (stateMachine r.1) = watching /\
    _retryCount (stateMachine r.1) = 0 /\
    _profile (stateMachine r.1) = Some profile /\
    watcherSubscription r.1 = true /\
    inFlight r.1 = [].
Proof.
  intros profile env jobId now later result Hclear Hok r. subst r.
  destruct env as [[valid errs] rsync inotify [conn connError]].
  unfold allClear in Hclear. simpl in Hclear.
  destruct valid, rsync, inotify, conn; try discriminate Hclear.
  simpl. unfold start_resume, sync_resume. repeat (rewrite Hok; simpl). repeat split.
Qed.

Lemma startup_runs_one_full_sync_then_watches_witness :
  allClear Samples.allGood = true /\
  success (Samples.transferred "sync_1") = true /\
  _state (stateMachine Samples.watchingOrchestrator) = watching /\
  inFlight Samples.watchingOrchestrator = [].
Proof.
  assert (H1 : allClear Samples.allGood = true) by reflexivity.
  assert (H2 : success (Samples.transferred "sync_1") = true) by reflexivity.
  split; [exact H1|]. split; [exact H2|].
  pose proof (startup_runs_one_full_sync_then_watches Samples.profile Samples.allGood
                "sync_1" 1%N 2%N (Samples.transferred "sync_1") H1 H2) as H.
  exact (conj (proj1 (proj2 H)) (proj2 (proj2 (proj2 (proj2 (proj2 H)))))).
Defined.

(** [X27] A batch while watching, end to end: the orchestrator reports
    the changed paths, goes to [syncing], starts one incremental job
    that carries exactly the paths of the batch and hands it to the
    client once; when that transfer succeeds the job is reported
    completed and the machine is back in [watching] with counter 0, the
    jobs in flight being those from before. *)
Theorem batch_is_synced_and_watching_resumes :
  forall (o : SyncOrchestrator) (profile : Profile) (events : list FileChangeEvent)
         (jobId : string) (now later : Date) (result : SyncResult),
    _state (stateMachine o) = watching ->
    _profile (stateMachine o) = Some profile ->
    watcherSubscription o = true ->
    success result = true ->
    let r := run [ChangeBatch events jobId now;
                  TransferSettles 0 (Resolved result) later] o in
    milestones r.2
    = [Files (ev_path <$> events);
       Changed watching syncing;
       Started jobId incremental (ev_path <$> events);
       Transfer (batchRequest jobId profile (ev_path <$> events));
       Completed jobId;
       Changed syncing watching] /\
    _state (stateMachine r.1) = watching /\
    _retryCount (stateMachine r.1) = 0 /\
    _profile (stateMachine r.1) = Some profile /\
    inFlight r.1 = inFlight o.
Proof.
  intros o profile events jobId now later result Hs Hp Hsub Hok r. subst r.
  destruct o as [[s p e n mx] sub rt ts nt fl]; simpl in Hs, Hp, Hsub. subst s p sub.
  simpl. change (map ev_path events) with (ev_path <$> events).
  destruct (ev_path <$> events) as [|path paths] eqn:Hpaths;
    simpl; unfold handleFileChanges_resume, sync_resume; repeat (rewrite Hok; simpl);
    repeat split.
Qed.

Lemma batch_is_synced_and_watching_resumes_witness :
  _state (stateMachine Samples.watchingOrchestrator) = watching /\
  _profile (stateMachine Samples.watchingOrchestrator) = Some Samples.profile /\
  watcherSubscription Samples.watchingOrchestrator = true /\
  success (Samples.transferred "sync_2") = true /\
  _state (stateMachine
            (run [ChangeBatch Samples.windowEvents "sync_2" 3%N;
                  TransferSettles 0 (Resolved (Samples.transferred "sync_2")) 4%N]
               Samples.watchingOrchestrator).1) = watching.
Proof.
  assert (H1 : _state (stateMachine Samples.watchingOrchestrator) = watching)
    by reflexivity.
  assert (H2 : _profile (stateMachine Samples.watchingOrchestrator)
               = Some Samples.profile) by reflexivity.
  assert (H3 : watcherSubscription Samples.watchingOrchestrator = true)
    by reflexivity.
  assert (H4 : success (Samples.transferred "sync_2") = true) by reflexivity.
  split; [exact H1|]. split; [exact H2|]. split; [exact H3|]. split; [exact H4|].
  exact (proj1 (proj2 (batch_is_synced_and_watching_resumes
                         Samples.watchingOrchestrator Samples.profile
                         Samples.windowEvents "sync_2" 3%N 4%N
                         (Samples.transferred "sync_2") H1 H2 H3 H4))).
Defined.

(** [X28] A failed sync, end to end: when the transfer of a batch fails
    and the retry budget is not used up, the failure is reported for the
    job, the machine goes to [error] and straight on to [recovering]
    with the counter raised by one and a recovery timeout set, and no
    error event is emitted; when that timeout comes due the machine
    re-enters [watching] with counter 0 and the same profile, without
    any job started or anything handed to the client in between. *)
Theorem failed_sync_recovers_into_watching :
  forall (o : SyncOrchestrator) (profile : Profile) (events : list FileChangeEvent)
         (jobId : string) (now later : Date) (result : SyncResult),
    _state (stateMachine o) = watching ->
    _profile (stateMachine o) = Some profile ->
    watcherSubscription o = true ->
    _retryCount (stateMachine o) < maxRetries (stateMachine o) ->
    success result = false ->
    let failing := run [ChangeBatch events jobId now;
                        TransferSettles 0 (Resolved result) later] o in
    let recovered := step (RecoveryTimerFires (nextTimer o)) failing.1 in
    milestones failing.2
    = [Files (ev_path <$> events);
       Changed watching syncing;
       Started jobId incremental (ev_path <$> events);
       Transfer (batchRequest jobId profile (ev_path <$> events));
       Failed jobId (join "; " (errors result));
       Changed syncing error;
       Changed error recovering] /\
    _state (stateMachine failing.1) = recovering /\
    _retryCount (stateMachine failing.1) = S (_retryCount (stateMachine o)) /\
    recoveryTimeout failing.1 = Some (nextTimer o) /\
    milestones recovered.2 = [Changed recovering watching] /\
    _state (stateMachine recovered.1) = watching /\
    _retryCount (stateMachine recovered.1) = 0 /\
    _profile (stateMachine recovered.1) = Some profile.
Proof.
  intros o profile events jobId now later result Hs Hp Hsub Hlt Hfail failing recovered.
  subst failing recovered.
  destruct o as [[s p e n mx] sub rt ts nt fl]; simpl in Hs, Hp, Hsub, Hlt. subst s p sub.
  simpl. change (map ev_path events) with (ev_path <$> events).
  assert (Hretry : bool_decide (n < mx) = true) by (apply bool_decide_eq_true_2, Hlt).
  destruct (ev_path <$> events) as [|path paths] eqn:Hpaths;
    simpl; unfold handleFileChanges_resume, sync_resume; repeat (rewrite Hfail; simpl);
    unfold handleFileChanges_catch, transitionTo, transition, canRetry, context_error,
      scheduleRecovery, clearRecoveryTimeout; simpl;
    destruct (decide (join "; " (errors result) = "")); simpl;
    rewrite Hretry; simpl; destruct rt; simpl;
    unfold recoveryTimerFires; simpl;
    (rewrite decide_True by (rewrite elem_of_app, list_elem_of_singleton; auto));
    unfold recoveryCallback, transitionTo, transition; simpl; repeat split.
Qed.

Lemma failed_sync_recovers_into_watching_witness :
  _state (stateMachine Samples.watchingOrchestrator) = watching /\
  _profile (stateMachine Samples.watchingOrchestrator) = Some Samples.profile /\
  watcherSubscription Samples.watchingOrchestrator = true /\
  _retryCount (stateMachine Samples.watchingOrchestrator)
  < maxRetries (stateMachine Samples.watchingOrchestrator) /\
  success (Samples.failedTransfer "sync_2") = false /\
  _state (stateMachine
            (run [ChangeBatch Samples.windowEvents "sync_2" 3%N;
                  TransferSettles 0 (Resolved (Samples.failedTransfer "sync_2")) 4%N]
               Samples.watchingOrchestrator).1) = recovering.
Proof.
  assert (H1 : _state (stateMachine Samples.watchingOrchestrator) = watching)
    by reflexivity.
  assert (H2 : _profile (stateMachine Samples.watchingOrchestrator)
               = Some Samples.profile) by reflexivity.
  assert (H3 : watcherSubscription Samples.watchingOrchestrator = true)
    by reflexivity.
  assert (H4 : _retryCount (stateMachine Samples.watchingOrchestrator)
               < maxRetries (stateMachine Samples.watchingOrchestrator))
    by (vm_compute; lia).
  assert (H5 : success (Samples.failedTransfer "sync_2") = false) by reflexivity.
  split; [exact H1|]. split; [exact H2|]. split; [exact H3|]. split; [exact H4|].
  split; [exact H5|].
  exact (proj1 (proj2 (failed_sync_recovers_into_watching
                         Samples.watchingOrchestrator Samples.profile
                         Samples.windowEvents "sync_2" 3%N 4%N
                         (Samples.failedTransfer "sync_2") H1 H2 H3 H4 H5))).
Defined.

Lemma evolves_refl m : evolves m m.
Proof. exists []. reflexivity. Qed.

Lemma callAll_app calls1 calls2 m :
  (MachineRuns.callAll (calls1 ++ calls2) m).1
  = (MachineRuns.callAll calls2 (MachineRuns.callAll calls1 m).1).1.
Proof.
  revert m. induction calls1 as [|c calls1 IH]; intros m; [reflexivity|].
  rewrite <- app_comm_cons, !callAll_cons. simpl. apply IH.
Qed.

Lemma evolves_trans m1 m2 m3 : evolves m1 m2 -> evolves m2 m3 -> evolves m1 m3.
Proof.
  intros [calls1 ->] [calls2 ->]. exists (calls1 ++ calls2)%list.
  rewrite callAll_app. reflexivity.
Qed.

Lemma evolves_transitionTo t context o :
  evolves (stateMachine o) (stateMachine (transitionTo t context o).1).
Proof.
  exists [MachineRuns.CallTransition t context]. unfold transitionTo.
  rewrite callAll_cons. simpl. unfold machineAfter.
  destruct (transition (stateMachine o) t context) as [[ok m] said]. reflexivity.
Qed.

Lemma evolves_scheduleRecovery o :
  evolves (stateMachine o) (stateMachine (scheduleRecovery o).1).
Proof.
  unfold scheduleRecovery.
  pose proof (evolves_transitionTo recovering None (clearRecoveryTimeout o)) as H.
  destruct (transitionTo recovering None (clearRecoveryTimeout o)) as [o' said].
  simpl in *. replace (stateMachine (clearRecoveryTimeout o)) with (stateMachine o) in H;
    [exact H|]. unfold clearRecoveryTimeout. destruct (recoveryTimeout o); reflexivity.
Qed.

Lemma evolves_catch message o :
  evolves (stateMachine o) (stateMachine (handleFileChanges_catch message o).1).
Proof.
  unfold handleFileChanges_catch.
  pose proof (evolves_transitionTo error
                (Some {| ctx_profile := None; ctx_error := Some message |}) o) as H1.
  destruct (transitionTo error _ o) as [o1 said1]. simpl in H1.
  destruct (canRetry (stateMachine o1)); [|exact H1].
  pose proof (evolves_scheduleRecovery o1) as H2.
  destruct (scheduleRecovery o1) as [o2 said2]. simpl in *.
  eapply evolves_trans; eassumption.
Qed.

Lemma evolves_handleFileChanges events jobId now o :
  evolves (stateMachine o) (stateMachine (handleFileChanges events jobId now o).1).
Proof.
  unfold handleFileChanges. case_decide; [apply evolves_refl|].
  pose proof (evolves_transitionTo syncing None o) as H1.
  destruct (transitionTo syncing None o) as [o1 said1]. simpl in H1.
  destruct (_profile (stateMachine o1)) as [profile|].
  - destruct (sync_begin now _) as [[job|message] said2]; [exact H1|].
    pose proof (evolves_catch message o1) as H2.
    destruct (handleFileChanges_catch message o1) as [o2 said3]. simpl in *.
    eapply evolves_trans; eassumption.
  - pose proof (evolves_catch "No active profile" o1) as H2.
    destruct (handleFileChanges_catch _ o1) as [o2 said3]. simpl in *.
    eapply evolves_trans; eassumption.
Qed.

Lemma evolves_resume now settled job o :
  evolves (stateMachine o) (stateMachine (handleFileChanges_resume now settled job o).1).
Proof.
  unfold handleFileChanges_resume.
  destruct (sync_resume now settled job) as [[result|message] job'];
    [destruct (success result)|].
  - pose proof (evolves_transitionTo watching None o) as H.
    destruct (transitionTo watching None o) as [o1 said]. exact H.
  - pose proof (evolves_catch (join "; " (errors result)) o) as H.
    destruct (handleFileChanges_catch _ o) as [o1 said]. exact H.
  - apply evolves_catch.
Qed.

Lemma evolves_start_catch message o :
  evolves (stateMachine o) (stateMachine (start_catch message o).1).
Proof.
  unfold start_catch.
  pose proof (evolves_transitionTo error
                (Some {| ctx_profile := None; ctx_error := Some message |}) o) as H.
  destruct (transitionTo error _ o) as [o1 said]. exact H.
Qed.

Lemma evolves_recoveryTimerFires t o :
  evolves (stateMachine o) (stateMachine (recoveryTimerFires t o).1).
Proof.
  unfold recoveryTimerFires, recoveryCallback.
  case_decide; [|apply evolves_refl]. simpl.
  destruct (_profile (stateMachine o)); [|apply evolves_refl].
  match goal with |- context [transitionTo watching None ?o'] =>
    pose proof (evolves_transitionTo watching None o') as Hev;
    destruct (transitionTo watching None o') as [o1 said] end.
  exact Hev.
Qed.

Lemma evolves_keeps m m' :
  evolves m m' ->
  MachineRuns.settled m -> maxRetries m = 3 ->
  MachineRuns.settled m' /\ maxRetries m' = 3.
Proof.
  intros [calls ->] Hs Hm. split; [apply callAll_settled, Hs|].
  rewrite callAll_maxRetries. exact Hm.
Qed.

Lemma reportedExhausted_app said1 said2 :
  reportedExhausted (said1 ++ said2) = reportedExhausted said1 || reportedExhausted said2.
Proof. apply existsb_app. Qed.

(** From [syncing] with the counter at 0 and a budget of 3 the [catch]
    block always schedules a recovery. *)
Lemma catch_schedules_recovery message o :
  _state (stateMachine o) = syncing ->
  _retryCount (stateMachine o) = 0 ->
  maxRetries (stateMachine o) = 3 ->
  reportedExhausted (handleFileChanges_catch message o).2 = false.
Proof.
  destruct o as [[s p e n mx] sub rt ts nt fl]; simpl. intros -> -> ->.
  unfold handleFileChanges_catch, transitionTo, transition, scheduleRecovery,
    clearRecoveryTimeout, canRetry, context_error; simpl.
  destruct (decide (message = "")), rt; reflexivity.
Qed.

Lemma handleFileChanges_quiet events jobId now o :
  MachineRuns.settled (stateMachine o) ->
  maxRetries (stateMachine o) = 3 ->
  reportedExhausted (handleFileChanges events jobId now o).2 = false.
Proof.
  intros [Hr _] Hm. unfold handleFileChanges. case_decide as Hs; [reflexivity|].
  assert (Hn : _retryCount (stateMachine o) = 0) by (apply Hr; congruence).
  destruct o as [[s p e n mx] sub rt ts nt fl]; simpl in *. subst s n mx.
  unfold transitionTo, transition; simpl.
  destruct p as [profile|]; simpl.
  - unfold sync_begin, createIncrementalSyncJob; simpl.
    unfold execute. destruct (selectStrategy _); simpl; [case_decide|]; reflexivity.
  - pose proof (catch_schedules_recovery "No active profile"
        {| stateMachine :=
             {| _state := syncing; _profile := None; _lastError := e;
                _retryCount := 0; maxRetries := 3 |};
           watcherSubscription := sub; recoveryTimeout := rt; timeouts := ts;
           nextTimer := nt; inFlight := fl |} eq_refl eq_refl eq_refl) as H.
    destruct (handleFileChanges_catch _ _) as [o' said]. simpl in *. exact H.
Qed.

Lemma resume_quiet now settled job o :
  _state (stateMachine o) = syncing ->
  _retryCount (stateMachine o) = 0 ->
  maxRetries (stateMachine o) = 3 ->
  reportedExhausted (handleFileChanges_resume now settled job o).2 = false.
Proof.
  intros Hs Hn Hm. unfold handleFileChanges_resume.
  pose proof (fun message => catch_schedules_recovery message o Hs Hn Hm) as Hcatch.
  destruct (sync_resume now settled job) as [[result|message] job'];
    [destruct (success result)|].
  - unfold transitionTo, transition. simpl.
    destruct (negb (canTransitionTo (stateMachine o) watching)); reflexivity.
  - specialize (Hcatch (join "; " (errors result))).
    destruct (handleFileChanges_catch _ o) as [o' said]. exact Hcatch.
  - apply Hcatch.
Qed.

Lemma transitionTo_quiet t context o :
  reportedExhausted (transitionTo t context o).2 = false.
Proof.
  unfold transitionTo, transition.
  destruct (negb (canTransitionTo (stateMachine o) t)); reflexivity.
Qed.

Lemma start_catch_quiet message o : reportedExhausted (start_catch message o).2 = false.
Proof.
  unfold start_catch.
  pose proof (transitionTo_quiet error
                (Some {| ctx_profile := None; ctx_error := Some message |}) o) as H.
  destruct (transitionTo error _ o) as [o1 said]. simpl in *.
  rewrite reportedExhausted_app, H. reflexivity.
Qed.

Lemma recoveryTimerFires_quiet t o : reportedExhausted (recoveryTimerFires t o).2 = false.
Proof.
  unfold recoveryTimerFires, recoveryCallback. case_decide; [|reflexivity]. simpl.
  destruct (_profile (stateMachine o)); [|reflexivity].
  match goal with |- context [transitionTo watching None ?o'] =>
    pose proof (transitionTo_quiet watching None o') as Hq;
    destruct (transitionTo watching None o') as [o1 said] end.
  simpl in *. rewrite reportedExhausted_app, Hq. reflexivity.
Qed.

End Sessions.


(** ** File events built from inotify output *)

Section FileEvents.

Import FileEvents.

Variable toLowerCase : string -> string.

(** [X30] Events built by [FileEvent.fromInotifyEvent] never count as
    moves: whatever the event name (a [MOVED_TO] line too) and whatever
    the runtime's [toLowerCase], the event has no old path, so [isMove]
    is false and [getAffectedPaths] is the one path of the event; the
    old path of a move is never reported. The event is null exactly when
    the event name maps to no change type. *)
Theorem inotify_events_never_count_as_moves :
  forall (now : Date) (eventType path : string),
    match fromInotifyEvent toLowerCase now eventType path with
    | Some e =>
        mapInotifyType toLowerCase eventType = Some (fe_type e) /\
        fe_path e = path /\
        fe_timestamp e = now /\
        isMove e = false /\
        getAffectedPaths e = [path]
    | None => mapInotifyType toLowerCase eventType = None
    end.
Proof.
  intros now eventType path. unfold fromInotifyEvent.
  destruct (mapInotifyType toLowerCase eventType) as [type|]; [|reflexivity].
  unfold isMove, getAffectedPaths. simpl.
  repeat split. apply andb_false_r.
Qed.

End FileEvents.


(** ** The orchestrator, await by await *)

Section Interleaving.

Import Job Strategy Orchestrator Client Sessions Interleaving.

Implicit Types (o : SyncOrchestrator) (s : Session) (m : SyncStateMachine).

Lemma reactAll_cons input inputs s :
  reactAll (input :: inputs) s
  = ((reactAll inputs (react input s).1).1,
     ((react input s).2 ++ (reactAll inputs (react input s).1).2)%list).
Proof.
  simpl. destruct (react input s) as [s1 said1]. simpl.
  destruct (reactAll inputs s1) as [s2 said2]. reflexivity.
Qed.

Lemma reactAll_app inputs1 inputs2 s :
  reactAll (inputs1 ++ inputs2) s
  = ((reactAll inputs2 (reactAll inputs1 s).1).1,
     ((reactAll inputs1 s).2 ++ (reactAll inputs2 (reactAll inputs1 s).1).2)%list).
Proof.
  revert s. induction inputs1 as [|input inputs1 IH]; intros s.
  - simpl. destruct (reactAll inputs2 s). reflexivity.
  - rewrite <- app_comm_cons, !reactAll_cons, IH. simpl.
    rewrite app_assoc. reflexivity.
Qed.

Lemma callsAtRest_app inputs1 inputs2 s :
  callsAtRest (inputs1 ++ inputs2) s
  = callsAtRest inputs1 s && callsAtRest inputs2 (reactAll inputs1 s).1.
Proof.
  revert s. induction inputs1 as [|input inputs1 IH]; intros s; [reflexivity|].
  rewrite <- app_comm_cons, reactAll_cons. simpl. rewrite IH, andb_assoc. reflexivity.
Qed.

Lemma handling_syncing o job :
  inFlight o = [(job, AwaitedByHandler)] ->
  _state (stateMachine o) = syncing ->
  timeouts o = [] ->
  handling o.
Proof. intros; right; left; eauto. Qed.

Lemma handling_recovering o t :
  inFlight o = [] ->
  timeouts o = [t] ->
  recoveryTimeout o = Some t ->
  _state (stateMachine o) = recovering ->
  handling o.
Proof. intros; right; right; eauto. Qed.

Lemma handling_quiet_off_idle o :
  inFlight o = [] -> timeouts o = [] -> _state (stateMachine o) <> idle -> handling o.
Proof. intros; left; repeat split; auto; intros; contradiction. Qed.

Lemma handling_quiet_unsubscribed o :
  inFlight o = [] -> timeouts o = [] -> watcherSubscription o = false -> handling o.
Proof. intros; left; auto. Qed.

Create HintDb handling.

#[local] Hint Resolve handling_quiet_off_idle handling_quiet_unsubscribed
  handling_syncing handling_recovering : handling.
#[local] Hint Extern 1 (_ <> _) => discriminate : handling.

(** The [catch] block of the handler, entered from [syncing] with
    nothing in flight, ends in [error] or in [recovering] with the
    recovery timeout pending. *)
Lemma catch_handling message o :
  _state (stateMachine o) = syncing ->
  inFlight o = [] ->
  timeouts o = [] ->
  handling (handleFileChanges_catch message o).1 /\
  watcherSubscription (handleFileChanges_catch message o).1 = watcherSubscription o.
Proof.
  destruct o as [[st p e n mx] sub rt ts nt fl]; simpl.
  intros -> -> ->.
  unfold handleFileChanges_catch, transitionTo, transition, scheduleRecovery,
    clearRecoveryTimeout, canRetry, context_error; simpl.
  destruct (decide (message = "")), (bool_decide (n < mx)), rt; simpl;
    (split; [eauto with handling | reflexivity]).
Qed.

Lemma handleFileChanges_handling events jobId now o :
  handling o ->
  handling (handleFileChanges events jobId now o).1 /\
  watcherSubscription (handleFileChanges events jobId now o).1 = watcherSubscription o.
Proof.
  intros Hinv. unfold handleFileChanges.
  case_decide as Hs; [split; [exact Hinv | reflexivity]|].
  destruct Hinv as [(Hfl & Hts & _) | [(job & _ & Hsync & _) | (_ & t & _ & _ & Hrec)]];
    [|congruence..].
  destruct o as [[st p e n mx] sub rt ts nt fl]; simpl in *. subst st fl ts.
  unfold transitionTo, transition; simpl.
  destruct p as [profile|]; simpl.
  - unfold sync_begin, createIncrementalSyncJob; simpl.
    split; [eauto with handling | reflexivity].
  - pose proof (catch_handling "No active profile"
        {| stateMachine :=
             {| _state := syncing; _profile := None; _lastError := e;
                _retryCount := n; maxRetries := mx |};
           watcherSubscription := sub; recoveryTimeout := rt; timeouts := [];
           nextTimer := nt; inFlight := [] |} eq_refl eq_refl eq_refl) as H.
    destruct (handleFileChanges_catch _ _) as [o' said]. exact H.
Qed.

Lemma resume_handling now settled job o :
  _state (stateMachine o) = syncing ->
  inFlight o = [] ->
  timeouts o = [] ->
  handling (handleFileChanges_resume now settled job o).1 /\
  watcherSubscription (handleFileChanges_resume now settled job o).1
  = watcherSubscription o.
Proof.
  intros Hs Hfl Hts. unfold handleFileChanges_resume.
  pose proof (fun message => catch_handling message o Hs Hfl Hts) as Hcatch.
  destruct (sync_resume now settled job) as [[result|message] job'].
  - destruct (success result).
    + destruct o as [[st p e n mx] sub rt ts nt fl]; simpl in *. subst st fl ts.
      unfold transitionTo, transition; simpl.
      split; [eauto with handling | reflexivity].
    + specialize (Hcatch (join "; " (errors result))).
      destruct (handleFileChanges_catch _ o) as [o' said]. exact Hcatch.
  - apply Hcatch.
Qed.

Lemma recoveryTimerFires_idle t o :
  timeouts o = [] -> recoveryTimerFires t o = (o, []).
Proof.
  intros Hts. unfold recoveryTimerFires. rewrite Hts.
  rewrite decide_False by apply not_elem_of_nil. reflexivity.
Qed.

Lemma recoveryTimerFires_handling t o :
  handling o ->
  handling (recoveryTimerFires t o).1 /\
  watcherSubscription (recoveryTimerFires t o).1 = watcherSubscription o.
Proof.
  intros Hinv.
  destruct Hinv as [(Hfl & Hts & Hi) | [(job & Hfl & Hs & Hts) |
                    (Hfl & t' & Hts & Hrt & Hrec)]].
  - rewrite recoveryTimerFires_idle by assumption. split; [left; auto | reflexivity].
  - rewrite recoveryTimerFires_idle by assumption.
    split; [eauto with handling | reflexivity].
  - unfold recoveryTimerFires. case_decide as Hin;
      [|split; [eauto with handling | reflexivity]].
    destruct o as [[st p e n mx] sub rt ts nt fl]; simpl in *. subst st fl ts rt.
    apply list_elem_of_singleton in Hin as ->.
    unfold recoveryCallback, transitionTo, transition; simpl.
    rewrite filter_out_only.
    destruct p; simpl; (split; [eauto with handling | reflexivity]).
Qed.

Lemma deliver_handling n events jobId now o :
  handling o ->
  handling (deliver n events jobId now o).1 /\
  watcherSubscription (deliver n events jobId now o).1 = watcherSubscription o.
Proof.
  revert o. induction n as [|n IH]; intros o Hinv; [split; [exact Hinv | reflexivity]|].
  simpl. destruct (handleFileChanges_handling events jobId now o Hinv) as [H1 Hsub1].
  destruct (handleFileChanges events jobId now o) as [o1 said1]. simpl in *.
  destruct (IH o1 H1) as [H2 Hsub2].
  destruct (deliver n events jobId now o1) as [o2 said2]. simpl in *.
  split; [exact H2 | congruence].
Qed.

(** Outside [watching] no listener does anything with a batch. *)
Lemma deliver_guard n events jobId now o :
  _state (stateMachine o) <> watching ->
  deliver n events jobId now o = (o, []).
Proof.
  intros Hne. induction n as [|n IH]; [reflexivity|].
  simpl. rewrite handleFileChanges_guard by assumption. rewrite IH. reflexivity.
Qed.

(** A call of the handler that passes the guard leaves the machine
    outside [watching], so of several listeners only the first does
    anything with a batch. *)
Lemma handleFileChanges_leaves_watching events jobId now o :
  _state (stateMachine o) = watching ->
  _state (stateMachine (handleFileChanges events jobId now o).1) <> watching.
Proof.
  destruct o as [[st p e n mx] sub rt ts nt fl]; simpl. intros ->.
  unfold handleFileChanges, transitionTo, transition; simpl.
  destruct p as [profile|]; simpl.
  - unfold sync_begin, createIncrementalSyncJob; simpl. discriminate.
  - unfold handleFileChanges_catch, transitionTo, transition, scheduleRecovery,
      clearRecoveryTimeout, canRetry, context_error; simpl.
    destruct (bool_decide (n < mx)), rt; simpl; discriminate.
Qed.

Lemma deliver_once n events jobId now o :
  deliver (S n) events jobId now o = handleFileChanges events jobId now o.
Proof.
  simpl. destruct (decide (_state (stateMachine o) = watching)) as [Hw|Hne].
  - pose proof (handleFileChanges_leaves_watching events jobId now o Hw) as Hout.
    destruct (handleFileChanges events jobId now o) as [o1 said1]. simpl in Hout.
    rewrite deliver_guard by assumption. rewrite app_nil_r. reflexivity.
  - rewrite handleFileChanges_guard by assumption.
    rewrite deliver_guard by assumption. reflexivity.
Qed.

(** A session in which one call runs and nothing else: no listener, no
    recovery pending, nothing in flight. *)
Lemma serial_suspended o call :
  watcherSubscription o = false ->
  timeouts o = [] ->
  inFlight o = [] ->
  leftIn call (_state (stateMachine o)) ->
  serial {| orchestrator := o; listeners := 0; suspended := [call] |}.
Proof.
  intros Hsub Hts Hfl Hleft. split; simpl; [rewrite Hsub; reflexivity|].
  right; right. eauto 10.
Qed.

Lemma serial_unsubscribed o :
  watcherSubscription o = false ->
  timeouts o = [] ->
  inFlight o = [] ->
  serial {| orchestrator := o; listeners := 0; suspended := [] |}.
Proof.
  intros Hsub Hts Hfl. split; simpl; [rewrite Hsub; reflexivity|].
  left. split; [reflexivity|]. left. auto.
Qed.

Lemma serial_connecting o job profile :
  watcherSubscription o = false ->
  timeouts o = [] ->
  _state (stateMachine o) = connecting ->
  inFlight o = [(job, AwaitedByStart profile)] ->
  serial {| orchestrator := o; listeners := 0; suspended := [] |}.
Proof.
  intros Hsub Hts Hs Hfl. split; simpl; [rewrite Hsub; reflexivity|].
  right; left. eauto 10.
Qed.

#[local] Hint Resolve serial_suspended serial_unsubscribed serial_connecting : handling.
#[local] Hint Extern 1 (leftIn _ _) => exact I : handling.
#[local] Hint Extern 1 (leftIn _ _) => reflexivity : handling.

#[local] Ltac expose :=
  unfold suspend, withOrchestrator, withMachine, withInFlight; simpl.

(** At rest, with the invariant: nothing in flight, no call suspended,
    and the orchestrator is [handling]. *)
Lemma serial_at_rest s :
  serial s -> atRest s = true ->
  suspended s = [] /\ inFlight (orchestrator s) = [] /\ handling (orchestrator s) /\
  listeners s = (if watcherSubscription (orchestrator s) then 1 else 0).
Proof.
  intros [Hl Hinv] Hrest. unfold atRest in Hrest.
  apply andb_true_iff in Hrest as [Hfl Hsusp].
  apply bool_decide_eq_true in Hfl. apply bool_decide_eq_true in Hsusp.
  destruct Hinv as [[_ Hh] | [(_ & _ & _ & _ & job & p & Hfl') | (_ & _ & _ & call & Hc & _)]].
  - auto.
  - rewrite Hfl' in Hfl. discriminate Hfl.
  - rewrite Hc in Hsusp. discriminate Hsusp.
Qed.

(** [stop()] called at rest: the call is suspended with nothing left
    that could run beside it. *)
Lemma stop_called_serial caller s :
  serial s -> atRest s = true -> serial (stop_called caller s).1.
Proof.
  intros Hs Hrest. destruct (serial_at_rest s Hs Hrest) as (Hsusp & Hfl & Hh & Hl).
  destruct s as [[[st p e n mx] sub rt ts nt fl] l susp]; simpl in *. subst susp fl l.
  unfold stop_called, stop_begin, clearRecoveryTimeout. simpl.
  destruct Hh as [(_ & Hts & _) | [(job & Hfl & _) | (_ & t & Hts & Hrt & _)]];
    simpl in *; [|discriminate Hfl|].
  - subst ts. destruct rt, sub; simpl; eauto with handling.
  - subst ts rt. simpl. rewrite filter_out_only. destruct sub; simpl; eauto with handling.
Qed.

(** [start(profile)] from its log line on, on an idle machine. *)
Lemma start_initialize_serial profile o :
  watcherSubscription o = false ->
  timeouts o = [] ->
  inFlight o = [] ->
  _state (stateMachine o) = idle ->
  serial (start_initialize profile
            {| orchestrator := o; listeners := 0; suspended := [] |}).1.
Proof.
  destruct o as [[st p e n mx] sub rt ts nt fl]; simpl. intros -> -> -> ->.
  unfold start_initialize, transitionTo, transition; simpl. expose. eauto with handling.
Qed.

Lemma start_fails_serial message o :
  watcherSubscription o = false ->
  timeouts o = [] ->
  inFlight o = [] ->
  serial (start_fails message
            {| orchestrator := o; listeners := 0; suspended := [] |}).1.
Proof.
  destruct o as [[st p e n mx] sub rt ts nt fl]; simpl. intros -> -> ->.
  unfold start_fails, start_catch, transitionTo, transition; simpl.
  destruct (negb (canTransitionTo _ error)); expose; eauto with handling.
Qed.

Lemma start_called_serial profile s :
  serial s -> atRest s = true -> serial (start_called profile s).1.
Proof.
  intros Hs Hrest. unfold start_called.
  destruct (isActive _ || _) eqn:Hact; [apply stop_called_serial; assumption|].
  apply inactive_and_sound_is_idle in Hact.
  destruct (serial_at_rest s Hs Hrest) as (Hsusp & Hfl & Hh & Hl).
  destruct Hh as [(_ & Hts & Hi) | [(job & Hfl' & _) | (_ & t & _ & _ & Hrec)]];
    [|congruence..].
  specialize (Hi Hact). rewrite Hi in Hl.
  destruct s as [o l susp]; simpl in *. subst l susp.
  apply start_initialize_serial; assumption.
Qed.

(** A suspended call that goes on, in a session in which it is the
    only thing that runs. *)
Lemma resume_serial call answer o r :
  watcherSubscription o = false ->
  timeouts o = [] ->
  inFlight o = [] ->
  leftIn call (_state (stateMachine o)) ->
  resume call answer {| orchestrator := o; listeners := 0; suspended := [] |} = Some r ->
  serial r.1.
Proof.
  intros Hsub Hts Hfl Hleft Hr.
  destruct call as [[profile|]|profile|profile|profile|profile|profile],
           answer as [|[valid errs]|found|[conn connError] jobId now];
    simpl in Hr; try discriminate Hr.
  - (* stop(), called by start *)
    destruct o as [[st p e n mx] sub rt ts nt fl]; simpl in *. subst sub ts fl.
    unfold stop_resume, reset, withMachine, start_initialize, transitionTo, transition
      in Hr; simpl in Hr.
    injection Hr as <-. expose. eauto with handling.
  - (* stop(), called by the operator *)
    destruct o as [[st p e n mx] sub rt ts nt fl]; simpl in *. subst sub ts fl.
    unfold stop_resume, reset, withMachine in Hr; simpl in Hr.
    injection Hr as <-. expose. eauto with handling.
  - destruct valid; injection Hr as <-.
    + expose. eauto with handling.
    + apply start_fails_serial; assumption.
  - destruct found; injection Hr as <-.
    + expose. eauto with handling.
    + apply start_fails_serial; assumption.
  - destruct found.
    + destruct o as [[st p e n mx] sub rt ts nt fl]; simpl in *. subst sub ts fl st.
      unfold transitionTo, transition in Hr; simpl in Hr.
      injection Hr as <-. expose. eauto with handling.
    + injection Hr as <-. apply start_fails_serial; assumption.
  - destruct conn; simpl in Hr.
    + unfold sync_begin, createFullSyncJob in Hr. simpl in Hr.
      injection Hr as <-.
      destruct o as [[st p e n mx] sub rt ts nt fl]; simpl in *. subst sub ts fl st.
      expose. eauto with handling.
    + injection Hr as <-. apply start_fails_serial; assumption.
  - (* the watcher has started: the listener is registered *)
    injection Hr as <-. simpl in *.
    split; simpl; [reflexivity|]. left. split; [reflexivity|].
    apply handling_quiet_off_idle; simpl; [assumption..|]. rewrite Hleft. discriminate.
Qed.

(** [start] when its initial full sync settles. *)
Lemma start_settled_serial now settled job profile o :
  watcherSubscription o = false ->
  timeouts o = [] ->
  inFlight o = [] ->
  _state (stateMachine o) = connecting ->
  serial (start_settled now settled job profile
            {| orchestrator := o; listeners := 0; suspended := [] |}).1.
Proof.
  intros Hsub Hts Hfl Hs. unfold start_settled.
  destruct (sync_resume now settled job) as [[result|message] job'];
    [destruct (success result)|]; try (apply start_fails_serial; assumption).
  destruct o as [[st p e n mx] sub rt ts nt fl]; simpl in *. subst sub ts fl st.
  unfold transitionTo, transition; simpl. expose. eauto with handling.
Qed.

Lemma withOrchestrator_same s : withOrchestrator (orchestrator s) s = s.
Proof. destruct s; reflexivity. Qed.

(** Every input keeps the invariant, a call being made at rest. *)
Lemma react_serial input s :
  (if isCall input then atRest s else true) = true ->
  serial s ->
  serial (react input s).1.
Proof.
  intros Hcall Hs.
  destruct input as [events jobId now|i settled now|t| |profile|i answer]; simpl.
  - (* a batch *)
    destruct Hs as [Hl [[Hsusp Hh] | Hbusy]].
    + destruct (deliver_handling (listeners s) events jobId now _ Hh) as [Hh' Hsub].
      destruct (deliver _ _ _ _ _) as [o' said]. simpl in *.
      split; simpl; [rewrite Hsub; exact Hl|]. left. auto.
    + assert (Hsub : watcherSubscription (orchestrator s) = false)
        by (destruct Hbusy as [(_ & ? & _) | (? & _)]; assumption).
      rewrite Hsub in Hl. rewrite Hl. simpl. rewrite withOrchestrator_same.
      split; [rewrite Hsub; exact Hl | right; exact Hbusy].
  - (* a transfer settles *)
    destruct (inFlight (orchestrator s) !! i) as [[job awaiter]|] eqn:Hi; [|exact Hs].
    destruct Hs as [Hl [[Hsusp Hh] | [(Hsusp & Hsub & Hts & Hst & job' & p & Hfl) |
                                       (_ & _ & Hfl & _)]]];
      [| |rewrite Hfl in Hi; discriminate Hi].
    + destruct Hh as [(Hfl & _) | [(job' & Hfl & Hst & Hts) | (Hfl & _)]];
        rewrite Hfl in Hi; try discriminate Hi.
      destruct i as [|i]; [|discriminate Hi]. injection Hi as <- <-.
      destruct (resume_handling now settled job'
                  (withInFlight (base.delete 0 (inFlight (orchestrator s)))
                     (orchestrator s))) as [Hh' Hsub'];
        [exact Hst | simpl; rewrite Hfl; reflexivity | exact Hts |].
      destruct (handleFileChanges_resume _ _ _ _) as [o' said]. simpl in *.
      split; simpl; [rewrite Hsub'; exact Hl|]. left. auto.
    + rewrite Hfl in Hi. destruct i as [|i]; [|discriminate Hi]. injection Hi as <- <-.
      rewrite Hsub in Hl.
      destruct s as [o l susp]; simpl in *. subst l susp.
      apply start_settled_serial; simpl; try assumption. rewrite Hfl. reflexivity.
  - (* a recovery timeout comes due *)
    destruct Hs as [Hl [[Hsusp Hh] | Hbusy]].
    + destruct (recoveryTimerFires_handling t _ Hh) as [Hh' Hsub].
      destruct (recoveryTimerFires t _) as [o' said]. simpl in *.
      split; simpl; [rewrite Hsub; exact Hl|]. left. auto.
    + assert (Hts : timeouts (orchestrator s) = [])
        by (destruct Hbusy as [(_ & _ & ? & _) | (_ & ? & _)]; assumption).
      rewrite recoveryTimerFires_idle by assumption. simpl.
      rewrite withOrchestrator_same. split; [exact Hl | right; exact Hbusy].
  - apply stop_called_serial; assumption.
  - apply start_called_serial; assumption.
  - (* a suspended call goes on *)
    destruct (suspended s !! i) as [call|] eqn:Hi; [|exact Hs].
    pose proof Hs as [Hl [[Hsusp _] | [(Hsusp & _) |
                          (Hsub & Hts & Hfl & call' & Hsusp & Hleft)]]];
      try (rewrite Hsusp in Hi; discriminate Hi).
    rewrite Hsusp in Hi |- *. destruct i as [|i]; [|discriminate Hi]. injection Hi as <-.
    rewrite Hsub in Hl. rewrite Hl. simpl.
    destruct (resume call' _ _) as [r|] eqn:Hr; [|exact Hs]. simpl.
    destruct s as [o l susp]; simpl in *. subst l.
    eapply resume_serial; eassumption.
Qed.

Lemma serial_new : serial Interleaving.new.
Proof. split; [reflexivity|]. left. split; [reflexivity|]. left. auto. Qed.

Lemma reactAll_serial inputs s :
  callsAtRest inputs s = true -> serial s -> serial (reactAll inputs s).1.
Proof.
  revert s. induction inputs as [|input inputs IH]; intros s Hall Hs; [exact Hs|].
  simpl in Hall. apply andb_true_iff in Hall as [Hin Hall].
  rewrite reactAll_cons. simpl. apply IH; [exact Hall | apply react_serial; assumption].
Qed.

(** While a job is in flight or a call is running, batches and
    recovery timeouts change nothing and emit nothing. *)
Lemma busy_ignores input s :
  serial s -> atRest s = false -> isNoise input = true ->
  react input s = (s, []).
Proof.
  intros [Hl Hinv] Hbusy Hnoise.
  assert (Hq : (listeners s = 0 \/ _state (stateMachine (orchestrator s)) = syncing) /\
               timeouts (orchestrator s) = []).
  { destruct Hinv as [[Hsusp Hh] | [(_ & Hsub & Hts & _) | (Hsub & Hts & _)]];
      try (rewrite Hsub in Hl; auto).
    destruct Hh as [(Hfl & _) | [(job & _ & Hst & Hts) | (Hfl & _)]]; auto;
      unfold atRest in Hbusy; rewrite Hfl, Hsusp in Hbusy; discriminate Hbusy. }
  destruct Hq as [Hq Hts].
  destruct input as [events jobId now| |t| | |]; try discriminate Hnoise; simpl.
  - destruct Hq as [H0|Hst].
    + rewrite H0. simpl. rewrite withOrchestrator_same. reflexivity.
    + rewrite deliver_guard by (rewrite Hst; discriminate).
      rewrite withOrchestrator_same. reflexivity.
  - rewrite recoveryTimerFires_idle by assumption. rewrite withOrchestrator_same.
    reflexivity.
Qed.

(** One job at a time. *)
Lemma serial_at_most_one s :
  serial s -> length (jobsInFlight (orchestrator s)) <= 1.
Proof.
  unfold jobsInFlight.
  intros [_ [[_ [(-> & _) | [(job & -> & _) | (-> & _)]]] |
             [(_ & _ & _ & _ & job & p & ->) | (_ & _ & -> & _)]]]; simpl; lia.
Qed.

(** The condition on the calls cannot be relaxed to "no job is in
    flight": a second [start(profile)] made while the first awaits the
    validator finds nothing in flight, and both calls go on to their
    initial full sync. *)
Lemma overlapping_starts_put_two_jobs_in_flight :
  callsBetweenJobs Cases.overlappingStarts Interleaving.new = true /\
  callsAtRest Cases.overlappingStarts Interleaving.new = false /\
  job_id <$> jobsInFlight (orchestrator (reactAll Cases.overlappingStarts Interleaving.new).1)
  = ["sync_2"; "sync_1"] /\
  _status <$> jobsInFlight (orchestrator (reactAll Cases.overlappingStarts Interleaving.new).1)
  = [running; running].
Proof. repeat split. Qed.

(** [C2], amended: as long as the operator calls [stop()] and [start()]
    only at rest, that is, while no sync job is in flight and no earlier
    call of [stop()] or [start()] is still running, at most one sync job
    is in flight, in whatever order batches, settling transfers,
    recovery timeouts and the answers to the awaits of the calls arrive.
    A change batch handed to the handler while the machine is in a state
    other than [watching] -- in particular [syncing] -- creates no job
    and starts no transfer: the handler returns at once and leaves the
    orchestrator as it is, so a batch that arrives during a running sync
    does not preempt it. *)
Theorem batch_outside_watching_is_ignored :
  forall inputs : list Input,
    callsAtRest inputs Interleaving.new = true ->
    length (jobsInFlight (orchestrator (reactAll inputs Interleaving.new).1)) <= 1 /\
    (forall o events jobId now,
        _state (stateMachine o) <> watching ->
        handleFileChanges events jobId now o = (o, []) /\
        startsWork (handleFileChanges events jobId now o).2 = false) /\
    (forall events jobId now,
        jobsInFlight (orchestrator (reactAll inputs Interleaving.new).1) <> [] ->
        react (BatchArrives events jobId now) (reactAll inputs Interleaving.new).1
        = ((reactAll inputs Interleaving.new).1, [])).
Proof.
  intros inputs Hall.
  pose proof (reactAll_serial inputs _ Hall serial_new) as Hinv.
  split; [apply serial_at_most_one, Hinv|]. split.
  - intros o events jobId now Hne.
    rewrite handleFileChanges_guard by assumption. split; reflexivity.
  - intros events jobId now Hne.
    apply busy_ignores; [exact Hinv | | reflexivity].
    unfold atRest. rewrite bool_decide_eq_false_2; [reflexivity|].
    intros Hfl. apply Hne. unfold jobsInFlight. rewrite Hfl. reflexivity.
Qed.

Lemma batch_outside_watching_is_ignored_witness :
  callsAtRest Cases.patientSession Interleaving.new = true /\
  length (jobsInFlight (orchestrator (reactAll Cases.patientSession Interleaving.new).1))
  <= 1.
Proof.
  assert (H : callsAtRest Cases.patientSession Interleaving.new = true) by reflexivity.
  split; [exact H|].
  exact (proj1 (batch_outside_watching_is_ignored Cases.patientSession H)).
Defined.

(** *** The retry budget *)

(** Every input changes the machine by [transition] and [reset] only. *)
Lemma evolves_deliver n events jobId now o :
  evolves (stateMachine o) (stateMachine (deliver n events jobId now o).1).
Proof.
  revert o. induction n as [|n IH]; intros o; [apply evolves_refl|].
  simpl. pose proof (evolves_handleFileChanges events jobId now o) as H1.
  destruct (handleFileChanges events jobId now o) as [o1 said1]. simpl in *.
  pose proof (IH o1) as H2.
  destruct (deliver n events jobId now o1) as [o2 said2]. simpl in *.
  eapply evolves_trans; eassumption.
Qed.

Lemma stop_begin_machine o : stateMachine (stop_begin o).1 = stateMachine o.
Proof. unfold stop_begin, clearRecoveryTimeout. destruct (recoveryTimeout o); reflexivity. Qed.

Lemma evolves_stop_resume o :
  evolves (stateMachine o) (stateMachine (stop_resume o).1).
Proof. exists [MachineRuns.CallReset]. reflexivity. Qed.

Lemma evolves_start_initialize profile s :
  evolves (stateMachine (orchestrator s))
    (stateMachine (orchestrator (start_initialize profile s).1)).
Proof.
  unfold start_initialize.
  pose proof (evolves_transitionTo initializing
                (Some {| ctx_profile := Some profile; ctx_error := None |})
                (orchestrator s)) as H.
  destruct (transitionTo initializing _ _) as [o1 said]. exact H.
Qed.

Lemma evolves_start_fails message s :
  evolves (stateMachine (orchestrator s))
    (stateMachine (orchestrator (start_fails message s).1)).
Proof.
  unfold start_fails. pose proof (evolves_start_catch message (orchestrator s)) as H.
  destruct (start_catch message _) as [o1 said]. exact H.
Qed.

Lemma evolves_start_settled now settled job profile s :
  evolves (stateMachine (orchestrator s))
    (stateMachine (orchestrator (start_settled now settled job profile s).1)).
Proof.
  unfold start_settled.
  destruct (sync_resume now settled job) as [[result|message] job'];
    [destruct (success result)|]; try apply evolves_start_fails.
  pose proof (evolves_transitionTo watching None (orchestrator s)) as H.
  destruct (transitionTo watching None _) as [o1 said]. exact H.
Qed.

Lemma evolves_resume_call call answer s r :
  resume call answer s = Some r ->
  evolves (stateMachine (orchestrator s)) (stateMachine (orchestrator r.1)).
Proof.
  intros Hr.
  destruct call as [[profile|]|profile|profile|profile|profile|profile],
           answer as [|[valid errs]|found|[conn connError] jobId now];
    try (simpl in Hr; discriminate Hr);
    cbv beta iota delta [resume] in Hr.
  - pose proof (evolves_stop_resume (orchestrator s)) as H1.
    destruct (stop_resume (orchestrator s)) as [o1 said1].
    pose proof (evolves_start_initialize profile (withOrchestrator o1 s)) as H2.
    destruct (start_initialize profile _) as [s2 said2]. injection Hr as <-.
    simpl in *. eapply evolves_trans; eassumption.
  - pose proof (evolves_stop_resume (orchestrator s)) as H1.
    destruct (stop_resume (orchestrator s)) as [o1 said1]. injection Hr as <-. exact H1.
  - simpl in Hr. destruct valid; injection Hr as <-;
      [apply evolves_refl | apply evolves_start_fails].
  - destruct found; injection Hr as <-;
      [apply evolves_refl | apply evolves_start_fails].
  - destruct found.
    + pose proof (evolves_transitionTo connecting None (orchestrator s)) as H.
      destruct (transitionTo connecting None _) as [o1 said]. injection Hr as <-. exact H.
    + injection Hr as <-. apply evolves_start_fails.
  - simpl in Hr. destruct conn.
    + injection Hr as <-. apply evolves_refl.
    + injection Hr as <-. apply evolves_start_fails.
  - injection Hr as <-. apply evolves_refl.
Qed.

Lemma evolves_react input s :
  evolves (stateMachine (orchestrator s)) (stateMachine (orchestrator (react input s).1)).
Proof.
  destruct input as [events jobId now|i settled now|t| |profile|i answer]; simpl.
  - pose proof (evolves_deliver (listeners s) events jobId now (orchestrator s)) as H.
    destruct (deliver _ _ _ _ _) as [o1 said]. exact H.
  - destruct (inFlight (orchestrator s) !! i) as [[job [profile|]]|]; [| |apply evolves_refl].
    + apply (evolves_start_settled now settled job profile
               (withOrchestrator
                  (withInFlight (base.delete i (inFlight (orchestrator s))) (orchestrator s))
                  s)).
    + pose proof (evolves_resume now settled job
                    (withInFlight (base.delete i (inFlight (orchestrator s)))
                       (orchestrator s))) as H.
      destruct (handleFileChanges_resume _ _ _ _) as [o1 said]. exact H.
  - pose proof (evolves_recoveryTimerFires t (orchestrator s)) as H.
    destruct (recoveryTimerFires t _) as [o1 said]. exact H.
  - unfold stop_called. simpl. rewrite <- (stop_begin_machine (orchestrator s)).
    apply evolves_refl.
  - unfold start_called. destruct (isActive _ || _).
    + unfold stop_called. simpl. rewrite <- (stop_begin_machine (orchestrator s)).
      apply evolves_refl.
    + apply evolves_start_initialize.
  - destruct (suspended s !! i) as [call|]; [|apply evolves_refl].
    destruct (resume call answer _) as [r|] eqn:Hr; [|apply evolves_refl].
    apply (evolves_resume_call _ _ _ _ Hr).
Qed.

(** No input makes the orchestrator report its retry budget as used
    up, in a run with the calls made at rest. *)
Lemma deliver_quiet n events jobId now o :
  MachineRuns.settled (stateMachine o) ->
  maxRetries (stateMachine o) = 3 ->
  reportedExhausted (deliver n events jobId now o).2 = false.
Proof.
  revert o. induction n as [|n IH]; intros o Hset Hmax; [reflexivity|].
  simpl. pose proof (handleFileChanges_quiet events jobId now o Hset Hmax) as H1.
  destruct (evolves_keeps _ _ (evolves_handleFileChanges events jobId now o) Hset Hmax)
    as [Hset1 Hmax1].
  destruct (handleFileChanges events jobId now o) as [o1 said1]. simpl in *.
  pose proof (IH o1 Hset1 Hmax1) as H2.
  destruct (deliver n events jobId now o1) as [o2 said2]. simpl in *.
  rewrite reportedExhausted_app, H1, H2. reflexivity.
Qed.

Lemma start_initialize_quiet profile s :
  reportedExhausted (start_initialize profile s).2 = false.
Proof.
  unfold start_initialize.
  pose proof (transitionTo_quiet initializing
                (Some {| ctx_profile := Some profile; ctx_error := None |})
                (orchestrator s)) as H.
  destruct (transitionTo initializing _ _) as [o1 said]. exact H.
Qed.

Lemma start_fails_quiet message s : reportedExhausted (start_fails message s).2 = false.
Proof.
  unfold start_fails. pose proof (start_catch_quiet message (orchestrator s)) as H.
  destruct (start_catch message _) as [o1 said]. exact H.
Qed.

Lemma start_settled_quiet now settled job profile s :
  reportedExhausted (start_settled now settled job profile s).2 = false.
Proof.
  unfold start_settled.
  destruct (sync_resume now settled job) as [[result|message] job'];
    [destruct (success result)|]; try apply start_fails_quiet.
  pose proof (transitionTo_quiet watching None (orchestrator s)) as H.
  destruct (transitionTo watching None _) as [o1 said]. simpl in *.
  rewrite reportedExhausted_app, H. reflexivity.
Qed.

Lemma stop_resume_quiet o : reportedExhausted (stop_resume o).2 = false.
Proof.
  unfold stop_resume, reset. simpl. rewrite reportedExhausted_app.
  destruct (decide (_ <> idle)); reflexivity.
Qed.

Lemma resume_call_quiet call answer s r :
  resume call answer s = Some r -> reportedExhausted r.2 = false.
Proof.
  intros Hr.
  destruct call as [[profile|]|profile|profile|profile|profile|profile],
           answer as [|[valid errs]|found|[conn connError] jobId now];
    try (simpl in Hr; discriminate Hr);
    cbv beta iota delta [resume] in Hr.
  - pose proof (stop_resume_quiet (orchestrator s)) as H1.
    destruct (stop_resume (orchestrator s)) as [o1 said1].
    pose proof (start_initialize_quiet profile (withOrchestrator o1 s)) as H2.
    destruct (start_initialize profile _) as [s2 said2]. injection Hr as <-.
    simpl in *. rewrite reportedExhausted_app, H1, H2. reflexivity.
  - pose proof (stop_resume_quiet (orchestrator s)) as H1.
    destruct (stop_resume (orchestrator s)) as [o1 said1]. injection Hr as <-. exact H1.
  - simpl in Hr. destruct valid; injection Hr as <-;
      [reflexivity | apply start_fails_quiet].
  - destruct found; injection Hr as <-; [reflexivity | apply start_fails_quiet].
  - destruct found.
    + pose proof (transitionTo_quiet connecting None (orchestrator s)) as H.
      destruct (transitionTo connecting None _) as [o1 said]. injection Hr as <-. exact H.
    + injection Hr as <-. apply start_fails_quiet.
  - simpl in Hr. destruct conn.
    + unfold sync_begin, createFullSyncJob in Hr. simpl in Hr.
      injection Hr as <-. reflexivity.
    + injection Hr as <-. apply start_fails_quiet.
  - injection Hr as <-. reflexivity.
Qed.

Lemma react_steady input s :
  (if isCall input then atRest s else true) = true ->
  steady s ->
  steady (react input s).1 /\ reportedExhausted (react input s).2 = false.
Proof.
  intros Hcall (Hser & Hset & Hmax).
  split.
  - split; [apply react_serial; assumption|].
    apply (evolves_keeps (stateMachine (orchestrator s)));
      [apply evolves_react | assumption..].
  - destruct input as [events jobId now|i settled now|t| |profile|i answer]; simpl.
    + pose proof (deliver_quiet (listeners s) events jobId now _ Hset Hmax) as H.
      destruct (deliver _ _ _ _ _) as [o1 said]. exact H.
    + destruct (inFlight (orchestrator s) !! i) as [[job [profile|]]|] eqn:Hi;
        [| |reflexivity].
      * apply start_settled_quiet.
      * assert (Hst : _state (stateMachine (orchestrator s)) = syncing).
        { destruct Hser as [_ [[_ Hh] | [(_ & _ & _ & _ & job' & p & Hfl) |
                                         (_ & _ & Hfl & _)]]];
            try (rewrite Hfl in Hi; destruct i; discriminate Hi).
          destruct Hh as [(Hfl & _) | [(job' & _ & Hst & _) | (Hfl & _)]];
            try (rewrite Hfl in Hi; discriminate Hi). exact Hst. }
        pose proof (resume_quiet now settled job
                      (withInFlight (base.delete i (inFlight (orchestrator s)))
                         (orchestrator s))) as H.
        simpl in H. specialize (H Hst).
        destruct (handleFileChanges_resume _ _ _ _) as [o1 said]. apply H; [|exact Hmax].
        destruct Hset as [Hr _]. apply Hr; rewrite Hst; discriminate.
    + pose proof (recoveryTimerFires_quiet t (orchestrator s)) as H.
      destruct (recoveryTimerFires t _) as [o1 said]. exact H.
    + reflexivity.
    + unfold start_called. destruct (isActive _ || _);
        [reflexivity | apply start_initialize_quiet].
    + destruct (suspended s !! i) as [call|]; [|reflexivity].
      destruct (resume call answer _) as [r|] eqn:Hr; [|reflexivity].
      apply (resume_call_quiet _ _ _ _ Hr).
Qed.

Lemma steady_new : steady Interleaving.new.
Proof.
  split; [apply serial_new|]. split; [apply (settled_new None) | reflexivity].
Qed.

Lemma reactAll_steady inputs s :
  callsAtRest inputs s = true ->
  steady s ->
  steady (reactAll inputs s).1 /\ reportedExhausted (reactAll inputs s).2 = false.
Proof.
  revert s. induction inputs as [|input inputs IH]; intros s Hall Hs;
    [split; [exact Hs|reflexivity]|].
  simpl in Hall. apply andb_true_iff in Hall as [Hin Hall].
  destruct (react_steady input s Hin Hs) as [Hs1 Hq1].
  rewrite reactAll_cons. simpl.
  destruct (IH _ Hall Hs1) as [Hs2 Hq2].
  split; [exact Hs2|]. rewrite reportedExhausted_app, Hq1, Hq2. reflexivity.
Qed.

(** [X29] The retry budget is never reported as used up: in every run
    of a new orchestrator in which the operator calls [stop()] and
    [start()] only at rest, while no job is in flight and no earlier
    call is still running, no error event flagged as not recoverable is
    emitted, in whatever order batches, settling transfers, timeouts
    and the answers to the awaits arrive. Each sync starts from
    [watching], where the counter is 0, so a failed sync always finds
    budget left (the budget stays 3) and schedules a recovery. *)
Theorem retry_budget_is_never_exhausted :
  forall inputs : list Input,
    callsAtRest inputs Interleaving.new = true ->
    reportedExhausted (reactAll inputs Interleaving.new).2 = false /\
    maxRetries (stateMachine (orchestrator (reactAll inputs Interleaving.new).1)) = 3 /\
    (_state (stateMachine (orchestrator (reactAll inputs Interleaving.new).1)) = watching ->
     _retryCount (stateMachine (orchestrator (reactAll inputs Interleaving.new).1)) = 0).
Proof.
  intros inputs Hall.
  destruct (reactAll_steady inputs _ Hall steady_new) as [(_ & [Hr _] & Hmax) Hq].
  split; [exact Hq|]. split; [exact Hmax|].
  intros Hs. apply Hr; rewrite Hs; discriminate.
Qed.

Lemma retry_budget_is_never_exhausted_witness :
  callsAtRest Cases.patientSession Interleaving.new = true /\
  reportedExhausted (reactAll Cases.patientSession Interleaving.new).2 = false.
Proof.
  assert (H : callsAtRest Cases.patientSession Interleaving.new = true) by reflexivity.
  split; [exact H|].
  exact (proj1 (retry_budget_is_never_exhausted Cases.patientSession H)).
Defined.

(** *** The calls run in one piece *)

(** [Orchestrator.stop], [Orchestrator.start] and the step of
    [Orchestrator.step] for the initial full sync are the calls run with
    nothing else in between. *)
Lemma stop_in_one_piece s :
  suspended s = [] ->
  orchestrator (reactAll stopCall s).1 = (Orchestrator.stop (orchestrator s)).1 /\
  (reactAll stopCall s).2 = (Orchestrator.stop (orchestrator s)).2 /\
  suspended (reactAll stopCall s).1 = [].
Proof.
  destruct s as [[[st p e n mx] sub rt ts nt fl] l susp]; simpl. intros ->.
  unfold stop_called, stop_begin, Orchestrator.stop, clearRecoveryTimeout, reset.
  destruct rt; simpl; rewrite app_nil_r; repeat split.
Qed.

Lemma start_in_one_piece profile env jobId now s :
  suspended s = [] ->
  orchestrator (reactAll (startCall profile env jobId now) s).1
  = (Orchestrator.start profile env jobId now (orchestrator s)).1.2 /\
  (reactAll (startCall profile env jobId now) s).2
  = (Orchestrator.start profile env jobId now (orchestrator s)).2 /\
  suspended (reactAll (startCall profile env jobId now) s).1 = [].
Proof.
  destruct s as [[[st p e n mx] sub rt ts nt fl] l susp]; simpl suspended. intros ->.
  destruct env as [[valid errs] rsync inotify [conn connError]].
  destruct st, rt, valid, rsync, inotify, conn; repeat split.
Qed.

Lemma start_resume_in_one_piece i settled now job profile s :
  suspended s = [] ->
  inFlight (orchestrator s) !! i = Some (job, AwaitedByStart profile) ->
  orchestrator (reactAll [TransferEnds i settled now; AwaitEnds 0 Fulfilled] s).1
  = (Orchestrator.step (TransferSettles i settled now) (orchestrator s)).1 /\
  (reactAll [TransferEnds i settled now; AwaitEnds 0 Fulfilled] s).2
  = (Orchestrator.step (TransferSettles i settled now) (orchestrator s)).2.
Proof.
  destruct s as [o l susp]; simpl suspended; simpl orchestrator. intros -> Hi.
  assert (HA : react (TransferEnds i settled now)
                 {| orchestrator := o; listeners := l; suspended := [] |}
               = start_settled now settled job profile
                   {| orchestrator := withInFlight (base.delete i (inFlight o)) o;
                      listeners := l; suspended := [] |}).
  { simpl. rewrite Hi. reflexivity. }
  rewrite reactAll_cons, HA. clear HA.
  simpl Orchestrator.step. rewrite Hi.
  generalize (withInFlight (base.delete i (inFlight o)) o) as o0. intros o0.
  unfold start_settled, start_resume, start_fails. simpl orchestrator.
  destruct (sync_resume now settled job) as [[result|message] job'];
    [destruct (success result)|].
  - destruct (transitionTo watching None o0) as [o1 said]. simpl.
    split; [reflexivity|]. rewrite <- !app_assoc. reflexivity.
  - destruct (start_catch _ o0) as [o1 said]. simpl. rewrite app_nil_r.
    split; reflexivity.
  - destruct (start_catch _ o0) as [o1 said]. simpl. rewrite app_nil_r.
    split; reflexivity.
Qed.

Lemma callsAtRest_take k inputs s :
  callsAtRest inputs s = true -> callsAtRest (take k inputs) s = true.
Proof.
  revert k s. induction inputs as [|input inputs IH]; intros k s Hall.
  - destruct k; reflexivity.
  - destruct k as [|k]; [reflexivity|].
    simpl in Hall |- *. apply andb_true_iff in Hall as [Hin Hall].
    rewrite Hin. simpl. apply IH, Hall.
Qed.

Lemma startCall_atRest profile env jobId now s :
  atRest s = true -> callsAtRest (startCall profile env jobId now) s = true.
Proof.
  intros Hrest. unfold startCall.
  change (callsAtRest (StartIsCalled profile :: ?rest) s)
    with (atRest s && callsAtRest rest (react (StartIsCalled profile) s).1).
  rewrite Hrest. reflexivity.
Qed.


(** While a call made at rest runs, batches and recovery timeouts
    change nothing. *)
Lemma call_runs_alone inputs call k input :
  callsAtRest inputs Interleaving.new = true ->
  callsAtRest call (reactAll inputs Interleaving.new).1 = true ->
  isNoise input = true ->
  atRest (reactAll (take k call) (reactAll inputs Interleaving.new).1).1 = false ->
  react input (reactAll (take k call) (reactAll inputs Interleaving.new).1).1
  = ((reactAll (take k call) (reactAll inputs Interleaving.new).1).1, []).
Proof.
  intros Hall Hcall Hnoise Hbusy.
  apply busy_ignores; [|exact Hbusy|exact Hnoise].
  assert (H : callsAtRest (inputs ++ take k call) Interleaving.new = true).
  { rewrite callsAtRest_app, Hall. simpl. apply callsAtRest_take, Hcall. }
  pose proof (reactAll_serial _ _ H serial_new) as Hs.
  rewrite reactAll_app in Hs. exact Hs.
Qed.

(** [X25] [start(profile)], called at rest in a run with the calls made
    at rest. While the call runs -- through [stop()] if the machine is
    active or in [error], the validator, the two tool checks and the
    connection test -- a batch or a recovery timeout that arrives
    changes nothing and emits nothing, and nothing is in flight that
    could settle. When all the checks pass, the call leaves exactly one
    job in flight -- a running full sync of the profile, handed to the
    client once -- with the machine in [connecting] and holding the
    profile; when any of them fails it reports the failure as a
    recoverable error, ends in [error] and at rest, and hands nothing to
    the client. *)
Theorem start_either_connects_or_fails_clean :
  forall (inputs : list Input) (profile : Profile) (env : StartEnv) (jobId : string)
         (now : Date),
    callsAtRest inputs Interleaving.new = true ->
    atRest (reactAll inputs Interleaving.new).1 = true ->
    let s := (reactAll inputs Interleaving.new).1 in
    let call := startCall profile env jobId now in
    let r := reactAll call s in
    (forall (k : nat) (input : Input),
        isNoise input = true ->
        atRest (reactAll (take k call) s).1 = false ->
        react input (reactAll (take k call) s).1 = ((reactAll (take k call) s).1, [])) /\
    (forall k : nat,
        k < length call -> inFlight (orchestrator (reactAll (take k call) s).1) = []) /\
    if allClear env
    then suspended r.1 = [] /\
         _state (stateMachine (orchestrator r.1)) = connecting /\
         _profile (stateMachine (orchestrator r.1)) = Some profile /\
         inFlight (orchestrator r.1)
         = [((Job.start now (createFullSyncJob now jobId profile)).2,
             AwaitedByStart profile)] /\
         rsyncRequests r.2 = [fullRequest jobId profile]
    else (exists message, ErrorEvent message true ∈ r.2) /\
         _state (stateMachine (orchestrator r.1)) = error /\
         atRest r.1 = true /\
         rsyncRequests r.2 = [].
Proof.
  intros inputs profile env jobId now Hall Hrest s call r.
  pose proof (reactAll_serial inputs _ Hall serial_new) as Hser. fold s in Hser.
  pose proof (startCall_atRest profile env jobId now s Hrest) as Hcall. fold call in Hcall.
  destruct (serial_at_rest s Hser Hrest) as (Hsusp & Hfl & _ & _).
  split; [|split].
  - intros k input Hnoise Hbusy. apply call_runs_alone; assumption.
  - intros k Hk.
    destruct s as [[[st p e n mx] sub rt ts nt fl] l susp]; simpl in Hsusp, Hfl.
    subst susp fl. subst call. simpl in Hk.
    destruct env as [[valid errs] rsync inotify [conn connError]].
    do 6 (destruct k as [|k];
          [destruct st, rt, valid, rsync, inotify; reflexivity|]).
    lia.
  - destruct (start_in_one_piece profile env jobId now s Hsusp) as (Ho & Hsaid & Hsusp').
    fold call in Ho, Hsaid, Hsusp'. fold r in Ho, Hsaid, Hsusp'.
    pose proof (start_run_in_one_piece profile env jobId now (orchestrator s)) as H.
    cbv zeta in H. rewrite <- Ho, <- Hsaid, Hfl in H.
    destruct (allClear env).
    + destruct H as (_ & Hst & Hp & Hfl' & Hreq). auto.
    + destruct H as ((message & _ & Hin) & Hst & Hfl' & Hreq).
      split; [exists message; exact Hin|]. split; [exact Hst|]. split; [|exact Hreq].
      unfold atRest. rewrite Hfl', Hsusp'. reflexivity.
Qed.

Lemma start_either_connects_or_fails_clean_witness :
  callsAtRest Cases.watchingSession Interleaving.new = true /\
  atRest (reactAll Cases.watchingSession Interleaving.new).1 = true /\
  _state (stateMachine (orchestrator
            (reactAll (startCall Samples.profile Samples.allGood "sync_9" 9%N)
               (reactAll Cases.watchingSession Interleaving.new).1).1)) = connecting.
Proof.
  assert (H1 : callsAtRest Cases.watchingSession Interleaving.new = true) by reflexivity.
  assert (H2 : atRest (reactAll Cases.watchingSession Interleaving.new).1 = true)
    by reflexivity.
  split; [exact H1|]. split; [exact H2|].
  exact (proj1 (proj2 (proj2 (proj2
           (start_either_connects_or_fails_clean Cases.watchingSession Samples.profile
              Samples.allGood "sync_9" 9%N H1 H2))))).
Defined.


(** Not so when a job is in flight: its transfer may fail while
    [stop()] awaits the watcher, and the recovery timeout that the
    handler then sets is still set and pending when [stop()] has
    returned and the machine is [idle]. *)
Lemma stop_during_failing_sync_leaves_timeout :
  callsAtRest Cases.stopDuringSync Interleaving.new = false /\
  _state (stateMachine (orchestrator (reactAll Cases.stopDuringSync Interleaving.new).1))
  = idle /\
  recoveryTimeout (orchestrator (reactAll Cases.stopDuringSync Interleaving.new).1)
  = Some 0 /\
  timeouts (orchestrator (reactAll Cases.stopDuringSync Interleaving.new).1) = [0].
Proof. repeat split. Qed.


End Interleaving.
